(** * Verification of the Nominatim geocoding service of bmlt-query-client

    Shallow embedding of [src/services/geocoding.ts] (class
    [GeocodingService]) and of the parts of [src/utils/errors.ts] it relies
    on, followed by the properties of the geocoding subsystem.

    JavaScript numbers are IEEE-754 binary64 values, modelled by Rocq's
    primitive floats.  Asynchronous code is modelled in a state-and-error
    monad over a [World] that holds the pending timers, the HTTP requests
    issued so far, the console, the delays slept by the retry policy, and
    the requests and waits in the order in which they happened. *)

From Stdlib Require Import ZArith Floats Ascii String List Lia.
From stdpp Require Import base option list gmap strings pretty.

Local Open Scope string_scope.
Local Open Scope list_scope.
Local Open Scope Z_scope.

(** ** Error values *)

(** [BmltErrorType] of utils/errors.ts. *)
Inductive BmltErrorType :=
| API_ERROR | NETWORK_ERROR | VALIDATION_ERROR | GEOCODING_ERROR
| RATE_LIMIT_ERROR | TIMEOUT_ERROR | AUTHENTICATION_ERROR | SERVER_ERROR
| CLIENT_ERROR | CONFIGURATION_ERROR.

#[global] Instance BmltErrorType_eq_dec : EqDecision BmltErrorType.
Proof. solve_decision. Defined.

(** The string value of each enum member. *)
Definition BmltErrorType_value (t : BmltErrorType) : string :=
  match t with
  | API_ERROR => "ApiError"
  | NETWORK_ERROR => "NetworkError"
  | VALIDATION_ERROR => "ValidationError"
  | GEOCODING_ERROR => "GeocodingError"
  | RATE_LIMIT_ERROR => "RateLimitError"
  | TIMEOUT_ERROR => "TimeoutError"
  | AUTHENTICATION_ERROR => "AuthenticationError"
  | SERVER_ERROR => "ServerError"
  | CLIENT_ERROR => "ClientError"
  | CONFIGURATION_ERROR => "ConfigurationError"
  end.

(** The constructor an error object was built with; it decides the
    [instanceof] tests of the source. *)
Inductive ErrorClass :=
| ErrorCls | TypeErrorCls | SyntaxErrorCls | DOMExceptionCls | BmltQueryErrorCls.

#[global] Instance ErrorClass_eq_dec : EqDecision ErrorClass.
Proof. solve_decision. Defined.

(** A thrown error object: [BmltError] of types/base.ts (an [Error] with an
    optional [statusCode]) together with the [type] field that
    [BmltQueryError] adds. *)
Record JsError := mkJsError {
  error_class : ErrorClass;
  error_name : string;
  error_message : string;
  error_statusCode : option Z;
  error_type : option BmltErrorType
}.

#[global] Instance JsError_eq_dec : EqDecision JsError.
Proof. solve_decision. Defined.

(** [error instanceof Error]: every class above derives from [Error]. *)
Definition instanceofError (e : JsError) : bool := true.

(** [error instanceof TypeError]. *)
Definition instanceofTypeError (e : JsError) : bool :=
  bool_decide (error_class e = TypeErrorCls).

(** [new Error(message)]. *)
Definition newError (msg : string) : JsError :=
  {| error_class := ErrorCls; error_name := "Error"; error_message := msg;
     error_statusCode := None; error_type := None |}.

(** [error.name = n]. *)
Definition set_name (n : string) (e : JsError) : JsError :=
  {| error_class := error_class e; error_name := n;
     error_message := error_message e;
     error_statusCode := error_statusCode e; error_type := error_type e |}.

(** [error.statusCode = c]. *)
Definition set_statusCode (c : Z) (e : JsError) : JsError :=
  {| error_class := error_class e; error_name := error_name e;
     error_message := error_message e;
     error_statusCode := Some c; error_type := error_type e |}.

(** [new BmltQueryError(type, message)] with the default (empty) options. *)
Definition newBmltQueryError (t : BmltErrorType) (msg : string) : JsError :=
  {| error_class := BmltQueryErrorCls; error_name := "BmltQueryError";
     error_message := msg; error_statusCode := None; error_type := Some t |}.

(** [BmltQueryError.isRetryable]. *)
Definition isRetryable (t : BmltErrorType) : bool :=
  bool_decide (t ∈ [NETWORK_ERROR; TIMEOUT_ERROR; RATE_LIMIT_ERROR; SERVER_ERROR]).

(** An error of the [GeocodingError] kind: either a plain error renamed
    ['GeocodingError'] or a [BmltQueryError] of type [GEOCODING_ERROR]. *)
Definition isGeocodingError (e : JsError) : bool :=
  bool_decide (error_name e = "GeocodingError")
  || bool_decide (error_type e = Some GEOCODING_ERROR).

(** The [DOMException] with which [fetch] and [response.json()] reject when
    their abort signal fires. *)
Definition abortError : JsError :=
  {| error_class := DOMExceptionCls; error_name := "AbortError";
     error_message := "This operation was aborted";
     error_statusCode := None; error_type := None |}.

(** ** The world: timers, network, console *)

(** A request URL: base and path, then the appended search parameters. *)
Record URL := mkURL {
  url_href : string;
  url_searchParams : list (string * string)
}.

Record Request := mkRequest {
  req_url : URL;
  req_method : string;
  req_userAgent : string
}.

(** What the network does with one HTTP request.  Latencies are in
    milliseconds, measured from the start of the request; the body of a
    response becomes available [latency] after its headers. *)
Inductive Body (T : Type) :=
| BodyJson (latency : Z) (data : T)
| BodyFailure (latency : Z) (err : JsError).
Arguments BodyJson {T}.
Arguments BodyFailure {T}.

(** The time that reading the body takes, once the headers are there. *)
Definition body_latency {T} (b : Body T) : Z :=
  match b with
  | BodyJson latency _ => latency
  | BodyFailure latency _ => latency
  end.

Inductive NetReply (T : Type) :=
| Responds (latency : Z) (status : Z) (statusText : string) (body : Body T)
| Fails (latency : Z) (err : JsError).
Arguments Responds {T}.
Arguments Fails {T}.

(** What the program does that takes time, as one sequence: a request
    that goes out, a delay that is waited out. *)
Inductive Event :=
| Sent (r : Request)
| Waited (ms : Z).

Record World := mkWorld {
  timers : gmap nat Z;           (* pending timers: id |-> delay in ms *)
  nextTimerId : nat;
  requests : list Request;       (* HTTP requests issued so far *)
  console : list (list string);  (* arguments of each console.warn call *)
  slept : list Z;                (* back-off delays waited so far *)
  events : list Event            (* requests and waits, in order *)
}.

(** ** Promises *)

Inductive Outcome (A : Type) :=
| Resolved (a : A)
| Rejected (e : JsError).
Arguments Resolved {A}.
Arguments Rejected {A}.

Definition Promise (A : Type) : Type := World → Outcome A * World.

#[global] Instance Promise_ret : MRet Promise :=
  λ A a w, (Resolved a, w).

#[global] Instance Promise_bind : MBind Promise :=
  λ A B f m w,
    match m w with
    | (Resolved a, w') => f a w'
    | (Rejected e, w') => (Rejected e, w')
    end.

Definition throw {A} (e : JsError) : Promise A := λ w, (Rejected e, w).

(** [try { body } catch (error) { handler }]. *)
Definition try_catch {A} (body : Promise A) (handler : JsError → Promise A)
  : Promise A :=
  λ w, match body w with
       | (Resolved a, w') => (Resolved a, w')
       | (Rejected e, w') => handler e w'
       end.

(** [try { body } finally { fin }], for a [fin] that cannot throw. *)
Definition try_finally {A} (body : Promise A) (fin : World → World)
  : Promise A :=
  λ w, let '(o, w') := body w in (o, fin w').

(** [promise.catch(handler)]. *)
Definition catch {A} (p : Promise A) (handler : JsError → Promise A)
  : Promise A := try_catch p handler.

Definition setTimeout (delay : Z) : Promise nat :=
  λ w, (Resolved (nextTimerId w),
        {| timers := <[nextTimerId w := delay]> (timers w);
           nextTimerId := S (nextTimerId w);
           requests := requests w; console := console w; slept := slept w;
           events := events w |}).

Definition clearTimeout (id : nat) (w : World) : World :=
  {| timers := delete id (timers w);
     nextTimerId := nextTimerId w;
     requests := requests w; console := console w; slept := slept w;
     events := events w |}.

Definition console_warn (args : list string) : Promise unit :=
  λ w, (Resolved tt,
        {| timers := timers w; nextTimerId := nextTimerId w;
           requests := requests w; console := console w ++ [args];
           slept := slept w; events := events w |}).

(** Waiting [ms] milliseconds between two attempts. *)
Definition sleep (ms : Z) : Promise unit :=
  λ w, (Resolved tt,
        {| timers := timers w; nextTimerId := nextTimerId w;
           requests := requests w; console := console w;
           slept := slept w ++ [ms]; events := events w ++ [Waited ms] |}).

(** ** fetch *)

(** The [Response] object handed back by [fetch]. *)
Record Response (T : Type) := mkResponse {
  status : Z;
  statusText : string;
  arrived : Z;          (* time at which the headers arrived *)
  body : Body T
}.
Arguments mkResponse {T}.
Arguments status {T}.
Arguments statusText {T}.
Arguments arrived {T}.
Arguments body {T}.

(** [response.ok]: the status is in the range 200-299. *)
Definition ok {T} (r : Response T) : bool :=
  (200 <=? status r) && (status r <=? 299).

(** The timer [id] goes off strictly before time [t]. *)
Definition fires_before (id : nat) (t : Z) (w : World) : bool :=
  match timers w !! id with
  | Some delay => delay <? t
  | None => false
  end.

(** A timer that went off is no longer pending. *)
Definition fire (id : nat) (w : World) : World := clearTimeout id w.

Definition record_request (r : Request) (w : World) : World :=
  {| timers := timers w; nextTimerId := nextTimerId w;
     requests := requests w ++ [r]; console := console w; slept := slept w;
     events := events w ++ [Sent r] |}.

Section Fetch.
Context {T : Type}.
(** [net n] is the fate of the [n]-th request issued (counting from 0). *)
Variable net : nat → NetReply T.

(** [fetch(url, { method: 'GET', headers: { 'User-Agent': userAgent },
    signal })], where [signal] belongs to the controller that the timer
    [signal] aborts. *)
Definition fetch (url : URL) (userAgent : string) (signal : nat)
  : Promise (Response T) :=
  λ w,
    let reply := net (length (requests w)) in
    let w1 := record_request (mkRequest url "GET" userAgent) w in
    match reply with
    | Responds latency st txt b =>
        if fires_before signal latency w1
        then (Rejected abortError, fire signal w1)
        else (Resolved (mkResponse st txt latency b), w1)
    | Fails latency err =>
        if fires_before signal latency w1
        then (Rejected abortError, fire signal w1)
        else (Rejected err, w1)
    end.

(** [response.json()]. *)
Definition json (response : Response T) (signal : nat) : Promise T :=
  λ w,
    match body response with
    | BodyJson latency data =>
        if fires_before signal (arrived response + latency) w
        then (Rejected abortError, fire signal w)
        else (Resolved data, w)
    | BodyFailure latency err =>
        if fires_before signal (arrived response + latency) w
        then (Rejected abortError, fire signal w)
        else (Rejected err, w)
    end.

Definition rateLimitError : JsError :=
  set_statusCode 429
    (set_name "RateLimitError"
       (newError "Rate limit exceeded for geocoding service")).

Definition httpError (st : Z) (txt : string) : JsError :=
  set_statusCode st
    (set_name "GeocodingError"
       (newError ("Geocoding service error: " +:+ pretty st +:+ " " +:+ txt))).

Definition timeoutError : JsError :=
  set_name "TimeoutError" (newError "Request timeout during geocoding").

Definition networkError : JsError :=
  set_name "NetworkError" (newError "Network error occurred during geocoding").

(** The [catch] block of [fetchWithTimeout]. *)
Definition classify (error : JsError) : Promise T :=
  if instanceofError error && bool_decide (error_name error = "AbortError")
  then throw timeoutError
  else if instanceofTypeError error
  then throw networkError
  else throw error.

(** [GeocodingService.fetchWithTimeout]. *)
Definition fetchWithTimeout (url : URL) (timeout : Z) (userAgent : string)
  : Promise T :=
  timeoutId ← setTimeout timeout;
  try_finally
    (try_catch
       (response ← fetch url userAgent timeoutId;
        (if negb (ok response) then
           if bool_decide (status response = 429) then throw rateLimitError
           else if 400 <=? status response
           then throw (httpError (status response) (statusText response))
           else mret tt
         else mret tt) ;;
        data ← json response timeoutId;
        mret data)
       classify)
    (clearTimeout timeoutId).
End Fetch.

(** ** Provider payloads and results *)

Record NominatimAddress := mkNominatimAddress {
  na_house_number : option string;
  na_road : option string;
  na_neighbourhood : option string;
  na_suburb : option string;
  na_city : option string;
  na_town : option string;
  na_village : option string;
  na_county : option string;
  na_state : option string;
  na_postcode : option string;
  na_country : option string;
  na_country_code : option string
}.

(** [NominatimResponse]. *)
Record NominatimResponse := mkNominatimResponse {
  place_id : float;
  licence : string;
  osm_type : string;
  osm_id : float;
  lat : string;
  lon : string;
  nr_display_name : string;
  nr_address : option NominatimAddress;
  importance : option float;
  boundingbox : list string
}.

(** [Coordinates] of types/base.ts. *)
Record Coordinates := mkCoordinates {
  latitude : float;
  longitude : float
}.

Record GeocodeAddress := mkGeocodeAddress {
  house_number : option string;
  road : option string;
  neighbourhood : option string;
  suburb : option string;
  city : option string;
  county : option string;
  state : option string;
  postcode : option string;
  country : option string
}.

(** [GeocodeResult] of types/responses.ts. *)
Record GeocodeResult := mkGeocodeResult {
  coordinates : Coordinates;
  display_name : string;
  confidence : option float;
  address : option GeocodeAddress
}.

(** [GeocodeOptions] with every default filled in (the type of
    [defaultOptions]); [viewbox] stays optional. *)
Record GeocodeOptions := mkGeocodeOptions {
  retryCount : nat;
  timeout : Z;
  userAgent : string;
  countryCode : string;
  viewbox : option (float * float * float * float);
  bounded : bool
}.

(** [Partial<GeocodeOptions>]. *)
Record PartialGeocodeOptions := mkPartialGeocodeOptions {
  p_retryCount : option nat;
  p_timeout : option Z;
  p_userAgent : option string;
  p_countryCode : option string;
  p_viewbox : option (float * float * float * float);
  p_bounded : option bool
}.

(** [RateLimitOptions], handed to the queue. *)
Record RateLimitOptions := mkRateLimitOptions {
  intervalCap : Z;
  interval : Z;
  concurrency : Z;
  carryoverConcurrencyCount : bool
}.

(** [{ ...defaults, ...options }]. *)
Definition spread (defaults : GeocodeOptions) (options : PartialGeocodeOptions)
  : GeocodeOptions :=
  {| retryCount := default (retryCount defaults) (p_retryCount options);
     timeout := default (timeout defaults) (p_timeout options);
     userAgent := default (userAgent defaults) (p_userAgent options);
     countryCode := default (countryCode defaults) (p_countryCode options);
     viewbox := match p_viewbox options with
                | Some v => Some v
                | None => viewbox defaults
                end;
     bounded := default (bounded defaults) (p_bounded options) |}.

Definition no_options : PartialGeocodeOptions :=
  mkPartialGeocodeOptions None None None None None None.

(** The state of a [GeocodingService] instance. *)
Record GeocodingService := mkGeocodingService {
  baseURL : string;
  queue : RateLimitOptions;
  defaultOptions : GeocodeOptions
}.

(** The constructor, with its destructuring defaults. *)
Definition new_GeocodingService
    (options : PartialGeocodeOptions)
    (o_intervalCap o_interval o_concurrency : option Z)
    (o_carryover : option bool) : GeocodingService :=
  {| baseURL := "https://nominatim.openstreetmap.org";
     queue := {| intervalCap := default 1 o_intervalCap;
                 interval := default 1000 o_interval;
                 concurrency := default 1 o_concurrency;
                 carryoverConcurrencyCount := default false o_carryover |};
     defaultOptions :=
       {| retryCount := default 3%nat (p_retryCount options);
          timeout := default 10000 (p_timeout options);
          userAgent := default "bmlt-query-client/1.0.0" (p_userAgent options);
          countryCode := default "us" (p_countryCode options);
          viewbox := p_viewbox options;
          bounded := default false (p_bounded options) |} |}.

(** Truthiness of a [string | undefined]: the empty string is falsy. *)
Definition truthy (s : option string) : bool :=
  match s with
  | Some s => negb (bool_decide (s = EmptyString))
  | None => false
  end.

(** [a || b] on [string | undefined]. *)
Definition or_else (a b : option string) : option string :=
  if truthy a then a else b.

(** The address object built by [geocode] and by [reverseGeocode]. *)
Definition map_address (a : NominatimAddress) : GeocodeAddress :=
  {| house_number := na_house_number a;
     road := na_road a;
     neighbourhood := na_neighbourhood a;
     suburb := na_suburb a;
     city := or_else (or_else (na_city a) (na_town a)) (na_village a);
     county := na_county a;
     state := na_state a;
     postcode := na_postcode a;
     country := na_country a |}.

(** ** Retry policy and request queue *)

(** What the [onFailedAttempt] hook receives: the error decorated with the
    attempt number and the number of retries left. *)
Record FailedAttempt := mkFailedAttempt {
  fa_error : JsError;
  attemptNumber : nat;
  retriesLeft : nat
}.

Record RetryOptions := mkRetryOptions {
  retries : nat;
  factor : Z;
  minTimeout : Z;
  maxTimeout : Z;
  onFailedAttempt : FailedAttempt → Promise unit
}.

(** Modelled from the spec: the delay of the retry policy (section 4.3),
    computed by the p-retry package, which is not part of the sources:
    [min(D_min * F^(k-1), D_max)] before retry [k]. *)
Definition backoff (o : RetryOptions) (k : nat) : Z :=
  Z.min (minTimeout o * factor o ^ (Z.of_nat k - 1)) (maxTimeout o).

(** Modelled from the spec: the attempt loop of the retry policy (section
    4.3), run by the p-retry package, which is not part of the sources:
    execute the operation; on success return at once; on failure, when the
    retries are used up raise this last failure, otherwise call the hook
    with the error and the remaining retries, wait the computed delay and
    try again. *)
Fixpoint retry_loop {A} (input : Promise A) (o : RetryOptions)
    (attempt left : nat) : Promise A :=
  try_catch input
    (λ error,
       match left with
       | O => throw error
       | S left' =>
           onFailedAttempt o (mkFailedAttempt error attempt left) ;;
           sleep (backoff o attempt) ;;
           retry_loop input o (S attempt) left'
       end).

Definition pRetry {A} (input : Promise A) (o : RetryOptions) : Promise A :=
  retry_loop input o 1 (retries o).

(** Modelled from the spec: [queue.add] of the p-queue package, which is
    not part of the sources (section 4.1): the handle resolves to the
    operation's own result or rejects with the operation's own failure; the
    queue only delays when the task starts. *)
Definition queue_add {A} (q : RateLimitOptions) (task : Promise A)
  : Promise A := task.

(** [Promise.all]: every promise runs; the result is the list of values in
    the order of the input, or the first rejection. *)
Fixpoint Promise_all {A} (ps : list (Promise A)) : Promise (list A) :=
  match ps with
  | [] => mret []
  | p :: ps' =>
      λ w, match p w with
           | (Resolved a, w1) =>
               match Promise_all ps' w1 with
               | (Resolved l, w2) => (Resolved (a :: l), w2)
               | (Rejected e, w2) => (Rejected e, w2)
               end
           | (Rejected e, w1) => (Rejected e, (Promise_all ps' w1).2)
           end
  end.

(** ** The geocoding service *)

Local Open Scope float_scope.

(** The double-quote character of the batch warning. *)
Definition dquote : string := String (ascii_of_nat 34) EmptyString.

Definition invalidCoordinatesError : JsError :=
  set_name "GeocodingError"
    (newError "Invalid coordinates received from geocoding service").

Definition outOfRangeError : JsError :=
  set_name "GeocodingError" (newError "Coordinates out of valid range").

Definition noResultsError (address : string) : JsError :=
  newBmltQueryError GEOCODING_ERROR
    ("No results found for address: " +:+ address).

Section Service.
(** The built-ins [parseFloat] and [String(number)] of the host. *)
Variable parseFloat : string → float.
Variable numberToString : float → string.

(** The provider: the fate of the [n]-th request when it is a search, and
    when it is a reverse lookup. *)
Variable search_net : nat → NetReply (option (list NominatimResponse)).
Variable reverse_net : nat → NetReply (option NominatimResponse).

Variable this : GeocodingService.

(** The search parameters, in insertion order. *)
Definition searchParams (address : string) (geocodeOptions : GeocodeOptions)
  : list (string * string) :=
  [("q", address); ("format", "json"); ("addressdetails", "1");
   ("limit", "1"); ("dedupe", "1")]
  ++ (if truthy (Some (countryCode geocodeOptions))
      then [("countrycodes", countryCode geocodeOptions)] else [])
  ++ match viewbox geocodeOptions with
     | Some (a, b, c, d) =>
         [("viewbox",
           numberToString a +:+ "," +:+ numberToString b +:+ ","
           +:+ numberToString c +:+ "," +:+ numberToString d)]
         ++ (if bounded geocodeOptions then [("bounded", "1")] else [])
     | None => []
     end.

(** The body of one attempt of [geocode] once the payload is there. *)
Definition normalizeSearch (address : string)
    (response : option (list NominatimResponse)) : Promise GeocodeResult :=
  match response with
  | None | Some [] => throw (noResultsError address)
  | Some (result :: _) =>
      let coordinates :=
        {| latitude := parseFloat (lat result);
           longitude := parseFloat (lon result) |} in
      if is_nan (latitude coordinates) || is_nan (longitude coordinates)
      then throw invalidCoordinatesError
      else if (latitude coordinates <? -90)
              || (90 <? latitude coordinates)
              || (longitude coordinates <? -180)
              || (180 <? longitude coordinates)
      then throw outOfRangeError
      else mret {| coordinates := coordinates;
                   display_name := nr_display_name result;
                   confidence := importance result;
                   address := map_address <$> nr_address result |}
  end.

(** The function that [geocode] hands to [pRetry]: one attempt. *)
Definition geocode_attempt (address : string)
    (geocodeOptions : GeocodeOptions) : Promise GeocodeResult :=
  try_catch
    (let searchUrl :=
       mkURL (baseURL this +:+ "/search")
             (searchParams address geocodeOptions) in
     response ← fetchWithTimeout search_net searchUrl
                  (timeout geocodeOptions) (userAgent geocodeOptions);
     normalizeSearch address response)
    (λ error, throw error).

Definition geocode_onFailedAttempt (error : FailedAttempt) : Promise unit :=
  console_warn
    ["Geocoding attempt " +:+ pretty (attemptNumber error)
     +:+ " failed. " +:+ pretty (retriesLeft error)
     +:+ " retries left. Error: " +:+ error_message (fa_error error)].

(** [GeocodingService.geocode]. *)
Definition geocode (address : string) (options : PartialGeocodeOptions)
  : Promise GeocodeResult :=
  let geocodeOptions := spread (defaultOptions this) options in
  queue_add (queue this)
    (pRetry (geocode_attempt address geocodeOptions)
       {| retries := retryCount geocodeOptions;
          factor := 2;
          minTimeout := 1000;
          maxTimeout := 10000;
          onFailedAttempt := geocode_onFailedAttempt |}).

(** [GeocodingService.batchGeocode]. *)
Definition batchGeocode (addresses : list string)
    (options : PartialGeocodeOptions) : Promise (list GeocodeResult) :=
  let promises :=
    map (λ address,
           catch (result ← geocode address options; mret (Some result))
             (λ error,
                console_warn
                  ["Failed to geocode address " +:+ dquote +:+ address
                   +:+ dquote +:+ ":"; error_message error] ;;
                mret None))
        addresses in
  results ← Promise_all promises;
  mret (omap (λ result, result) results).

Definition noReverseResultsError (c : Coordinates) : JsError :=
  set_name "GeocodingError"
    (newError ("No results found for coordinates: "
               +:+ numberToString (latitude c) +:+ ", "
               +:+ numberToString (longitude c))).

(** The body of one attempt of [reverseGeocode] once the payload is
    there. *)
Definition normalizeReverse (c : Coordinates)
    (response : option NominatimResponse) : Promise GeocodeResult :=
  match response with
  | None => throw (noReverseResultsError c)
  | Some result =>
      mret {| coordinates :=
                {| latitude := parseFloat (lat result);
                   longitude := parseFloat (lon result) |};
              display_name := nr_display_name result;
              confidence := importance result;
              address := map_address <$> nr_address result |}
  end.

Definition reverseGeocode_attempt (c : Coordinates)
    (geocodeOptions : GeocodeOptions) : Promise GeocodeResult :=
  try_catch
    (let reverseUrl :=
       mkURL (baseURL this +:+ "/reverse")
             [("lat", numberToString (latitude c));
              ("lon", numberToString (longitude c));
              ("format", "json"); ("addressdetails", "1")] in
     response ← fetchWithTimeout reverse_net reverseUrl
                  (timeout geocodeOptions) (userAgent geocodeOptions);
     normalizeReverse c response)
    (λ error, throw error).

(** [GeocodingService.reverseGeocode]. *)
Definition reverseGeocode (c : Coordinates) (options : PartialGeocodeOptions)
  : Promise GeocodeResult :=
  let geocodeOptions := spread (defaultOptions this) options in
  queue_add (queue this)
    (pRetry (reverseGeocode_attempt c geocodeOptions)
       {| retries := retryCount geocodeOptions;
          factor := 2;
          minTimeout := 1000;
          maxTimeout := 10000;
          onFailedAttempt := λ _, mret tt |}).
End Service.

(** ** Concrete built-ins for the examples

    The theorems below hold for every [parseFloat] and every
    [String(number)].  The closed examples need concrete ones:
    [parseDecimal] agrees with [parseFloat] on plain decimal literals (an
    optional sign, digits, an optional fraction) of at most fifteen
    significant digits, where one correctly rounded division gives the
    nearest double, and yields NaN when no digit can be read;
    [showInteger] agrees with [String] on whole numbers below 2^53. *)

Definition digit_of (c : ascii) : option Z :=
  let n := Z.of_nat (nat_of_ascii c) in
  if (48 <=? n)%Z && (n <=? 57)%Z then Some (n - 48)%Z else None.

(** Reads the leading digits of [s]: their value on top of [acc], how many
    there were, and the rest of the string. *)
Fixpoint read_digits (s : string) (acc : Z) (count : nat) : Z * nat * string :=
  match s with
  | EmptyString => (acc, count, s)
  | String c s' =>
      match digit_of c with
      | Some d => read_digits s' (10 * acc + d)%Z (S count)
      | None => (acc, count, s)
      end
  end.

Definition float_of_Z (z : Z) : float := of_uint63 (Uint63.of_Z z).

Definition parseDecimal (s : string) : float :=
  let '(negative, s1) :=
    match s with
    | String "-" s' => (true, s')
    | String "+" s' => (false, s')
    | _ => (false, s)
    end in
  let '(int_part, int_count, s2) := read_digits s1 0%Z 0%nat in
  let '(mantissa, frac_count) :=
    match s2 with
    | String "." s' =>
        let '(m, k, _) := read_digits s' int_part 0%nat in (m, k)
    | _ => (int_part, 0%nat)
    end in
  if Nat.eqb (int_count + frac_count) 0 then nan
  else
    let magnitude := float_of_Z mantissa / float_of_Z (10 ^ Z.of_nat frac_count) in
    if negative then - magnitude else magnitude.

Definition showInteger (x : float) : string :=
  match Prim2SF x with
  | S754_zero _ => "0"
  | S754_infinity s => if s then "-Infinity" else "Infinity"
  | S754_nan => "NaN"
  | S754_finite s m e =>
      let z := if (0 <=? e)%Z then (Z.pos m * 2 ^ e)%Z
               else (Z.pos m / 2 ^ (- e))%Z in
      (if s then "-" else EmptyString) +:+ pretty z
  end.

#[warnings="-inexact-float"]
Example parseDecimal_times_square :
  parseDecimal "40.7580" = 40.758 ∧ parseDecimal "-73.9855" = -73.9855
  ∧ parseDecimal "999" = 999 ∧ is_nan (parseDecimal "n/a") = true.
Proof. vm_compute. repeat split; reflexivity. Qed.

Example showInteger_examples :
  showInteger 40 = "40" ∧ showInteger (-74) = "-74" ∧ showInteger 0 = "0".
Proof. vm_compute. repeat split; reflexivity. Qed.

(** * Properties *)

Local Close Scope float_scope.

(** ** One HTTP attempt *)

Definition empty_world : World := mkWorld ∅ 0 [] [] [] [].

(** The outcome of [fetchWithTimeout] on a given reply of the network,
    read off a run in the empty world. *)
Definition transport {T} (timeout : Z) (reply : NetReply T) : Outcome T :=
  (fetchWithTimeout (λ _, reply) (mkURL EmptyString []) timeout EmptyString
     empty_world).1.

(** The world after one call of [fetchWithTimeout]: one more request, one
    more timer id used, and that timer no longer pending. *)
Definition after_request (r : Request) (w : World) : World :=
  {| timers := delete (nextTimerId w) (timers w);
     nextTimerId := S (nextTimerId w);
     requests := requests w ++ [r];
     console := console w; slept := slept w;
     events := events w ++ [Sent r] |}.

Ltac unfold_promise :=
  unfold mbind, mret, Promise_bind, Promise_ret, throw, try_catch, try_finally,
    catch.

Lemma world_eq (w1 w2 : World) :
  timers w1 = timers w2 → nextTimerId w1 = nextTimerId w2 →
  requests w1 = requests w2 → console w1 = console w2 →
  slept w1 = slept w2 → events w1 = events w2 → w1 = w2.
Proof. destruct w1, w2; simpl; intros; subst; reflexivity. Qed.

Lemma delete_fresh_timer (m : gmap nat Z) (i : nat) (d : Z) :
  delete i (<[i := d]> m) = delete i m
  ∧ delete i (delete i (<[i := d]> m)) = delete i m.
Proof.
  assert (H : delete i (<[i := d]> m) = delete i m) by apply delete_insert_eq.
  split; [exact H|]. rewrite H. apply delete_delete_eq.
Qed.

Ltac step_fetch :=
  repeat first
    [ rewrite lookup_insert_eq
    | progress simpl
    | case_bool_decide
    | match goal with
      | |- context [match ?b with BodyJson _ _ => _ | BodyFailure _ _ => _ end] =>
          destruct b
      | |- context [if ?c then _ else _] => destruct c eqn:?
      end ].

Lemma fetchWithTimeout_run {T} (net : nat → NetReply T) url timeout ua w :
  fetchWithTimeout net url timeout ua w
  = (transport timeout (net (length (requests w))),
     after_request (mkRequest url "GET" ua) w).
Proof.
  unfold transport, fetchWithTimeout, fetch, json, classify, setTimeout,
    fires_before, fire, clearTimeout, record_request, after_request.
  unfold_promise. simpl.
  destruct (delete_fresh_timer (timers w) (nextTimerId w) timeout) as [D1 D2].
  destruct (net (length (requests w))) as [latency st txt b | latency err];
    step_fetch; rewrite ?D2, ?D1; reflexivity.
Qed.

(** Reading the body of a response that arrived at [arrived], under a
    timer of [timeout] ms. *)
Definition read_body {T} (timeout arrived : Z) (b : Body T) : Outcome T :=
  match b with
  | BodyJson l data =>
      if timeout <? arrived + l then Rejected timeoutError else Resolved data
  | BodyFailure l err =>
      if timeout <? arrived + l then Rejected timeoutError
      else if bool_decide (error_name err = "AbortError")
      then Rejected timeoutError
      else if instanceofTypeError err then Rejected networkError
      else Rejected err
  end.

Lemma transport_unfold {T} (timeout : Z) (reply : NetReply T) :
  transport timeout reply =
  match reply with
  | Responds latency st txt b =>
      if timeout <? latency then Rejected timeoutError
      else if (200 <=? st) && (st <=? 299) then read_body timeout latency b
      else if bool_decide (st = 429) then Rejected rateLimitError
      else if 400 <=? st then Rejected (httpError st txt)
      else read_body timeout latency b
  | Fails latency err =>
      if timeout <? latency then Rejected timeoutError
      else if bool_decide (error_name err = "AbortError")
      then Rejected timeoutError
      else if instanceofTypeError err then Rejected networkError
      else Rejected err
  end.
Proof.
  unfold transport, fetchWithTimeout, fetch, json, classify, setTimeout,
    fires_before, fire, clearTimeout, record_request, read_body, ok.
  unfold_promise. simpl.
  destruct reply as [latency st txt b | latency err]; step_fetch;
    try reflexivity; simpl in *; congruence.
Qed.

(** What the [catch] block of the transport adapter makes of a failure,
    in words: an abort becomes a [TimeoutError], a [TypeError] becomes a
    [NetworkError], anything else is passed on as it is. *)
Inductive Caught (err : JsError) : JsError → Prop :=
| caught_abort :
    error_name err = "AbortError" →
    Caught err (mkJsError ErrorCls "TimeoutError"
                  "Request timeout during geocoding" None None)
| caught_transport_failure :
    error_name err ≠ "AbortError" → error_class err = TypeErrorCls →
    Caught err (mkJsError ErrorCls "NetworkError"
                  "Network error occurred during geocoding" None None)
| caught_unexpected :
    error_name err ≠ "AbortError" → error_class err ≠ TypeErrorCls →
    Caught err err.

(** The classification of one HTTP attempt, clause by clause: which outcome
    goes with which behaviour of the network.  The clauses cover every
    reply: the timer runs until the body has been read, the status is
    looked at when the headers arrive, and the body is read for every
    status below 400. *)
Inductive Classification {T} (timeout : Z) : NetReply T → Outcome T → Prop :=
| timed_out_waiting latency st txt b :
    timeout < latency →
    Classification timeout (Responds latency st txt b)
      (Rejected (mkJsError ErrorCls "TimeoutError"
                   "Request timeout during geocoding" None None))
| timed_out_connecting latency err :
    timeout < latency →
    Classification timeout (Fails latency err)
      (Rejected (mkJsError ErrorCls "TimeoutError"
                   "Request timeout during geocoding" None None))
| rate_limited latency txt b :
    latency ≤ timeout →
    Classification timeout (Responds latency 429 txt b)
      (Rejected (mkJsError ErrorCls "RateLimitError"
                   "Rate limit exceeded for geocoding service" (Some 429) None))
| http_error latency st txt b :
    latency ≤ timeout → 400 ≤ st → st ≠ 429 →
    Classification timeout (Responds latency st txt b)
      (Rejected (mkJsError ErrorCls "GeocodingError"
                   ("Geocoding service error: " +:+ pretty st +:+ " " +:+ txt)
                   (Some st) None))
| fetch_failure latency err e :
    latency ≤ timeout → Caught err e →
    Classification timeout (Fails latency err) (Rejected e)
| timed_out_reading latency st txt b :
    latency ≤ timeout → st < 400 → timeout < latency + body_latency b →
    Classification timeout (Responds latency st txt b)
      (Rejected (mkJsError ErrorCls "TimeoutError"
                   "Request timeout during geocoding" None None))
| body_failure latency st txt l err e :
    latency ≤ timeout → st < 400 → latency + l ≤ timeout → Caught err e →
    Classification timeout (Responds latency st txt (BodyFailure l err))
      (Rejected e)
| success latency st txt l data :
    latency ≤ timeout → st < 400 → latency + l ≤ timeout →
    Classification timeout (Responds latency st txt (BodyJson l data))
      (Resolved data).

Lemma caught_total (err : JsError) :
  Caught err
    (if bool_decide (error_name err = "AbortError") then timeoutError
     else if instanceofTypeError err then networkError
     else err).
Proof.
  unfold instanceofTypeError.
  case_bool_decide as Hn; [apply caught_abort; exact Hn|].
  case_bool_decide as Hc.
  - apply caught_transport_failure; assumption.
  - apply caught_unexpected; assumption.
Qed.

Lemma caught_sound (err e : JsError) :
  Caught err e →
  e = (if bool_decide (error_name err = "AbortError") then timeoutError
       else if instanceofTypeError err then networkError
       else err).
Proof.
  unfold instanceofTypeError. intros [Hn | Hn Hc | Hn Hc].
  - rewrite bool_decide_eq_true_2 by exact Hn. reflexivity.
  - rewrite bool_decide_eq_false_2 by exact Hn.
    rewrite bool_decide_eq_true_2 by exact Hc. reflexivity.
  - rewrite bool_decide_eq_false_2 by exact Hn.
    rewrite bool_decide_eq_false_2 by exact Hc. reflexivity.
Qed.

Lemma status_below_400 (st : Z) :
  st < 400 →
  (if (200 <=? st) && (st <=? 299) then true
   else if bool_decide (st = 429) then false
   else if 400 <=? st then false else true) = true.
Proof.
  intros H. destruct ((200 <=? st) && (st <=? 299)); [reflexivity|].
  rewrite bool_decide_eq_false_2 by lia.
  replace (400 <=? st) with false by (symmetry; apply Z.leb_gt; lia).
  reflexivity.
Qed.

(** The outcome of an attempt whose response has a status below 400. *)
Lemma transport_reads_body {T} (timeout latency st : Z) txt (b : Body T) :
  latency ≤ timeout → st < 400 →
  transport timeout (Responds latency st txt b) = read_body timeout latency b.
Proof.
  intros Hl Hst. rewrite transport_unfold.
  replace (timeout <? latency) with false by (symmetry; apply Z.ltb_ge; lia).
  pose proof (status_below_400 st Hst) as H.
  destruct ((200 <=? st) && (st <=? 299)); [reflexivity|].
  destruct (bool_decide (st = 429)); [discriminate|].
  destruct (400 <=? st); [discriminate|]. reflexivity.
Qed.

(** C3, as amended: the outcome of one HTTP attempt of [fetchWithTimeout]
    is the one
    that the classification gives, for every reply of the network, and
    no other.  A timeout that elapses before the response gives
    [TimeoutError]; else status 429 gives [RateLimitError] with status
    code 429; else a status of 400 or more gives [GeocodingError] with the
    status code and text; a failure of [fetch] gives [NetworkError] when it
    is a [TypeError] and is passed on unchanged otherwise.  For a status
    below 400, and not only in 200-299, the body is read under the same
    timer: the attempt resolves with the parsed payload when the body is
    read in time, gives [TimeoutError] when the timer goes off first, and
    a failure to read or parse the body is treated like one of [fetch]. *)
Theorem fetchWithTimeout_classification {T} (net : nat → NetReply T)
    url timeout ua w (o : Outcome T) :
  Classification timeout (net (length (requests w))) o
  ↔ (fetchWithTimeout net url timeout ua w).1 = o.
Proof.
  rewrite fetchWithTimeout_run. simpl. split.
  - intros H. inversion H; subst; clear H.
    + rewrite transport_unfold.
      replace (timeout <? latency) with true
        by (symmetry; apply Z.ltb_lt; lia).
      reflexivity.
    + rewrite transport_unfold.
      replace (timeout <? latency) with true
        by (symmetry; apply Z.ltb_lt; lia).
      reflexivity.
    + rewrite transport_unfold.
      replace (timeout <? latency) with false
        by (symmetry; apply Z.ltb_ge; lia).
      reflexivity.
    + rewrite transport_unfold.
      replace (timeout <? latency) with false
        by (symmetry; apply Z.ltb_ge; lia).
      replace (st <=? 299) with false by (symmetry; apply Z.leb_gt; lia).
      rewrite andb_false_r. rewrite bool_decide_eq_false_2 by assumption.
      replace (400 <=? st) with true by (symmetry; apply Z.leb_le; lia).
      reflexivity.
    + rewrite transport_unfold.
      replace (timeout <? latency) with false
        by (symmetry; apply Z.ltb_ge; lia).
      match goal with Hc : Caught _ _ |- _ => apply caught_sound in Hc end.
      subst e.
      destruct (bool_decide (error_name err = "AbortError")); [reflexivity|].
      destruct (instanceofTypeError err); reflexivity.
    + rewrite transport_reads_body by assumption.
      destruct b as [l data | l err]; simpl in *;
        replace (timeout <? latency + l) with true
          by (symmetry; apply Z.ltb_lt; lia);
        reflexivity.
    + rewrite transport_reads_body by assumption. simpl.
      replace (timeout <? latency + l) with false
        by (symmetry; apply Z.ltb_ge; lia).
      match goal with Hc : Caught _ _ |- _ => apply caught_sound in Hc end.
      subst e.
      destruct (bool_decide (error_name err = "AbortError")); [reflexivity|].
      destruct (instanceofTypeError err); reflexivity.
    + rewrite transport_reads_body by assumption. simpl.
      replace (timeout <? latency + l) with false
        by (symmetry; apply Z.ltb_ge; lia).
      reflexivity.
  - intros <-.
    destruct (net (length (requests w))) as [latency st txt b | latency err].
    + destruct (Z.ltb_spec timeout latency) as [Hl | Hl].
      { rewrite transport_unfold.
        replace (timeout <? latency) with true
          by (symmetry; apply Z.ltb_lt; lia).
        apply timed_out_waiting. exact Hl. }
      destruct (Z.ltb_spec st 400) as [Hst | Hst].
      * rewrite transport_reads_body by assumption.
        destruct b as [l data | l err]; simpl;
          destruct (Z.ltb_spec timeout (latency + l)) as [Hb | Hb].
        -- apply timed_out_reading; simpl; assumption.
        -- apply success; assumption.
        -- apply timed_out_reading; simpl; assumption.
        -- pose proof (caught_total err) as Hc.
           destruct (bool_decide (error_name err = "AbortError"));
             [apply body_failure; assumption|].
           destruct (instanceofTypeError err);
             apply body_failure; assumption.
      * rewrite transport_unfold.
        replace (timeout <? latency) with false
          by (symmetry; apply Z.ltb_ge; lia).
        replace (st <=? 299) with false by (symmetry; apply Z.leb_gt; lia).
        rewrite andb_false_r.
        case_bool_decide as H429.
        -- subst st. apply rate_limited. exact Hl.
        -- replace (400 <=? st) with true by (symmetry; apply Z.leb_le; lia).
           apply http_error; assumption.
    + rewrite transport_unfold.
      destruct (Z.ltb_spec timeout latency) as [Hl | Hl].
      * apply timed_out_connecting. exact Hl.
      * pose proof (caught_total err) as Hc.
        destruct (bool_decide (error_name err = "AbortError"));
          [apply fetch_failure; assumption|].
        destruct (instanceofTypeError err);
          apply fetch_failure; assumption.
Qed.

(** C7: whatever the outcome of [fetchWithTimeout], the timer it set is no
    longer pending when it returns, and no other timer was touched. *)
Theorem fetchWithTimeout_clears_timer {T} (net : nat → NetReply T)
    url timeout ua w :
  let w' := (fetchWithTimeout net url timeout ua w).2 in
  (setTimeout timeout w).1 = Resolved (nextTimerId w)
  ∧ timers w' !! nextTimerId w = None
  ∧ ∀ id, id ≠ nextTimerId w → timers w' !! id = timers w !! id.
Proof.
  rewrite fetchWithTimeout_run. simpl. split; [reflexivity|]. split.
  - apply lookup_delete_eq.
  - intros id Hid. apply lookup_delete_ne. congruence.
Qed.

(** ** The retry loop *)

Section Retry.
Context {A : Type}.
Variable input : Promise A.
Variable out : nat → Outcome A.
Variable o : RetryOptions.

(** The attempt is driven by the network alone: its outcome is decided by
    the reply to the next request, and it issues exactly one request. *)
Hypothesis input_run : ∀ w,
  (input w).1 = out (length (requests w))
  ∧ length (requests (input w).2) = S (length (requests w))
  ∧ slept (input w).2 = slept w.

(** The hook only observes. *)
Hypothesis hook_quiet : ∀ fa w,
  (onFailedAttempt o fa w).1 = Resolved tt
  ∧ requests (onFailedAttempt o fa w).2 = requests w
  ∧ slept (onFailedAttempt o fa w).2 = slept w.

Lemma retry_loop_step attempt left w :
  retry_loop input o attempt left w =
  match input w with
  | (Resolved a, w1) => (Resolved a, w1)
  | (Rejected e, w1) =>
      match left with
      | O => (Rejected e, w1)
      | S left' =>
          retry_loop input o (S attempt) left'
            ((sleep (backoff o attempt)
                (onFailedAttempt o (mkFailedAttempt e attempt left) w1).2).2)
      end
  end.
Proof.
  destruct left; simpl; unfold_promise; destruct (input w) as [[a|e] w1];
    try reflexivity.
  destruct (hook_quiet (mkFailedAttempt e attempt (S left)) w1) as [H _].
  destruct (onFailedAttempt o _ w1) as [r w2]. simpl in H. subst r.
  reflexivity.
Qed.

(** Every attempt fails: [left + 1] attempts, [left] waits, and the last
    error comes out. *)
Lemma retry_loop_all_fail left : ∀ attempt w (e : nat → JsError),
  (∀ k, (k ≤ left)%nat → out (length (requests w) + k) = Rejected (e k)) →
  ∃ w', retry_loop input o attempt left w = (Rejected (e left), w')
    ∧ length (requests w') = (length (requests w) + left + 1)%nat
    ∧ slept w' = slept w ++ map (backoff o) (seq attempt left).
Proof.
  induction left as [|left IH]; intros attempt w e He;
    rewrite retry_loop_step;
    destruct (input_run w) as (Ho & Hr & Hs);
    destruct (input w) as [r w1]; simpl in Ho, Hr, Hs;
    pose proof (He 0%nat ltac:(lia)) as H0;
    rewrite Nat.add_0_r in H0; rewrite H0 in Ho; subst r.
  - exists w1. split; [reflexivity|]. split; [lia|].
    simpl. rewrite app_nil_r. exact Hs.
  - set (fa := mkFailedAttempt (e 0%nat) attempt (S left)).
    destruct (hook_quiet fa w1) as (_ & Hq & Hqs).
    set (w2 := (sleep (backoff o attempt) (onFailedAttempt o fa w1).2).2).
    assert (Hr2 : length (requests w2) = S (length (requests w)))
      by (unfold w2, sleep; simpl; rewrite Hq; exact Hr).
    assert (Hs2 : slept w2 = slept w ++ [backoff o attempt])
      by (unfold w2, sleep; simpl; rewrite Hqs, Hs; reflexivity).
    destruct (IH (S attempt) w2 (λ k, e (S k))) as (w' & Hrun & Hl & Hsl).
    { intros k Hk. rewrite Hr2.
      replace (S (length (requests w)) + k)%nat
        with (length (requests w) + S k)%nat by lia.
      apply He. lia. }
    exists w'. split; [exact Hrun|]. split; [lia|].
    rewrite Hsl, Hs2. simpl. rewrite <- app_assoc. reflexivity.
Qed.

(** The first [k] attempts fail, whatever their errors, and the next one
    succeeds: it is reached, after [k] waits. *)
Lemma retry_loop_succeeds k : ∀ left attempt w (r : A),
  (k ≤ left)%nat →
  (∀ i, (i < k)%nat → ∃ e, out (length (requests w) + i) = Rejected e) →
  out (length (requests w) + k) = Resolved r →
  ∃ w', retry_loop input o attempt left w = (Resolved r, w')
    ∧ length (requests w') = (length (requests w) + k + 1)%nat
    ∧ slept w' = slept w ++ map (backoff o) (seq attempt k).
Proof.
  induction k as [|k IH]; intros left attempt w r Hk Hfail Hok;
    rewrite retry_loop_step;
    destruct (input_run w) as (Ho & Hr & Hs);
    destruct (input w) as [r0 w1]; simpl in Ho, Hr, Hs.
  - rewrite Nat.add_0_r in Hok. rewrite Hok in Ho. subst r0.
    exists w1. split; [reflexivity|]. split; [lia|].
    simpl. rewrite app_nil_r. exact Hs.
  - destruct (Hfail 0%nat ltac:(lia)) as [e He].
    rewrite Nat.add_0_r in He. rewrite He in Ho. subst r0.
    destruct left as [|left]; [lia|].
    set (fa := mkFailedAttempt e attempt (S left)).
    destruct (hook_quiet fa w1) as (_ & Hq & Hqs).
    set (w2 := (sleep (backoff o attempt) (onFailedAttempt o fa w1).2).2).
    assert (Hr2 : length (requests w2) = S (length (requests w)))
      by (unfold w2, sleep; simpl; rewrite Hq; exact Hr).
    assert (Hs2 : slept w2 = slept w ++ [backoff o attempt])
      by (unfold w2, sleep; simpl; rewrite Hqs, Hs; reflexivity).
    destruct (IH left (S attempt) w2 r) as (w' & Hrun & Hl & Hsl).
    { lia. }
    { intros i Hi. rewrite Hr2.
      replace (S (length (requests w)) + i)%nat
        with (length (requests w) + S i)%nat by lia.
      apply Hfail. lia. }
    { rewrite Hr2.
      replace (S (length (requests w)) + k)%nat
        with (length (requests w) + S k)%nat by lia.
      exact Hok. }
    exists w'. split; [exact Hrun|]. split; [lia|].
    rewrite Hsl, Hs2. simpl. rewrite <- app_assoc. reflexivity.
Qed.

(** A resolved call has the value of one of its attempts. *)
Lemma retry_loop_resolved left : ∀ attempt w r w',
  retry_loop input o attempt left w = (Resolved r, w') →
  ∃ k, (k ≤ left)%nat ∧ out (length (requests w) + k) = Resolved r.
Proof.
  induction left as [|left IH]; intros attempt w r w';
    rewrite retry_loop_step;
    destruct (input_run w) as (Ho & Hr & Hs);
    destruct (input w) as [[a|e] w1]; simpl in Ho, Hr, Hs; intros H.
  - exists 0%nat. rewrite Nat.add_0_r. split; [lia|]. congruence.
  - discriminate.
  - exists 0%nat. rewrite Nat.add_0_r. split; [lia|]. congruence.
  - apply IH in H. destruct H as (k & Hk & Hout).
    set (fa := mkFailedAttempt e attempt (S left)) in *.
    destruct (hook_quiet fa w1) as (_ & Hq & _).
    unfold sleep in Hout. simpl in Hout. rewrite Hq, Hr in Hout.
    exists (S k). split; [lia|].
    replace (length (requests w) + S k)%nat
      with (S (length (requests w)) + k)%nat by lia.
    exact Hout.
Qed.

(** The call depends on the world only through the number of requests
    issued so far. *)
Lemma retry_loop_requests_only left : ∀ attempt w1 w2,
  length (requests w1) = length (requests w2) →
  (retry_loop input o attempt left w1).1 = (retry_loop input o attempt left w2).1
  ∧ length (requests (retry_loop input o attempt left w1).2)
    = length (requests (retry_loop input o attempt left w2).2).
Proof.
  induction left as [|left IH]; intros attempt w1 w2 Hw;
    rewrite !retry_loop_step;
    destruct (input_run w1) as (Ho1 & Hr1 & _);
    destruct (input_run w2) as (Ho2 & Hr2 & _);
    destruct (input w1) as [r1 u1]; destruct (input w2) as [r2 u2];
    simpl in *; rewrite Hw in Ho1; rewrite <- Ho2 in Ho1; subst r1;
    destruct r2 as [a|e]; simpl; try (split; [reflexivity|lia]).
  apply IH. unfold sleep. simpl.
  destruct (hook_quiet (mkFailedAttempt e attempt (S left)) u1) as (_ & Hq1 & _).
  destruct (hook_quiet (mkFailedAttempt e attempt (S left)) u2) as (_ & Hq2 & _).
  rewrite Hq1, Hq2. lia.
Qed.
End Retry.

(** The requests and the waits of a call whose attempts all fail, in the
    order in which they happen: an attempt, then for each delay the wait
    and the attempt that follows it. *)
Fixpoint attempts_and_waits (req : Request) (delays : list Z) : list Event :=
  match delays with
  | [] => [Sent req]
  | delay :: delays' =>
      Sent req :: Waited delay :: attempts_and_waits req delays'
  end.

Section RetryTrace.
Context {A : Type}.
Variable input : Promise A.
Variable out : nat → Outcome A.
Variable o : RetryOptions.
Variable req : Request.

Hypothesis input_run : ∀ w,
  (input w).1 = out (length (requests w))
  ∧ length (requests (input w).2) = S (length (requests w))
  ∧ slept (input w).2 = slept w.

(** The attempt sends its request and does not wait. *)
Hypothesis input_sends : ∀ w, events (input w).2 = events w ++ [Sent req].

Hypothesis hook_quiet : ∀ fa w,
  (onFailedAttempt o fa w).1 = Resolved tt
  ∧ requests (onFailedAttempt o fa w).2 = requests w
  ∧ slept (onFailedAttempt o fa w).2 = slept w.

Hypothesis hook_silent : ∀ fa w,
  events (onFailedAttempt o fa w).2 = events w.

(** Every attempt fails: each wait lies between the attempt that failed
    and the next one. *)
Lemma retry_loop_trace left : ∀ attempt w (e : nat → JsError),
  (∀ k, (k ≤ left)%nat → out (length (requests w) + k) = Rejected (e k)) →
  events (retry_loop input o attempt left w).2
  = events w ++ attempts_and_waits req (map (backoff o) (seq attempt left)).
Proof.
  induction left as [|left IH]; intros attempt w e He;
    rewrite (retry_loop_step input o hook_quiet);
    destruct (input_run w) as (Ho & Hr & _);
    pose proof (input_sends w) as Hev;
    destruct (input w) as [r w1]; simpl in Ho, Hr, Hev;
    pose proof (He 0%nat ltac:(lia)) as H0;
    rewrite Nat.add_0_r in H0; rewrite H0 in Ho; subst r.
  - simpl. exact Hev.
  - set (fa := mkFailedAttempt (e 0%nat) attempt (S left)).
    destruct (hook_quiet fa w1) as (_ & Hq & _).
    pose proof (hook_silent fa w1) as Hqe.
    set (w2 := (sleep (backoff o attempt) (onFailedAttempt o fa w1).2).2).
    assert (Hr2 : length (requests w2) = S (length (requests w)))
      by (unfold w2, sleep; simpl; rewrite Hq; exact Hr).
    assert (He2 : events w2
                  = events w ++ [Sent req; Waited (backoff o attempt)]).
    { unfold w2, sleep. simpl. rewrite Hqe, Hev, <- app_assoc. reflexivity. }
    rewrite (IH (S attempt) w2 (λ k, e (S k))).
    + rewrite He2, <- app_assoc. reflexivity.
    + intros k Hk. rewrite Hr2.
      replace (S (length (requests w)) + k)%nat
        with (length (requests w) + S k)%nat by lia.
      apply He. lia.
Qed.
End RetryTrace.

(** ** One attempt of [geocode] and of [reverseGeocode] *)

Section Attempts.
Variable parseFloat : string → float.
Variable numberToString : float → string.
Variable search_net : nat → NetReply (option (list NominatimResponse)).
Variable reverse_net : nat → NetReply (option NominatimResponse).
Variable this : GeocodingService.

(** The outcome of one attempt of [geocode] on a given reply of the
    provider, read off a run in the empty world. *)
Definition search_outcome (address : string) (o : GeocodeOptions)
    (reply : NetReply (option (list NominatimResponse)))
  : Outcome GeocodeResult :=
  (geocode_attempt parseFloat numberToString (λ _, reply) this address o
     empty_world).1.

(** The same for one attempt of [reverseGeocode]. *)
Definition reverse_outcome (c : Coordinates) (o : GeocodeOptions)
    (reply : NetReply (option NominatimResponse)) : Outcome GeocodeResult :=
  (reverseGeocode_attempt parseFloat numberToString (λ _, reply) this c o
     empty_world).1.

Lemma normalizeSearch_pure address response w :
  normalizeSearch parseFloat address response w
  = ((normalizeSearch parseFloat address response empty_world).1, w).
Proof.
  unfold normalizeSearch. unfold_promise.
  destruct response as [[|result rest]|]; try reflexivity.
  simpl. repeat (match goal with
                 | |- context [if ?c then _ else _] => destruct c
                 end); reflexivity.
Qed.

Lemma normalizeReverse_pure c response w :
  normalizeReverse parseFloat numberToString c response w
  = ((normalizeReverse parseFloat numberToString c response empty_world).1, w).
Proof. destruct response; reflexivity. Qed.

Lemma search_outcome_unfold address o reply :
  search_outcome address o reply =
  match transport (timeout o) reply with
  | Resolved response =>
      (normalizeSearch parseFloat address response empty_world).1
  | Rejected e => Rejected e
  end.
Proof.
  unfold search_outcome, geocode_attempt. unfold_promise.
  rewrite fetchWithTimeout_run. simpl.
  destruct (transport (timeout o) reply) as [response|e]; [|reflexivity].
  rewrite normalizeSearch_pure. simpl.
  destruct (normalizeSearch _ _ _ _).1; reflexivity.
Qed.

Lemma reverse_outcome_unfold c o reply :
  reverse_outcome c o reply =
  match transport (timeout o) reply with
  | Resolved response =>
      (normalizeReverse parseFloat numberToString c response empty_world).1
  | Rejected e => Rejected e
  end.
Proof.
  unfold reverse_outcome, reverseGeocode_attempt. unfold_promise.
  rewrite fetchWithTimeout_run. simpl.
  destruct (transport (timeout o) reply) as [response|e]; [|reflexivity].
  rewrite normalizeReverse_pure. simpl.
  destruct (normalizeReverse _ _ _ _ _).1; reflexivity.
Qed.

Definition search_request (address : string) (o : GeocodeOptions) : Request :=
  mkRequest (mkURL (baseURL this +:+ "/search")
               (searchParams numberToString address o))
    "GET" (userAgent o).

Definition reverse_request (c : Coordinates) (o : GeocodeOptions) : Request :=
  mkRequest (mkURL (baseURL this +:+ "/reverse")
               [("lat", numberToString (latitude c));
                ("lon", numberToString (longitude c));
                ("format", "json"); ("addressdetails", "1")])
    "GET" (userAgent o).

(** One attempt issues one request, and its outcome is decided by the
    reply to that request. *)
Lemma geocode_attempt_run address o w :
  geocode_attempt parseFloat numberToString search_net this address o w
  = (search_outcome address o (search_net (length (requests w))),
     after_request (search_request address o) w).
Proof.
  rewrite search_outcome_unfold.
  unfold geocode_attempt. unfold_promise.
  rewrite fetchWithTimeout_run.
  destruct (transport _ _) as [response|e]; [|reflexivity].
  rewrite normalizeSearch_pure.
  destruct (normalizeSearch _ _ _ _).1; reflexivity.
Qed.

Lemma reverseGeocode_attempt_run c o w :
  reverseGeocode_attempt parseFloat numberToString reverse_net this c o w
  = (reverse_outcome c o (reverse_net (length (requests w))),
     after_request (reverse_request c o) w).
Proof.
  rewrite reverse_outcome_unfold.
  unfold reverseGeocode_attempt. unfold_promise.
  rewrite fetchWithTimeout_run.
  destruct (transport _ _) as [response|e]; [|reflexivity].
  rewrite normalizeReverse_pure.
  destruct (normalizeReverse _ _ _ _ _).1; reflexivity.
Qed.

Definition geocode_retry (o : GeocodeOptions) : RetryOptions :=
  {| retries := retryCount o; factor := 2; minTimeout := 1000;
     maxTimeout := 10000; onFailedAttempt := geocode_onFailedAttempt |}.

Definition reverse_retry (o : GeocodeOptions) : RetryOptions :=
  {| retries := retryCount o; factor := 2; minTimeout := 1000;
     maxTimeout := 10000; onFailedAttempt := λ _, mret tt |}.

Lemma geocode_unfold address options :
  geocode parseFloat numberToString search_net this address options
  = retry_loop
      (geocode_attempt parseFloat numberToString search_net this address
         (spread (defaultOptions this) options))
      (geocode_retry (spread (defaultOptions this) options))
      1 (retryCount (spread (defaultOptions this) options)).
Proof. reflexivity. Qed.

Lemma reverseGeocode_unfold c options :
  reverseGeocode parseFloat numberToString reverse_net this c options
  = retry_loop
      (reverseGeocode_attempt parseFloat numberToString reverse_net this c
         (spread (defaultOptions this) options))
      (reverse_retry (spread (defaultOptions this) options))
      1 (retryCount (spread (defaultOptions this) options)).
Proof. reflexivity. Qed.

Lemma geocode_attempt_driven address o w :
  let input := geocode_attempt parseFloat numberToString search_net this
                 address o in
  (input w).1 = search_outcome address o (search_net (length (requests w)))
  ∧ length (requests (input w).2) = S (length (requests w))
  ∧ slept (input w).2 = slept w.
Proof.
  simpl. rewrite geocode_attempt_run. simpl.
  rewrite length_app. simpl. repeat split. lia.
Qed.

Lemma reverseGeocode_attempt_driven c o w :
  let input := reverseGeocode_attempt parseFloat numberToString reverse_net
                 this c o in
  (input w).1 = reverse_outcome c o (reverse_net (length (requests w)))
  ∧ length (requests (input w).2) = S (length (requests w))
  ∧ slept (input w).2 = slept w.
Proof.
  simpl. rewrite reverseGeocode_attempt_run. simpl.
  rewrite length_app. simpl. repeat split. lia.
Qed.

Lemma geocode_hook_quiet o fa w :
  (onFailedAttempt (geocode_retry o) fa w).1 = Resolved tt
  ∧ requests (onFailedAttempt (geocode_retry o) fa w).2 = requests w
  ∧ slept (onFailedAttempt (geocode_retry o) fa w).2 = slept w.
Proof. repeat split. Qed.

Lemma reverse_hook_quiet o fa w :
  (onFailedAttempt (reverse_retry o) fa w).1 = Resolved tt
  ∧ requests (onFailedAttempt (reverse_retry o) fa w).2 = requests w
  ∧ slept (onFailedAttempt (reverse_retry o) fa w).2 = slept w.
Proof. repeat split. Qed.

Lemma geocode_attempt_sends address o w :
  events
    (geocode_attempt parseFloat numberToString search_net this address o w).2
  = events w ++ [Sent (search_request address o)].
Proof. rewrite geocode_attempt_run. reflexivity. Qed.

Lemma geocode_hook_silent o fa w :
  events (onFailedAttempt (geocode_retry o) fa w).2 = events w.
Proof. reflexivity. Qed.

(** C2: with [R] retries configured, a [geocode] call all of whose
    attempts fail makes exactly [R + 1] attempts, waits
    [min(1000 * 2^(k-1), 10000)] ms before retry [k] for [k = 1..R], and
    rejects with the error of attempt [R + 1].  The last part gives the
    order: the requests and the waits alternate, starting and ending with
    a request, so that wait [k] comes after attempt [k] has failed and
    before retry [k] is sent. *)
Theorem geocode_exhausts_retries address options w (e : nat → JsError) :
  let o := spread (defaultOptions this) options in
  let R := retryCount o in
  let delay (k : nat) := Z.min (1000 * 2 ^ (Z.of_nat k - 1)) 10000 in
  (∀ k, (k ≤ R)%nat →
     search_outcome address o (search_net (length (requests w) + k))
     = Rejected (e k)) →
  ∃ w', geocode parseFloat numberToString search_net this address options w
        = (Rejected (e R), w')
    ∧ length (requests w') = (length (requests w) + (R + 1))%nat
    ∧ slept w' = slept w ++ map delay (seq 1 R)
    ∧ events w'
      = events w
        ++ attempts_and_waits (search_request address o) (map delay (seq 1 R)).
Proof.
  intros o R delay He. rewrite geocode_unfold. fold o. fold R.
  destruct (retry_loop_all_fail _
              (λ n, search_outcome address o (search_net n))
              (geocode_retry o)
              (geocode_attempt_driven address o) (geocode_hook_quiet o)
              R 1%nat w e He) as (w' & Hrun & Hl & Hs).
  pose proof (retry_loop_trace _
                (λ n, search_outcome address o (search_net n))
                (geocode_retry o) (search_request address o)
                (geocode_attempt_driven address o)
                (geocode_attempt_sends address o)
                (geocode_hook_quiet o) (geocode_hook_silent o)
                R 1%nat w e He) as Hev.
  rewrite Hrun in Hev. simpl in Hev.
  exists w'. split; [exact Hrun|]. split; [lia|]. split; [exact Hs|].
  exact Hev.
Qed.

(** C6: the retry loop of [geocode] and of [reverseGeocode] retries after
    every failure while retries are left, whatever the error is: when
    the first [k <= R] attempts fail, with any errors at all, and the next
    attempt succeeds, the call resolves with that attempt's result after
    [k + 1] attempts.  No condition on the errors, such as [isRetryable],
    enters. *)
Theorem retries_whatever_the_error address c options w (k : nat)
    (r : GeocodeResult) :
  let o := spread (defaultOptions this) options in
  let n := length (requests w) in
  (k ≤ retryCount o)%nat →
  ((∀ i, (i < k)%nat →
      ∃ e, search_outcome address o (search_net (n + i)) = Rejected e) →
   search_outcome address o (search_net (n + k)) = Resolved r →
   ∃ w', geocode parseFloat numberToString search_net this address options w
         = (Resolved r, w')
     ∧ length (requests w') = (n + k + 1)%nat)
  ∧ ((∀ i, (i < k)%nat →
        ∃ e, reverse_outcome c o (reverse_net (n + i)) = Rejected e) →
     reverse_outcome c o (reverse_net (n + k)) = Resolved r →
     ∃ w', reverseGeocode parseFloat numberToString reverse_net this c
             options w
           = (Resolved r, w')
       ∧ length (requests w') = (n + k + 1)%nat).
Proof.
  intros o n Hk. split; intros Hfail Hok.
  - rewrite geocode_unfold. fold o.
    destruct (retry_loop_succeeds _
                (λ n, search_outcome address o (search_net n))
                (geocode_retry o)
                (geocode_attempt_driven address o) (geocode_hook_quiet o)
                k (retryCount o) 1%nat w r Hk Hfail Hok)
      as (w' & Hrun & Hl & _).
    exists w'. split; [exact Hrun | exact Hl].
  - rewrite reverseGeocode_unfold. fold o.
    destruct (retry_loop_succeeds _
                (λ n, reverse_outcome c o (reverse_net n))
                (reverse_retry o)
                (reverseGeocode_attempt_driven c o) (reverse_hook_quiet o)
                k (retryCount o) 1%nat w r Hk Hfail Hok)
      as (w' & Hrun & Hl & _).
    exists w'. split; [exact Hrun | exact Hl].
Qed.

(** C4: a [geocode] call whose payload is empty or absent at every
    attempt rejects with the [GeocodingError] whose message is
    ["No results found for address: "] followed by the address; a
    [reverseGeocode] call whose payload is absent at every attempt
    rejects with a [GeocodingError]. *)
Theorem no_results_rejected address c options w :
  let o := spread (defaultOptions this) options in
  let n := length (requests w) in
  ((∀ k, (k ≤ retryCount o)%nat →
      transport (timeout o) (search_net (n + k)) = Resolved None
      ∨ transport (timeout o) (search_net (n + k)) = Resolved (Some [])) →
   ∃ e w', geocode parseFloat numberToString search_net this address
             options w
           = (Rejected e, w')
     ∧ isGeocodingError e = true
     ∧ error_message e = "No results found for address: " +:+ address)
  ∧ ((∀ k, (k ≤ retryCount o)%nat →
        transport (timeout o) (reverse_net (n + k)) = Resolved None) →
     ∃ e w', reverseGeocode parseFloat numberToString reverse_net this c
               options w
             = (Rejected e, w')
       ∧ isGeocodingError e = true).
Proof.
  intros o n. split; intros Hempty.
  - rewrite geocode_unfold. fold o.
    destruct (retry_loop_all_fail _
                (λ n, search_outcome address o (search_net n))
                (geocode_retry o)
                (geocode_attempt_driven address o) (geocode_hook_quiet o)
                (retryCount o) 1%nat w (λ _, noResultsError address))
      as (w' & Hrun & _).
    { intros k Hk. specialize (Hempty k Hk). unfold n in Hempty.
      cbv beta. rewrite search_outcome_unfold.
      destruct Hempty as [H | H]; rewrite H; reflexivity. }
    exists (noResultsError address), w'. split; [exact Hrun|].
    split; reflexivity.
  - rewrite reverseGeocode_unfold. fold o.
    destruct (retry_loop_all_fail _
                (λ n, reverse_outcome c o (reverse_net n))
                (reverse_retry o)
                (reverseGeocode_attempt_driven c o) (reverse_hook_quiet o)
                (retryCount o) 1%nat w
                (λ _, noReverseResultsError numberToString c))
      as (w' & Hrun & _).
    { intros k Hk. specialize (Hempty k Hk). unfold n in Hempty.
      cbv beta. rewrite reverse_outcome_unfold, Hempty. reflexivity. }
    exists (noReverseResultsError numberToString c), w'.
    split; [exact Hrun | reflexivity].
Qed.
End Attempts.

(** ** Ordering of binary64 numbers *)

Lemma SFcompare_antisym (x y : spec_float) :
  SFcompare y x = option_map CompOpp (SFcompare x y).
Proof.
  destruct x as [sx|sx| |sx mx ex], y as [sy|sy| |sy my ey];
    try destruct sx; try destruct sy; simpl; try reflexivity;
    rewrite (Z.compare_antisym ex ey); destruct (ex ?= ey)%Z; simpl;
    try reflexivity;
    assert (H : PosDef.Pos.compare_cont Eq my mx
                = CompOpp (PosDef.Pos.compare_cont Eq mx my))
      by exact (eq_sym (Pos.compare_cont_antisym mx my Eq));
    rewrite H; destruct (PosDef.Pos.compare_cont Eq mx my); reflexivity.
Qed.

Lemma SFcompare_None (x y : spec_float) :
  SFcompare x y = None → x = S754_nan ∨ y = S754_nan.
Proof.
  destruct x as [sx|sx| |sx mx ex], y as [sy|sy| |sy my ey]; simpl;
    try discriminate; auto.
Qed.

Lemma is_nan_false (x : float) : is_nan x = false → Prim2SF x ≠ S754_nan.
Proof.
  unfold is_nan. rewrite FloatAxioms.eqb_spec. intros H E. rewrite E in H.
  discriminate.
Qed.

(** For numbers that are not NaN, [x < y] being false gives [y <= x]. *)
Lemma not_ltb_leb (x y : float) :
  is_nan x = false → is_nan y = false →
  (x <? y)%float = false → (y <=? x)%float = true.
Proof.
  intros Hx Hy. apply is_nan_false in Hx. apply is_nan_false in Hy.
  rewrite FloatAxioms.ltb_spec, FloatAxioms.leb_spec. unfold SFltb, SFleb.
  rewrite (SFcompare_antisym (Prim2SF x) (Prim2SF y)).
  destruct (SFcompare (Prim2SF x) (Prim2SF y)) as [[]|] eqn:E; simpl;
    try reflexivity; try discriminate.
  intros _. apply SFcompare_None in E. tauto.
Qed.

(** Coordinates in range and not NaN. *)
Definition valid_coordinates (c : Coordinates) : Prop :=
  is_nan (latitude c) = false ∧ is_nan (longitude c) = false
  ∧ (-90 <=? latitude c)%float = true ∧ (latitude c <=? 90)%float = true
  ∧ (-180 <=? longitude c)%float = true ∧ (longitude c <=? 180)%float = true.

(** ** Results of [geocode] *)

Section Results.
Variable parseFloat : string → float.
Variable numberToString : float → string.
Variable search_net : nat → NetReply (option (list NominatimResponse)).
Variable this : GeocodingService.

(** The result that [geocode] builds from one element of the payload. *)
Definition result_of (result : NominatimResponse) : GeocodeResult :=
  {| coordinates := {| latitude := parseFloat (lat result);
                       longitude := parseFloat (lon result) |};
     display_name := nr_display_name result;
     confidence := importance result;
     address := map_address <$> nr_address result |}.

(** A resolved attempt was given a non-empty payload, built its result
    from element 0, and checked the coordinates. *)
Lemma normalizeSearch_resolved address response w r :
  (normalizeSearch parseFloat address response w).1 = Resolved r →
  ∃ result rest, response = Some (result :: rest)
    ∧ r = result_of result ∧ valid_coordinates (coordinates r).
Proof.
  unfold normalizeSearch. unfold_promise.
  destruct response as [[|result rest]|]; simpl; try discriminate.
  destruct (is_nan (parseFloat (lat result))) eqn:Hn1; simpl;
    [discriminate|].
  destruct (is_nan (parseFloat (lon result))) eqn:Hn2; simpl;
    [discriminate|].
  destruct (parseFloat (lat result) <? -90)%float eqn:H1; simpl;
    [discriminate|].
  destruct (90 <? parseFloat (lat result))%float eqn:H2; simpl;
    [discriminate|].
  destruct (parseFloat (lon result) <? -180)%float eqn:H3; simpl;
    [discriminate|].
  destruct (180 <? parseFloat (lon result))%float eqn:H4; simpl;
    [discriminate|].
  intros [= <-]. exists result, rest. split; [reflexivity|].
  split; [reflexivity|]. unfold valid_coordinates. simpl.
  repeat split; try assumption; apply not_ltb_leb; auto.
Qed.

Lemma search_outcome_resolved address o reply r :
  search_outcome parseFloat numberToString this address o reply = Resolved r →
  ∃ result rest,
    transport (timeout o) reply = Resolved (Some (result :: rest))
    ∧ r = result_of result ∧ valid_coordinates (coordinates r).
Proof.
  rewrite search_outcome_unfold.
  destruct (transport (timeout o) reply) as [response|e]; [|discriminate].
  intros H. apply normalizeSearch_resolved in H.
  destruct H as (result & rest & -> & Hr & Hv). eauto.
Qed.

(** A resolved [geocode] call took its result from element 0 of the
    payload of one of its attempts, and its coordinates are valid. *)
Lemma geocode_resolved address options w r w' :
  geocode parseFloat numberToString search_net this address options w
  = (Resolved r, w') →
  ∃ k result rest,
    (k ≤ retryCount (spread (defaultOptions this) options))%nat
    ∧ transport (timeout (spread (defaultOptions this) options))
        (search_net (length (requests w) + k))
      = Resolved (Some (result :: rest))
    ∧ r = result_of result ∧ valid_coordinates (coordinates r).
Proof.
  rewrite geocode_unfold. intros H.
  apply (retry_loop_resolved _
           (λ n, search_outcome parseFloat numberToString this address
                   (spread (defaultOptions this) options) (search_net n))
           (geocode_retry (spread (defaultOptions this) options))
           (geocode_attempt_driven parseFloat numberToString search_net
              this address _)
           (geocode_hook_quiet _)) in H.
  destruct H as (k & Hk & Hout).
  apply search_outcome_resolved in Hout.
  destruct Hout as (result & rest & Ht & Hr & Hv).
  exists k, result, rest. auto.
Qed.

(** The part of the coordinate invariant that the code keeps: what
    [geocode] returns has valid coordinates. *)
Lemma geocode_coordinates_valid address options w r w' :
  geocode parseFloat numberToString search_net this address options w
  = (Resolved r, w') →
  valid_coordinates (coordinates r).
Proof.
  intros H. apply geocode_resolved in H.
  destruct H as (k & result & rest & _ & _ & _ & Hv). exact Hv.
Qed.

(** Invalid coordinates in element 0 make the attempt fail with a
    [GeocodingError]. *)
Lemma normalizeSearch_invalid address result rest w :
  ¬ valid_coordinates (coordinates (result_of result)) →
  ∃ e, normalizeSearch parseFloat address (Some (result :: rest)) w
       = (Rejected e, w)
    ∧ isGeocodingError e = true.
Proof.
  intros Hbad.
  destruct (normalizeSearch parseFloat address (Some (result :: rest)) w)
    as [[r|e] w1] eqn:E.
  - exfalso. apply Hbad.
    assert (H : (normalizeSearch parseFloat address (Some (result :: rest)) w).1
                = Resolved r) by (rewrite E; reflexivity).
    apply normalizeSearch_resolved in H.
    destruct H as (result' & rest' & [= <- <-] & -> & Hv). exact Hv.
  - rewrite normalizeSearch_pure in E. injection E as E1 E2. subst w1.
    exists e. split; [reflexivity|].
    revert E1. unfold normalizeSearch. unfold_promise. simpl.
    repeat (match goal with
            | |- context [if ?c then _ else _] => destruct c
            end); simpl; intros [= <-]; reflexivity.
Qed.
End Results.

(** ** Batches *)

(** Runs every promise of a list in turn and collects the outcomes, like
    [Promise.allSettled]. *)
Fixpoint settle_all {A} (ps : list (Promise A)) (w : World)
  : list (Outcome A) * World :=
  match ps with
  | [] => ([], w)
  | p :: ps' =>
      let '(o, w1) := p w in
      let '(os, w2) := settle_all ps' w1 in
      (o :: os, w2)
  end.

Definition resolved_value {A} (o : Outcome A) : option A :=
  match o with
  | Resolved a => Some a
  | Rejected _ => None
  end.

(** The warning that [batchGeocode] prints for a failed address. *)
Definition batch_warning (address : string) (e : JsError) : list string :=
  ["Failed to geocode address " +:+ dquote +:+ address +:+ dquote +:+ ":";
   error_message e].

Lemma omap_resolved_value {A} (os : list (Outcome A)) :
  omap (λ result : option A, result) (map resolved_value os)
  = omap resolved_value os.
Proof.
  induction os as [|[r|e] os IH]; [reflexivity| |].
  - change (r :: omap (λ result : option A, result) (map resolved_value os)
            = r :: omap resolved_value os).
    rewrite IH. reflexivity.
  - exact IH.
Qed.

Lemma settle_all_length {A} (ps : list (Promise A)) : ∀ w,
  length (settle_all ps w).1 = length ps.
Proof.
  induction ps as [|p ps IH]; intros w; simpl; [reflexivity|].
  destruct (p w) as [o w1]. specialize (IH w1).
  destruct (settle_all ps w1). simpl in *. lia.
Qed.

(** Dropping the [None]s of a list reorders nothing: element [j] of what
    is left comes from position [position j] of the list, the positions
    increase with [j], and every element that is kept is found there. *)
Lemma omap_positions {A B} (f : A → option B) (l : list A) :
  ∃ position : nat → nat,
    (∀ j1 j2, (j1 < j2)%nat → (position j1 < position j2)%nat)
    ∧ (∀ j b, omap f l !! j = Some b →
         ∃ a, l !! position j = Some a ∧ f a = Some b)
    ∧ (∀ i a b, l !! i = Some a → f a = Some b →
         ∃ j, position j = i ∧ omap f l !! j = Some b).
Proof.
  induction l as [|a l (g & Hinc & Hfrom & Hall)].
  - exists (λ j, j). split; [auto|]. split.
    + intros j b H. simpl in H. rewrite lookup_nil in H. discriminate.
    + intros i a b H. rewrite lookup_nil in H. discriminate.
  - simpl. destruct (f a) as [b0|] eqn:Hfa.
    + exists (λ j, match j with O => O | S j' => S (g j') end).
      split; [|split].
      * intros [|j1] [|j2] Hlt; try lia.
        specialize (Hinc j1 j2 ltac:(lia)). lia.
      * intros [|j] b H; simpl in H.
        -- injection H as <-. exists a. split; [reflexivity|exact Hfa].
        -- destruct (Hfrom j b H) as (a' & Ha' & Hf'). exists a'. auto.
      * intros [|i] a' b Ha' Hf'; simpl in Ha'.
        -- injection Ha' as <-. exists 0%nat. split; [reflexivity|].
           simpl. congruence.
        -- destruct (Hall i a' b Ha' Hf') as (j & Hj & Hb).
           exists (S j). split; [congruence|exact Hb].
    + exists (λ j, S (g j)). split; [|split].
      * intros j1 j2 Hlt. specialize (Hinc j1 j2 Hlt). lia.
      * intros j b H. destruct (Hfrom j b H) as (a' & Ha' & Hf').
        exists a'. auto.
      * intros [|i] a' b Ha' Hf'; simpl in Ha'.
        -- injection Ha' as <-. congruence.
        -- destruct (Hall i a' b Ha' Hf') as (j & Hj & Hb).
           exists j. split; [congruence|exact Hb].
Qed.

Section RetryConsole.
Context {A : Type}.
Variable input : Promise A.
Variable o : RetryOptions.
Hypothesis input_console : ∀ w, console (input w).2 = console w.
Hypothesis hook_console : ∀ fa w x,
  x ∈ console w → x ∈ console (onFailedAttempt o fa w).2.

(** A call never removes a line from the console. *)
Lemma retry_loop_console left : ∀ attempt w x,
  x ∈ console w → x ∈ console (retry_loop input o attempt left w).2.
Proof.
  induction left as [|left IH]; intros attempt w x Hx; simpl;
    unfold_promise; pose proof (input_console w) as Hc;
    destruct (input w) as [[a|e] w1]; simpl in *; try (rewrite Hc; exact Hx).
  pose proof (hook_console (mkFailedAttempt e attempt (S left)) w1 x) as Hh.
  destruct (onFailedAttempt o _ w1) as [[[]|e'] w2]; simpl in *.
  - apply IH. simpl. apply Hh. rewrite Hc. exact Hx.
  - apply Hh. rewrite Hc. exact Hx.
Qed.
End RetryConsole.

Section Batch.
Variable parseFloat : string → float.
Variable numberToString : float → string.
Variable search_net : nat → NetReply (option (list NominatimResponse)).
Variable this : GeocodingService.
Variable options : PartialGeocodeOptions.

Let geocode1 (address : string) : Promise GeocodeResult :=
  geocode parseFloat numberToString search_net this address options.

(** The promise that [batchGeocode] builds for one address. *)
Let guarded (address : string) : Promise (option GeocodeResult) :=
  catch (result ← geocode1 address; mret (Some result))
    (λ error, console_warn (batch_warning address error) ;; mret None).

Lemma geocode_requests_only address w1 w2 :
  length (requests w1) = length (requests w2) →
  (geocode1 address w1).1 = (geocode1 address w2).1
  ∧ length (requests (geocode1 address w1).2)
    = length (requests (geocode1 address w2).2).
Proof.
  unfold geocode1. rewrite geocode_unfold.
  apply (retry_loop_requests_only _
           (λ n, search_outcome parseFloat numberToString this address
                   (spread (defaultOptions this) options) (search_net n))
           (geocode_retry (spread (defaultOptions this) options))
           (geocode_attempt_driven parseFloat numberToString search_net
              this address _)
           (geocode_hook_quiet _)).
Qed.

Lemma geocode_console address w x :
  x ∈ console w → x ∈ console (geocode1 address w).2.
Proof.
  unfold geocode1. rewrite geocode_unfold.
  apply retry_loop_console.
  - intros w0. rewrite geocode_attempt_run. reflexivity.
  - intros fa w0 y Hy. simpl. apply elem_of_app. left. exact Hy.
Qed.

Lemma guarded_run address w :
  guarded address w =
  match geocode1 address w with
  | (Resolved r, w1) => (Resolved (Some r), w1)
  | (Rejected e, w1) =>
      (Resolved None,
       {| timers := timers w1; nextTimerId := nextTimerId w1;
          requests := requests w1;
          console := console w1 ++ [batch_warning address e];
          slept := slept w1; events := events w1 |})
  end.
Proof.
  unfold guarded.
  unfold catch, try_catch, mbind, mret, Promise_bind, Promise_ret,
    console_warn.
  cbv beta. destruct (geocode1 address w) as [[r|e] w1]; reflexivity.
Qed.

Lemma batchGeocode_unfold addresses :
  batchGeocode parseFloat numberToString search_net this addresses options
  = (results ← Promise_all (map guarded addresses);
     mret (omap (λ result, result) results)).
Proof. reflexivity. Qed.

Lemma Promise_all_guarded addresses : ∀ w1 w2,
  length (requests w1) = length (requests w2) →
  ∃ w', Promise_all (map guarded addresses) w1
        = (Resolved (map resolved_value
                       (settle_all (map geocode1 addresses) w2).1), w')
    ∧ (∀ x, x ∈ console w1 → x ∈ console w')
    ∧ (∀ i a e, addresses !! i = Some a →
         (settle_all (map geocode1 addresses) w2).1 !! i = Some (Rejected e) →
         batch_warning a e ∈ console w').
Proof.
  induction addresses as [|a rest IH]; intros w1 w2 Hw; simpl.
  - exists w1. split; [reflexivity|]. split; [auto|].
    intros i a e H. rewrite lookup_nil in H. discriminate.
  - rewrite guarded_run.
    destruct (geocode_requests_only a w1 w2 Hw) as [Ho Hr].
    pose proof (geocode_console a w1) as Hc.
    destruct (geocode1 a w1) as [o1 u1].
    destruct (geocode1 a w2) as [o2 u2]. simpl in Ho, Hr, Hc. subst o2.
    destruct o1 as [r|e].
    + destruct (IH u1 u2 Hr) as (w' & Hrun & Hmono & Hwarn).
      destruct (settle_all (map geocode1 rest) u2) as [os u3]. simpl in *.
      rewrite Hrun. exists w'. split; [reflexivity|]. split; [auto|].
      intros [|i] a' e' Ha Hi; simpl in *; [discriminate|]. eauto.
    + set (u1' := {| timers := timers u1; nextTimerId := nextTimerId u1;
                     requests := requests u1;
                     console := console u1 ++ [batch_warning a e];
                     slept := slept u1; events := events u1 |}).
      destruct (IH u1' u2 Hr) as (w' & Hrun & Hmono & Hwarn).
      destruct (settle_all (map geocode1 rest) u2) as [os u3]. simpl in *.
      rewrite Hrun. exists w'. split; [reflexivity|]. split.
      * intros x Hx. apply Hmono. simpl. apply elem_of_app. left. auto.
      * intros [|i] a' e' Ha Hi; simpl in *.
        -- injection Ha as <-. injection Hi as <-.
           apply Hmono. simpl. apply elem_of_app. right.
           apply list_elem_of_singleton. reflexivity.
        -- eauto.
Qed.

Lemma batchGeocode_run addresses w :
  ∃ w', batchGeocode parseFloat numberToString search_net this addresses
          options w
        = (Resolved
             (omap resolved_value
                (settle_all
                   (map (λ address,
                           geocode parseFloat numberToString search_net this
                             address options)
                      addresses) w).1), w').
Proof.
  rewrite batchGeocode_unfold. unfold_promise.
  destruct (Promise_all_guarded addresses w w eq_refl) as (w' & Hrun & _).
  rewrite Hrun. exists w'. rewrite omap_resolved_value. reflexivity.
Qed.

(** C5: [batchGeocode] always resolves; its result is exactly the results
    of the addresses whose [geocode] resolved, and a warning is printed
    for each address whose [geocode] rejected. *)
Theorem batchGeocode_absorbs_failures addresses w :
  let outcomes :=
    (settle_all
       (map (λ address,
               geocode parseFloat numberToString search_net this address
                 options)
            addresses) w).1 in
  ∃ w', batchGeocode parseFloat numberToString search_net this addresses
          options w
        = (Resolved (omap resolved_value outcomes), w')
    ∧ ∀ i address e,
        addresses !! i = Some address →
        outcomes !! i = Some (Rejected e) →
        batch_warning address e ∈ console w'.
Proof.
  intros outcomes. rewrite batchGeocode_unfold. unfold_promise.
  destruct (Promise_all_guarded addresses w w eq_refl)
    as (w' & Hrun & _ & Hwarn).
  rewrite Hrun. exists w'. split; [|exact Hwarn].
  rewrite omap_resolved_value. reflexivity.
Qed.

(** C10: the results of [batchGeocode] are the values of the calls that
    resolved, in the order of their addresses, with nothing else removed
    and nothing reordered.  Outcome [i] is that of the call for address
    [i]; result [j] is the value of outcome [position j], where [position]
    increases with [j]; and every outcome that resolved is the position of
    a result. *)
Theorem batchGeocode_keeps_order addresses w :
  let outcomes :=
    (settle_all
       (map (λ address,
               geocode parseFloat numberToString search_net this address
                 options)
            addresses) w).1 in
  ∃ results w' (position : nat → nat),
    batchGeocode parseFloat numberToString search_net this addresses
      options w
    = (Resolved results, w')
    ∧ results = omap resolved_value outcomes
    ∧ length outcomes = length addresses
    ∧ (∀ j1 j2, (j1 < j2)%nat → (position j1 < position j2)%nat)
    ∧ (∀ j r, results !! j = Some r →
         outcomes !! position j = Some (Resolved r))
    ∧ (∀ i r, outcomes !! i = Some (Resolved r) →
         ∃ j, position j = i ∧ results !! j = Some r).
Proof.
  intros outcomes. rewrite batchGeocode_unfold. unfold_promise.
  destruct (Promise_all_guarded addresses w w eq_refl)
    as (w' & Hrun & _ & _).
  rewrite Hrun. fold geocode1. fold outcomes.
  rewrite omap_resolved_value.
  destruct (omap_positions resolved_value outcomes)
    as (position & Hinc & Hfrom & Hall).
  exists (omap resolved_value outcomes), w', position.
  split; [reflexivity|]. split; [reflexivity|]. split.
  { unfold outcomes. rewrite settle_all_length. apply length_map. }
  split; [exact Hinc|]. split.
  - intros j r Hj. destruct (Hfrom j r Hj) as ([x|e] & Hx & Hv);
      [|discriminate].
    injection Hv as ->. exact Hx.
  - intros i r Hi. apply (Hall i (Resolved r) r Hi). reflexivity.
Qed.
End Batch.

(** ** Selection of the result and the city field *)

(** A field that is there and is not the empty string. *)
Definition present_nonempty (s : option string) : Prop :=
  ∃ v, s = Some v ∧ v ≠ EmptyString.

Lemma truthy_spec (s : option string) :
  truthy s = true ↔ present_nonempty s.
Proof.
  unfold truthy, present_nonempty. destruct s as [v|].
  - case_bool_decide; simpl; split.
    + discriminate.
    + intros (v' & [= <-] & Hv). contradiction.
    + intros _. eauto.
    + reflexivity.
  - split; [discriminate|]. intros (v & Hv & _). discriminate.
Qed.

(** The city field: the city when it is there and not empty, else the town
    when it is there and not empty, else the village. *)
Lemma map_address_city (a : NominatimAddress) :
  (present_nonempty (na_city a) → city (map_address a) = na_city a)
  ∧ (¬ present_nonempty (na_city a) → present_nonempty (na_town a) →
     city (map_address a) = na_town a)
  ∧ (¬ present_nonempty (na_city a) → ¬ present_nonempty (na_town a) →
     city (map_address a) = na_village a).
Proof.
  rewrite <- !truthy_spec. unfold map_address, or_else. simpl.
  destruct (truthy (na_city a)) eqn:Hc; simpl; rewrite ?Hc;
    [|destruct (truthy (na_town a)) eqn:Ht; simpl];
    repeat split; intros; congruence.
Qed.

Section FirstResult.
Variable parseFloat : string → float.
Variable numberToString : float → string.
Variable this : GeocodingService.

(** C8, as amended: an attempt of [geocode] whose payload is not empty
    builds its result from element 0 alone, whatever follows it, and the
    city field is the provider's city when that is present and not
    empty, else the town when present and not empty, else the village. *)
Theorem geocode_uses_element_0 addr o reply result rest
    (r : GeocodeResult) :
  transport (timeout o) reply = Resolved (Some (result :: rest)) →
  search_outcome parseFloat numberToString this addr o reply = Resolved r →
  (∀ reply' rest',
     transport (timeout o) reply' = Resolved (Some (result :: rest')) →
     search_outcome parseFloat numberToString this addr o reply'
     = Resolved r)
  ∧ latitude (coordinates r) = parseFloat (lat result)
  ∧ longitude (coordinates r) = parseFloat (lon result)
  ∧ display_name r = nr_display_name result
  ∧ confidence r = importance result
  ∧ match nr_address result with
    | None => address r = None
    | Some a =>
        ∃ g, address r = Some g
          ∧ house_number g = na_house_number a ∧ road g = na_road a
          ∧ neighbourhood g = na_neighbourhood a ∧ suburb g = na_suburb a
          ∧ county g = na_county a ∧ state g = na_state a
          ∧ postcode g = na_postcode a ∧ country g = na_country a
          ∧ (present_nonempty (na_city a) → city g = na_city a)
          ∧ (¬ present_nonempty (na_city a) →
             present_nonempty (na_town a) → city g = na_town a)
          ∧ (¬ present_nonempty (na_city a) →
             ¬ present_nonempty (na_town a) → city g = na_village a)
    end.
Proof.
  intros Ht Hr.
  assert (Hn : ∀ rest',
    (normalizeSearch parseFloat addr (Some (result :: rest')) empty_world).1
    = Resolved r).
  { intros rest'. rewrite search_outcome_unfold, Ht in Hr. exact Hr. }
  split.
  { intros reply' rest' Ht'. rewrite search_outcome_unfold, Ht'. apply Hn. }
  apply search_outcome_resolved in Hr.
  destruct Hr as (result' & rest'' & Ht' & -> & _).
  rewrite Ht in Ht'. injection Ht' as <- <-. simpl.
  repeat (split; [reflexivity|]).
  destruct (nr_address result) as [a|]; simpl; [|reflexivity].
  exists (map_address a). repeat (split; [reflexivity|]).
  apply map_address_city.
Qed.
End FirstResult.

(** ** The coordinate invariant, call by call *)

Lemma settle_all_elem {A B} (g : B → Promise A) (l : list B) : ∀ w o,
  o ∈ (settle_all (map g l) w).1 → ∃ b w0, b ∈ l ∧ o = (g b w0).1.
Proof.
  induction l as [|b l IH]; intros w o Ho; simpl in Ho.
  - apply elem_of_nil in Ho. contradiction.
  - destruct (g b w) as [o1 w1] eqn:E.
    specialize (IH w1 o).
    destruct (settle_all (map g l) w1) as [os w2]. simpl in *.
    apply elem_of_cons in Ho. destruct Ho as [-> | Ho].
    + exists b, w. split; [apply elem_of_cons; auto|]. rewrite E. reflexivity.
    + destruct (IH Ho) as (b' & w0 & Hb & Heq).
      exists b', w0. split; [apply elem_of_cons; auto | exact Heq].
Qed.

Section Invariant.
Variable parseFloat : string → float.
Variable numberToString : float → string.
Variable search_net : nat → NetReply (option (list NominatimResponse)).
Variable this : GeocodingService.

(** Every result that [batchGeocode] collects has valid coordinates. *)
Lemma batchGeocode_coordinates_valid addresses options w results w' :
  batchGeocode parseFloat numberToString search_net this addresses options w
  = (Resolved results, w') →
  Forall (λ r, valid_coordinates (coordinates r)) results.
Proof.
  intros Hrun.
  destruct (batchGeocode_run parseFloat numberToString search_net
              this options addresses w) as (w'' & Hrun').
  rewrite Hrun in Hrun'. injection Hrun' as -> _.
  apply Forall_forall. intros r Hr.
  apply list_elem_of_omap in Hr. destruct Hr as (o & Ho & Hv).
  destruct o as [r0|e]; [|discriminate]. injection Hv as ->.
  apply settle_all_elem in Ho. destruct Ho as (a & w0 & _ & Ho).
  destruct (geocode parseFloat numberToString search_net this a options w0)
    as [o1 w1] eqn:E.
  simpl in Ho. subst o1.
  eapply geocode_coordinates_valid. exact E.
Qed.

(** An attempt of [reverseGeocode] resolves with whatever coordinates the
    payload parses to. *)
Lemma normalizeReverse_unchecked c result w :
  normalizeReverse parseFloat numberToString c (Some result) w
  = (Resolved (result_of parseFloat result), w).
Proof. reflexivity. Qed.
End Invariant.

(** * Concrete runs *)

Local Open Scope float_scope.

(** A service built with every default. *)
Definition default_service : GeocodingService :=
  new_GeocodingService no_options None None None None.

Definition five_retries : PartialGeocodeOptions :=
  mkPartialGeocodeOptions (Some 5%nat) None None None None None.

Definition place (lat lon name : string) (a : option NominatimAddress)
  : NominatimResponse :=
  {| place_id := 1; licence := "ODbL"; osm_type := "node"; osm_id := 2;
     lat := lat; lon := lon; nr_display_name := name; nr_address := a;
     importance := Some 0.5; boundingbox := [] |}.

Definition new_york : NominatimAddress :=
  {| na_house_number := None; na_road := Some "Broadway";
     na_neighbourhood := None; na_suburb := Some "Manhattan";
     na_city := Some "New York"; na_town := None; na_village := None;
     na_county := Some "New York County"; na_state := Some "New York";
     na_postcode := Some "10036"; na_country := Some "United States";
     na_country_code := Some "us" |}.

Definition times_square : NominatimResponse :=
  place "40.5" "-73.75" "Times Square, Manhattan, New York, United States"
    (Some new_york).

Definition boston : NominatimResponse :=
  place "42.25" "-71" "Boston, Massachusetts, United States" None.

(** An element whose city is present but empty, with a town. *)
Definition empty_city : NominatimAddress :=
  {| na_house_number := None; na_road := None; na_neighbourhood := None;
     na_suburb := None;
     na_city := Some EmptyString; na_town := Some "Springfield";
     na_village := None;
     na_county := None; na_state := None; na_postcode := None;
     na_country := None; na_country_code := None |}.

Definition springfield : NominatimResponse :=
  place "39.75" "-89.5" "Springfield" (Some empty_city).

(** A reverse-lookup payload with a latitude out of range and a longitude
    that is not a number. *)
Definition off_the_map : NominatimResponse :=
  place "999" "n/a" "Nowhere" None.

Definition found {T} (data : T) : NetReply (option T) :=
  Responds 120 200 "OK" (BodyJson 5 (Some data)).

Definition fetch_failed : JsError :=
  {| error_class := TypeErrorCls; error_name := "TypeError";
     error_message := "fetch failed";
     error_statusCode := None; error_type := None |}.

(** A provider that never answers well: too late, then 429, then 503, then
    a connection failure, then an empty list, then a latitude of 91. *)
Definition failing_net (n : nat) : NetReply (option (list NominatimResponse)) :=
  match n with
  | 0%nat => Responds 20000 200 "OK" (BodyJson 5 (Some [times_square]))
  | 1%nat => Responds 80 429 "Too Many Requests" (BodyJson 5 None)
  | 2%nat => Responds 80 503 "Service Unavailable" (BodyJson 5 None)
  | 3%nat => Fails 30 fetch_failed
  | 4%nat => found []
  | _ => found [place "91" "0" "North of the pole" None]
  end.

Definition failing_errors (k : nat) : JsError :=
  match k with
  | 0%nat => timeoutError
  | 1%nat => rateLimitError
  | 2%nat => httpError 503 "Service Unavailable"
  | 3%nat => networkError
  | 4%nat => noResultsError "Nowhere"
  | _ => outOfRangeError
  end.

(** A provider that finds nothing twice and then finds Times Square. *)
Definition third_time_lucky (n : nat)
  : NetReply (option (list NominatimResponse)) :=
  match n with
  | 0%nat => found []
  | 1%nat => Responds 80 404 "Not Found" (BodyJson 5 None)
  | _ => found [times_square; boston]
  end.

Definition third_time_lucky_reverse (n : nat)
  : NetReply (option NominatimResponse) :=
  match n with
  | 0%nat => Responds 120 200 "OK" (BodyJson 5 None)
  | 1%nat => Responds 80 400 "Bad Request" (BodyJson 5 None)
  | _ => found times_square
  end.

(** A provider for a batch of three addresses: the first is found at once,
    the second never (four attempts), the third at once. *)
Definition batch_net (n : nat) : NetReply (option (list NominatimResponse)) :=
  match n with
  | 0%nat => found [times_square]
  | 5%nat => found [boston]
  | _ => found []
  end.

Definition batch_addresses : list string :=
  ["Times Square, New York, NY"; "Not A Real Address Anywhere"; "Boston, MA"].

Definition times_square_result : GeocodeResult :=
  {| coordinates := {| latitude := 40.5; longitude := -73.75 |};
     display_name := "Times Square, Manhattan, New York, United States";
     confidence := Some 0.5;
     address :=
       Some {| house_number := None; road := Some "Broadway";
               neighbourhood := None; suburb := Some "Manhattan";
               city := Some "New York";
               county := Some "New York County"; state := Some "New York";
               postcode := Some "10036"; country := Some "United States" |} |}.

Definition boston_result : GeocodeResult :=
  {| coordinates := {| latitude := 42.25; longitude := -71 |};
     display_name := "Boston, Massachusetts, United States";
     confidence := Some 0.5;
     address := None |}.

Definition here : Coordinates := {| latitude := 40; longitude := -74 |}.

(** The error that a search without results raises is not retryable
    according to [isRetryable]. *)
Example no_results_not_retryable :
  error_type (noResultsError "Nowhere") = Some GEOCODING_ERROR
  ∧ isRetryable GEOCODING_ERROR = false.
Proof. split; reflexivity. Qed.

(** [geocode] refuses the payload that [reverseGeocode] lets through. *)
Example geocode_refuses_off_the_map :
  (geocode parseDecimal showInteger (λ _, found [off_the_map]) default_service
     "Nowhere" no_options empty_world).1
  = Rejected invalidCoordinatesError.
Proof. vm_compute. reflexivity. Qed.

(** C1, failing input: [reverseGeocode] returns the coordinates of the
    payload without checking them; a latitude of 999 and a longitude that
    is not a number come back to the caller. *)
Theorem reverseGeocode_skips_validation :
  ∃ r w',
    reverseGeocode parseDecimal showInteger (λ _, found off_the_map)
      default_service here no_options empty_world
    = (Resolved r, w')
    ∧ latitude (coordinates r) = 999
    ∧ (90 <? latitude (coordinates r)) = true
    ∧ is_nan (longitude (coordinates r)) = true
    ∧ ¬ valid_coordinates (coordinates r).
Proof.
  eexists _, _. split; [vm_compute; reflexivity|]. simpl.
  repeat split; try (vm_compute; reflexivity).
  intros (_ & H & _). vm_compute in H. discriminate.
Qed.

(** A body that is not JSON: [response.json()] rejects with a
    [SyntaxError]. *)
Definition not_json_error : JsError :=
  mkJsError SyntaxErrorCls "SyntaxError" "Unexpected token < in JSON" None
    None.

Lemma fetchWithTimeout_classification_witness :
  let run (reply : NetReply (option nat)) :=
    (fetchWithTimeout (λ _, reply) (mkURL "https://example.org" []) 10000
       "test-agent" empty_world).1 in
  run (Responds 20000 200 "OK" (BodyJson 5 (Some 7%nat))) = Rejected timeoutError
  ∧ run (Fails 20000 fetch_failed) = Rejected timeoutError
  ∧ run (Responds 80 429 "Too Many Requests" (BodyJson 5 None))
    = Rejected rateLimitError
  ∧ run (Responds 80 503 "Service Unavailable" (BodyJson 5 None))
    = Rejected (httpError 503 "Service Unavailable")
  ∧ run (Fails 30 fetch_failed) = Rejected networkError
  ∧ run (Fails 30 (newError "unexpected")) = Rejected (newError "unexpected")
  ∧ run (Responds 120 200 "OK" (BodyJson 5 (Some 7%nat))) = Resolved (Some 7%nat)
  ∧ run (Responds 120 200 "OK" (BodyJson 9900 (Some 7%nat)))
    = Rejected timeoutError
  ∧ run (Responds 120 200 "OK" (BodyFailure 5 not_json_error))
    = Rejected not_json_error
  ∧ run (Responds 120 300 "Multiple Choices" (BodyJson 5 (Some 7%nat)))
    = Resolved (Some 7%nat).
Proof.
  intros run. unfold run.
  refine (conj _ (conj _ (conj _ (conj _ (conj _ (conj _ (conj _ (conj _
            (conj _ _)))))))));
    apply fetchWithTimeout_classification; simpl.
  - apply timed_out_waiting. lia.
  - apply timed_out_connecting. lia.
  - apply rate_limited. lia.
  - apply (http_error 10000 80 503); [lia | lia | discriminate].
  - apply fetch_failure; [lia|].
    apply caught_transport_failure; [discriminate | reflexivity].
  - apply fetch_failure; [lia|].
    apply caught_unexpected; discriminate.
  - apply success; lia.
  - apply timed_out_reading; simpl; lia.
  - apply body_failure; [lia | lia | lia |].
    apply caught_unexpected; discriminate.
  - apply success; lia.
Defined.

(** C3, counterexample: a response with status 200 that arrives within
    the timeout does not always resolve.  When its body arrives after the
    timer has gone off the attempt rejects with [TimeoutError], and when
    its body is not JSON the attempt rejects with the [SyntaxError] of
    [response.json()]; so a status in 200-299 does not by itself give
    the parsed payload, not even when the body is JSON. *)
Lemma ok_status_does_not_resolve :
  let run (reply : NetReply (option nat)) :=
    (fetchWithTimeout (λ _, reply) (mkURL "https://example.org" []) 10000
       "test-agent" empty_world).1 in
  run (Responds 120 200 "OK" (BodyJson 9900 (Some 7%nat)))
  = Rejected timeoutError
  ∧ run (Responds 120 200 "OK" (BodyFailure 5 not_json_error))
    = Rejected not_json_error
  ∧ ¬ (∀ latency st txt b,
         latency ≤ 10000 → 200 ≤ st ≤ 299 →
         ∃ data, run (Responds latency st txt b) = Resolved data)
  ∧ ¬ (∀ latency st txt l data,
         latency ≤ 10000 → 200 ≤ st ≤ 299 →
         run (Responds latency st txt (BodyJson l data)) = Resolved data).
Proof.
  intros run. split; [vm_compute; reflexivity|].
  split; [vm_compute; reflexivity|]. split.
  - intros H.
    destruct (H 120%Z 200%Z "OK" (BodyFailure 5%Z not_json_error))
      as [data Hd];
      [lia | lia |].
    vm_compute in Hd. discriminate Hd.
  - intros H.
    specialize (H 120%Z 200%Z "OK" 9900%Z (Some 7%nat)
                  ltac:(lia) ltac:(lia)).
    vm_compute in H. discriminate H.
Qed.

Lemma geocode_exhausts_retries_witness :
  let req :=
    search_request showInteger default_service "Nowhere"
      (spread (defaultOptions default_service) five_retries) in
  ∃ w',
    geocode parseDecimal showInteger failing_net default_service "Nowhere"
      five_retries empty_world
    = (Rejected outOfRangeError, w')
    ∧ length (requests w') = 6%nat
    ∧ slept w' = [1000; 2000; 4000; 8000; 10000]%Z
    ∧ events w'
      = [Sent req; Waited 1000; Sent req; Waited 2000; Sent req;
         Waited 4000; Sent req; Waited 8000; Sent req; Waited 10000;
         Sent req]%Z.
Proof.
  apply (geocode_exhausts_retries parseDecimal showInteger failing_net
           default_service "Nowhere" five_retries empty_world failing_errors).
  intros k Hk.
  do 6 (destruct k as [|k]; [vm_compute; reflexivity|]).
  simpl in Hk. lia.
Defined.

Lemma retries_whatever_the_error_witness :
  (∃ w',
     geocode parseDecimal showInteger third_time_lucky default_service
       "Times Square, New York, NY" no_options empty_world
     = (Resolved times_square_result, w')
     ∧ length (requests w') = 3%nat)
  ∧ (∃ w',
       reverseGeocode parseDecimal showInteger third_time_lucky_reverse
         default_service here no_options empty_world
       = (Resolved times_square_result, w')
       ∧ length (requests w') = 3%nat).
Proof.
  destruct (retries_whatever_the_error parseDecimal showInteger
              third_time_lucky third_time_lucky_reverse default_service
              "Times Square, New York, NY" here no_options empty_world
              2%nat times_square_result) as [Hsearch Hreverse].
  - vm_compute. lia.
  - split.
    + apply Hsearch.
      * intros i Hi. destruct i as [|[|i]]; [| |lia]; eexists;
          vm_compute; reflexivity.
      * vm_compute. reflexivity.
    + apply Hreverse.
      * intros i Hi. destruct i as [|[|i]]; [| |lia]; eexists;
          vm_compute; reflexivity.
      * vm_compute. reflexivity.
Defined.

Lemma no_results_rejected_witness :
  (∃ e w',
     geocode parseDecimal showInteger (λ _, found []) default_service
       "Not A Real Address Anywhere" no_options empty_world
     = (Rejected e, w')
     ∧ isGeocodingError e = true
     ∧ error_message e
       = "No results found for address: Not A Real Address Anywhere")
  ∧ (∃ e w',
       reverseGeocode parseDecimal showInteger
         (λ _, Responds 120 200 "OK" (BodyJson 5 None))
         default_service here no_options empty_world
       = (Rejected e, w')
       ∧ isGeocodingError e = true).
Proof.
  destruct (no_results_rejected parseDecimal showInteger
              (λ _, found []) (λ _, Responds 120 200 "OK" (BodyJson 5 None))
              default_service "Not A Real Address Anywhere" here no_options
              empty_world) as [Hsearch Hreverse].
  split.
  - apply Hsearch. intros k Hk. right. vm_compute. reflexivity.
  - apply Hreverse. intros k Hk. vm_compute. reflexivity.
Defined.

(** C8, counterexample: the provider's city is present, as the empty
    string, and yet the city of the result is the town. *)
Lemma present_city_not_used :
  na_city empty_city = Some EmptyString
  ∧ (geocode parseDecimal showInteger (λ _, found [springfield])
       default_service "Springfield" no_options empty_world).1
    = Resolved
        {| coordinates := {| latitude := 39.75; longitude := -89.5 |};
           display_name := "Springfield";
           confidence := Some 0.5;
           address :=
             Some {| house_number := None; road := None;
                     neighbourhood := None; suburb := None;
                     city := Some "Springfield";
                     county := None; state := None; postcode := None;
                     country := None |} |}
  ∧ ¬ (∀ (a : NominatimAddress) (c : string),
         na_city a = Some c → city (map_address a) = Some c).
Proof.
  split; [reflexivity|]. split; [vm_compute; reflexivity|].
  intros H. specialize (H empty_city EmptyString eq_refl). discriminate H.
Qed.

Lemma geocode_uses_element_0_witness :
  let o := spread (defaultOptions default_service) no_options in
  (∀ reply' rest',
     transport (timeout o) reply' = Resolved (Some (times_square :: rest')) →
     search_outcome parseDecimal showInteger default_service
       "Times Square, New York, NY" o reply'
     = Resolved times_square_result)
  ∧ city <$> address times_square_result = Some (Some "New York").
Proof.
  intros o.
  destruct (geocode_uses_element_0 parseDecimal showInteger default_service
              "Times Square, New York, NY" o
              (found [times_square; boston]) times_square [boston]
              times_square_result)
    as (Hany & _).
  - vm_compute. reflexivity.
  - vm_compute. reflexivity.
  - split; [exact Hany | reflexivity].
Defined.

Lemma batchGeocode_absorbs_failures_witness :
  ∃ w',
    batchGeocode parseDecimal showInteger batch_net default_service
      batch_addresses no_options empty_world
    = (Resolved [times_square_result; boston_result], w')
    ∧ batch_warning "Not A Real Address Anywhere"
        (noResultsError "Not A Real Address Anywhere") ∈ console w'.
Proof.
  destruct (batchGeocode_absorbs_failures parseDecimal showInteger batch_net
              default_service no_options batch_addresses empty_world)
    as (w' & Hrun & Hwarn).
  exists w'. split.
  - exact Hrun.
  - apply (Hwarn 1%nat); [reflexivity | vm_compute; reflexivity].
Defined.

Lemma batchGeocode_keeps_order_witness :
  let outcomes :=
    (settle_all
       (map (λ address,
               geocode parseDecimal showInteger batch_net default_service
                 address no_options)
          batch_addresses) empty_world).1 in
  ∃ results w' (position : nat → nat),
    batchGeocode parseDecimal showInteger batch_net default_service
      batch_addresses no_options empty_world
    = (Resolved results, w')
    ∧ results = [times_square_result; boston_result]
    ∧ (position 0 < position 1)%nat
    ∧ outcomes !! position 0%nat = Some (Resolved times_square_result)
    ∧ outcomes !! position 1%nat = Some (Resolved boston_result).
Proof.
  intros outcomes.
  destruct (batchGeocode_keeps_order parseDecimal showInteger batch_net
              default_service no_options batch_addresses empty_world)
    as (results & w' & position & Hrun & _ & _ & Hinc & Hfrom & _).
  assert (Hres : results = [times_square_result; boston_result]).
  { pose proof Hrun as H. vm_compute in H. injection H as H1 _.
    symmetry. exact H1. }
  exists results, w', position. split; [exact Hrun|]. split; [exact Hres|].
  split; [apply Hinc; lia|]. split.
  - apply Hfrom. rewrite Hres. reflexivity.
  - apply Hfrom. rewrite Hres. reflexivity.
Defined.

Lemma fetchWithTimeout_clears_timer_witness :
  let w := mkWorld {[ 3%nat := 500%Z ]} 4 [] [] [] [] in
  let w' := (fetchWithTimeout (λ _, Fails (T := nat) 30 fetch_failed)
               (mkURL "https://example.org" []) 10000 "test-agent" w).2 in
  timers w' !! 4%nat = None ∧ timers w' !! 3%nat = Some 500%Z.
Proof.
  intros w w'.
  destruct (fetchWithTimeout_clears_timer
              (λ _, Fails (T := nat) 30 fetch_failed)
              (mkURL "https://example.org" []) 10000 "test-agent" w)
    as (_ & Hgone & Hothers).
  split.
  - exact Hgone.
  - unfold w'. rewrite (Hothers 3%nat); [reflexivity | simpl; lia].
Defined.

(** * The error taxonomy of utils/errors.ts *)

Local Close Scope float_scope.

(** The error objects are the [JsError]s above.  The fields [response],
    [originalError] and [context] of a [BmltQueryError], which no function
    modelled here reads to decide a type, a message or a status code, are
    left out of the record. *)

(** [new BmltQueryError(type, message, { statusCode })]. *)
Definition newBmltQueryError_with (t : BmltErrorType) (msg : string)
    (statusCode : option Z) : JsError :=
  {| error_class := BmltQueryErrorCls; error_name := "BmltQueryError";
     error_message := msg; error_statusCode := statusCode;
     error_type := Some t |}.

(** [error instanceof BmltQueryError]. *)
Definition instanceofBmltQueryError (e : JsError) : bool :=
  bool_decide (error_class e = BmltQueryErrorCls).

(** [BmltQueryError.isRetryable], as a method of the object. *)
Definition error_isRetryable (e : JsError) : bool :=
  match error_type e with
  | Some t => isRetryable t
  | None => false
  end.

(** [BmltQueryError.isClientError]. *)
Definition isClientError (e : JsError) : bool :=
  match error_statusCode e with
  | Some c => (400 <=? c) && (c <? 500)
  | None => false
  end.

(** [BmltQueryError.isServerError]. *)
Definition isServerError (e : JsError) : bool :=
  match error_statusCode e with
  | Some c => 500 <=? c
  | None => false
  end.

(** [ErrorFactory.createApiError]; [if (statusCode)] fails for [undefined]
    and for 0. *)
Definition createApiError (message : string) (statusCode : option Z)
  : JsError :=
  let type :=
    match statusCode with
    | Some c =>
        if bool_decide (c = 0) then API_ERROR
        else if 500 <=? c then SERVER_ERROR
        else if bool_decide (c = 401) || bool_decide (c = 403)
        then AUTHENTICATION_ERROR
        else if bool_decide (c = 429) then RATE_LIMIT_ERROR
        else if 400 <=? c then CLIENT_ERROR
        else API_ERROR
    | None => API_ERROR
    end in
  newBmltQueryError_with type message statusCode.

(** [ErrorFactory.createNetworkError]. *)
Definition createNetworkError (message : string) : JsError :=
  newBmltQueryError_with NETWORK_ERROR message None.

(** [ErrorFactory.createTimeoutError]. *)
Definition createTimeoutError (message : string) : JsError :=
  newBmltQueryError_with TIMEOUT_ERROR message None.

(** [ErrorHandler.handleFetchError]; the last fallback of the source, for
    thrown values that are not [Error]s, is kept although every [JsError]
    is one. *)
Definition handleFetchError {T} (error : JsError)
    (response : option (Response T)) : JsError :=
  if instanceofError error && bool_decide (error_name error = "AbortError")
  then createTimeoutError "Request timeout"
  else if instanceofTypeError error
  then createNetworkError "Network connection failed"
  else
    match response with
    | Some r =>
        if negb (ok r)
        then createApiError
               ("HTTP " +:+ pretty (status r) +:+ ": " +:+ statusText r)
               (Some (status r))
        else if instanceofError error
        then createApiError (error_message error) None
        else createApiError "Unknown error occurred" None
    | None =>
        if instanceofError error
        then createApiError (error_message error) None
        else createApiError "Unknown error occurred" None
    end.

(** [ErrorHandler.wrapError]. *)
Definition wrapError (originalError : JsError) (context : string) : JsError :=
  let message := context +:+ ": " +:+ error_message originalError in
  if instanceofBmltQueryError originalError
  then {| error_class := BmltQueryErrorCls; error_name := "BmltQueryError";
          error_message := message;
          error_statusCode := error_statusCode originalError;
          error_type := error_type originalError |}
  else createApiError message None.

(** The options of [RetryHandler.withRetry]; [maxRetries] is a count. *)
Record RetryHandlerOptions := mkRetryHandlerOptions {
  maxRetries : nat;
  baseDelay : Z;
  maxDelay : Z;
  rh_factor : Z;
  onRetry : option (JsError → nat → Promise unit)
}.

(** [await new Promise(resolve => setTimeout(resolve, delay))]: a timer is
    set, goes off, and [delay] ms have been waited. *)
Definition timer_went_off (id : nat) (delay : Z) : Promise unit :=
  λ w, (Resolved tt,
        {| timers := delete id (timers w); nextTimerId := nextTimerId w;
           requests := requests w; console := console w;
           slept := slept w ++ [delay];
           events := events w ++ [Waited delay] |}).

Definition wait (delay : Z) : Promise unit :=
  id ← setTimeout delay;
  timer_went_off id delay.

(** The loop of [RetryHandler.withRetry], from attempt number [attempt], with
    [left] iterations after this one. *)
Fixpoint withRetry_from {T} (operation : Promise T) (o : RetryHandlerOptions)
    (attempt left : nat) : Promise T :=
  try_catch operation
    (λ error,
       let bmltError :=
         if instanceofBmltQueryError error then error
         else wrapError error "Operation failed" in
       match left with
       | O => throw bmltError
       | S left' =>
           if negb (error_isRetryable bmltError) then throw bmltError
           else
             let delay :=
               Z.min (baseDelay o * rh_factor o ^ Z.of_nat attempt)
                 (maxDelay o) in
             match onRetry o with
             | Some f => f bmltError (S attempt)
             | None => mret tt
             end ;;
             wait delay ;;
             withRetry_from operation o (S attempt) left'
       end).

(** [RetryHandler.withRetry]. *)
Definition withRetry {T} (operation : Promise T) (o : RetryHandlerOptions)
  : Promise T :=
  withRetry_from operation o 0 (maxRetries o).

(** ** Status codes, types and retryability *)

Ltac zbool :=
  repeat match goal with
    | H : (_ <=? _) = true |- _ => apply Z.leb_le in H
    | H : (_ <=? _) = false |- _ => apply Z.leb_gt in H
    | H : (_ <? _) = true |- _ => apply Z.ltb_lt in H
    | H : (_ <? _) = false |- _ => apply Z.ltb_ge in H
    end.

(** The type chosen by [createApiError], case by case. *)
Lemma createApiError_type (message : string) (c : Z) :
  error_type (createApiError message (Some c)) =
  Some (if bool_decide (c = 0) then API_ERROR
        else if 500 <=? c then SERVER_ERROR
        else if bool_decide (c = 401) || bool_decide (c = 403)
        then AUTHENTICATION_ERROR
        else if bool_decide (c = 429) then RATE_LIMIT_ERROR
        else if 400 <=? c then CLIENT_ERROR
        else API_ERROR).
Proof. reflexivity. Qed.

(** With a status code, the error is retryable when the code is 429 or at
    least 500. *)
Lemma status_retryable (message : string) (c : Z) :
  error_isRetryable (createApiError message (Some c)) = true
  ↔ 500 ≤ c ∨ c = 429.
Proof.
  unfold error_isRetryable. rewrite createApiError_type.
  destruct (bool_decide (c = 0)) eqn:H0;
    destruct (500 <=? c) eqn:H5;
    destruct (bool_decide (c = 401)) eqn:H1;
    destruct (bool_decide (c = 403)) eqn:H3;
    destruct (bool_decide (c = 429)) eqn:H9;
    destruct (400 <=? c) eqn:H4; simpl;
    repeat match goal with
      | H : bool_decide _ = true |- _ => apply bool_decide_eq_true_1 in H
      | H : bool_decide _ = false |- _ => apply bool_decide_eq_false_1 in H
      end; zbool; try lia;
    split; intros Hx;
    first [ discriminate | reflexivity | lia ].
Qed.

(** X1: an API error is retryable exactly when its status code is 429 or at
    least 500; without a status code it is not. *)
Theorem createApiError_retryable (message : string) (statusCode : option Z) :
  error_isRetryable (createApiError message statusCode) = true
  ↔ ∃ c, statusCode = Some c ∧ (500 ≤ c ∨ c = 429).
Proof.
  destruct statusCode as [c|].
  - rewrite status_retryable. split.
    + intros H. exists c. split; [reflexivity|exact H].
    + intros (c' & Heq & Hc). injection Heq as <-. exact Hc.
  - split; [discriminate|]. intros (c & Hc & _). discriminate.
Qed.

(** X2: the type that [createApiError] chooses agrees with the status-code
    tests of the error: server errors are those of type [SERVER_ERROR], client
    errors those of type [AUTHENTICATION_ERROR], [RATE_LIMIT_ERROR] or
    [CLIENT_ERROR], and no error is both. *)
Theorem createApiError_type_agrees (message : string) (statusCode : option Z) :
  let e := createApiError message statusCode in
  (isServerError e = true ↔ error_type e = Some SERVER_ERROR)
  ∧ (isClientError e = true
     ↔ error_type e = Some AUTHENTICATION_ERROR
       ∨ error_type e = Some RATE_LIMIT_ERROR
       ∨ error_type e = Some CLIENT_ERROR)
  ∧ ¬ (isServerError e = true ∧ isClientError e = true).
Proof.
  destruct statusCode as [c|]; cbv zeta.
  - rewrite createApiError_type. unfold isServerError, isClientError. simpl.
    destruct (bool_decide (c = 0)) eqn:H0;
      destruct (500 <=? c) eqn:H5;
      destruct (bool_decide (c = 401)) eqn:H1;
      destruct (bool_decide (c = 403)) eqn:H3;
      destruct (bool_decide (c = 429)) eqn:H9;
      destruct (400 <=? c) eqn:H4;
      destruct (c <? 500) eqn:H6; simpl;
      repeat match goal with
        | H : bool_decide _ = true |- _ => apply bool_decide_eq_true_1 in H
        | H : bool_decide _ = false |- _ => apply bool_decide_eq_false_1 in H
        end; zbool; try lia;
      (split; [|split]);
      try (split; intros Hx; try reflexivity; try discriminate;
           try (destruct Hx as [Hx|[Hx|Hx]]; discriminate); auto);
      try (intros [Hx Hy]; discriminate).
  - simpl. split; [|split].
    + split; discriminate.
    + split; [discriminate|]. intros [Hx|[Hx|Hx]]; discriminate.
    + intros [? ?]; discriminate.
Qed.

(** X3: what [handleFetchError] makes of a failure is retryable exactly for an
    abort, for a [TypeError], and for a response whose status is 429 or at
    least 500. *)
Theorem handleFetchError_retryable {T} (error : JsError)
    (response : option (Response T)) :
  error_isRetryable (handleFetchError error response) = true
  ↔ error_name error = "AbortError"
    ∨ error_class error = TypeErrorCls
    ∨ ∃ r, response = Some r ∧ ok r = false
        ∧ (500 ≤ status r ∨ status r = 429).
Proof.
  unfold handleFetchError, instanceofError, instanceofTypeError. simpl.
  case_bool_decide as Hab; simpl; [split; [auto|reflexivity]|].
  case_bool_decide as Hty; simpl; [split; [auto|reflexivity]|].
  destruct response as [r|].
  - destruct (ok r) eqn:Hok; simpl.
    + split; [discriminate|].
      intros [?|[?|(r' & [= <-] & Hk & _)]]; congruence.
    + rewrite status_retryable. split.
      * intros Hc. right. right. eauto.
      * intros [?|[?|(r' & [= <-] & _ & Hc)]]; try contradiction. exact Hc.
  - split; [discriminate|].
    intros [?|[?|(r' & Hr & _)]]; congruence.
Qed.

(** Wrapping keeps the type and the status code of a [BmltQueryError], and
    with them its retryability; any other error becomes an [API_ERROR]
    without status code, which is not retryable.  The message gets the
    context in front. *)
Lemma wrapError_preserves (e : JsError) (context : string) :
  error_message (wrapError e context)
  = context +:+ ": " +:+ error_message e
  ∧ error_class (wrapError e context) = BmltQueryErrorCls
  ∧ (instanceofBmltQueryError e = true →
     error_type (wrapError e context) = error_type e
     ∧ error_statusCode (wrapError e context) = error_statusCode e
     ∧ error_isRetryable (wrapError e context) = error_isRetryable e)
  ∧ (instanceofBmltQueryError e = false →
     error_type (wrapError e context) = Some API_ERROR
     ∧ error_statusCode (wrapError e context) = None
     ∧ error_isRetryable (wrapError e context) = false).
Proof.
  unfold wrapError. destruct (instanceofBmltQueryError e); simpl.
  - repeat split; intros; try reflexivity; discriminate.
  - repeat split; intros; try reflexivity; discriminate.
Qed.

(** ** [RetryHandler.withRetry] *)

(** The error that [withRetry] works with after a failed attempt. *)
Definition as_BmltQueryError (error : JsError) : JsError :=
  if instanceofBmltQueryError error then error
  else wrapError error "Operation failed".

Lemma as_BmltQueryError_class error :
  error_class (as_BmltQueryError error) = BmltQueryErrorCls.
Proof.
  unfold as_BmltQueryError, instanceofBmltQueryError.
  case_bool_decide as H; [exact H|].
  unfold wrapError, instanceofBmltQueryError.
  rewrite bool_decide_eq_false_2 by exact H. reflexivity.
Qed.

Lemma as_BmltQueryError_plain error :
  instanceofBmltQueryError error = false →
  error_isRetryable (as_BmltQueryError error) = false.
Proof.
  intros H. unfold as_BmltQueryError, wrapError. rewrite H. reflexivity.
Qed.

(** The delay before the retry that follows attempt number [attempt]. *)
Definition retry_delay (o : RetryHandlerOptions) (attempt : nat) : Z :=
  Z.min (baseDelay o * rh_factor o ^ Z.of_nat attempt) (maxDelay o).

Lemma then_assoc {A B C} (a : Promise A) (b : Promise B) (c : Promise C) w :
  (a ;; b ;; c) w = ((a ;; b) ;; c) w.
Proof.
  unfold_promise. destruct (a w) as [[x|e] w1]; [|reflexivity].
  destruct (b w1) as [[y|e] w2]; reflexivity.
Qed.

Lemma then_resolved {A B} (a : Promise A) (b : Promise B) w x w1 :
  a w = (Resolved x, w1) → (a ;; b) w = b w1.
Proof. intros H. unfold_promise. rewrite H. reflexivity. Qed.

Section WithRetry.
Context {T : Type}.
Variable operation : Promise T.
Variable o : RetryHandlerOptions.

Lemma withRetry_from_failed attempt left w e w1 :
  operation w = (Rejected e, w1) →
  withRetry_from operation o attempt left w =
  match left with
  | O => (Rejected (as_BmltQueryError e), w1)
  | S left' =>
      if negb (error_isRetryable (as_BmltQueryError e))
      then (Rejected (as_BmltQueryError e), w1)
      else
        (((match onRetry o with
           | Some f => f (as_BmltQueryError e) (S attempt)
           | None => mret tt
           end ;;
           wait (retry_delay o attempt)) ;;
          withRetry_from operation o (S attempt) left') w1)
  end.
Proof.
  intros Hop. destruct left; simpl; unfold try_catch; rewrite Hop;
    fold (as_BmltQueryError e); [reflexivity|].
  destruct (negb (error_isRetryable (as_BmltQueryError e)));
    [reflexivity|].
  rewrite <- then_assoc. reflexivity.
Qed.

Lemma withRetry_from_resolved attempt left w a w1 :
  operation w = (Resolved a, w1) →
  withRetry_from operation o attempt left w = (Resolved a, w1).
Proof.
  intros Hop. destruct left; simpl; unfold try_catch; rewrite Hop;
    reflexivity.
Qed.

(** X4: a failure that is not retryable ends [withRetry] at once: the
    operation has run once, nothing was waited for, and the error comes out.
    This is so for every error that is not a [BmltQueryError]. *)
Theorem withRetry_stops_when_not_retryable w e w1 :
  operation w = (Rejected e, w1) →
  instanceofBmltQueryError e = false
  ∨ error_isRetryable e = false →
  withRetry operation o w = (Rejected (as_BmltQueryError e), w1).
Proof.
  intros Hop Hnot. unfold withRetry.
  rewrite (withRetry_from_failed _ _ _ _ _ Hop).
  destruct (maxRetries o); [reflexivity|].
  assert (H : error_isRetryable (as_BmltQueryError e) = false).
  { destruct (instanceofBmltQueryError e) eqn:Hi.
    - destruct Hnot as [Hn|Hn]; [discriminate|].
      unfold as_BmltQueryError. rewrite Hi. exact Hn.
    - apply as_BmltQueryError_plain. exact Hi. }
  rewrite H. reflexivity.
Qed.

(** The hook, when there is one, only observes. *)
Definition quiet_hook : Prop :=
  ∀ f, onRetry o = Some f →
    ∀ e k w, (f e k w).1 = Resolved tt
      ∧ requests (f e k w).2 = requests w
      ∧ slept (f e k w).2 = slept w.

Lemma hook_then_wait e attempt w :
  quiet_hook →
  ∃ w2,
    (match onRetry o with
     | Some f => f e (S attempt)
     | None => mret tt
     end ;; wait (retry_delay o attempt)) w = (Resolved tt, w2)
    ∧ requests w2 = requests w
    ∧ slept w2 = slept w ++ [retry_delay o attempt].
Proof.
  intros Hq. unfold wait, setTimeout, timer_went_off. unfold_promise.
  destruct (onRetry o) as [f|] eqn:Hf.
  - destruct (Hq f Hf e (S attempt) w) as (H1 & H2 & H3).
    destruct (f e (S attempt) w) as [r w0]. simpl in *. subst r.
    eexists. split; [reflexivity|]. simpl. rewrite H2, H3. auto.
  - eexists. split; [reflexivity|]. simpl. auto.
Qed.

(** X5: whatever happens, [withRetry] rejects only with a [BmltQueryError]. *)
Theorem withRetry_rejects_with_BmltQueryError w e w' :
  quiet_hook →
  withRetry operation o w = (Rejected e, w') →
  error_class e = BmltQueryErrorCls.
Proof.
  intros Hq. unfold withRetry. generalize 0%nat as attempt.
  revert w. induction (maxRetries o) as [|left IH]; intros w attempt Hrun.
  - destruct (operation w) as [[a|e0] w1] eqn:Hop.
    + rewrite (withRetry_from_resolved _ _ _ _ _ Hop) in Hrun. discriminate.
    + rewrite (withRetry_from_failed _ _ _ _ _ Hop) in Hrun.
      injection Hrun as <- _. apply as_BmltQueryError_class.
  - destruct (operation w) as [[a|e0] w1] eqn:Hop.
    + rewrite (withRetry_from_resolved _ _ _ _ _ Hop) in Hrun. discriminate.
    + rewrite (withRetry_from_failed _ _ _ _ _ Hop) in Hrun.
      destruct (negb (error_isRetryable (as_BmltQueryError e0))).
      * injection Hrun as <- _. apply as_BmltQueryError_class.
      * destruct (hook_then_wait (as_BmltQueryError e0) attempt w1 Hq)
          as (w2 & Hw & _).
        rewrite (then_resolved _ _ _ _ _ Hw) in Hrun.
        eapply IH. exact Hrun.
Qed.

(** The operation is driven by the network alone: its outcome is decided by
    the reply to the next request, and it issues exactly one request. *)
Definition driven_by (out : nat → Outcome T) : Prop :=
  ∀ w, (operation w).1 = out (length (requests w))
    ∧ length (requests (operation w).2) = S (length (requests w))
    ∧ slept (operation w).2 = slept w.

Lemma withRetry_from_all_fail (out : nat → Outcome T) left :
  driven_by out → quiet_hook →
  ∀ attempt w (e : nat → JsError),
    (∀ k, (k ≤ left)%nat →
       out (length (requests w) + k)%nat = Rejected (e k)) →
    (∀ k, (k < left)%nat →
       error_isRetryable (as_BmltQueryError (e k)) = true) →
    ∃ w', withRetry_from operation o attempt left w
          = (Rejected (as_BmltQueryError (e left)), w')
      ∧ length (requests w') = (length (requests w) + left + 1)%nat
      ∧ slept w' = slept w ++ map (retry_delay o) (seq attempt left).
Proof.
  intros Hd Hq.
  induction left as [|left IH]; intros attempt w e He Hre;
    destruct (Hd w) as (Ho & Hr & Hs);
    destruct (operation w) as [r w1] eqn:Hop; simpl in Ho, Hr, Hs;
    pose proof (He 0%nat ltac:(lia)) as H0;
    rewrite Nat.add_0_r in H0; rewrite H0 in Ho; subst r;
    rewrite (withRetry_from_failed _ _ _ _ _ Hop).
  - exists w1. split; [reflexivity|]. split; [lia|].
    simpl. rewrite app_nil_r. exact Hs.
  - rewrite (Hre 0%nat ltac:(lia)). simpl negb. cbv iota.
    destruct (hook_then_wait (as_BmltQueryError (e 0%nat)) attempt w1 Hq)
      as (w2 & Hw & Hr2 & Hs2).
    rewrite (then_resolved _ _ _ _ _ Hw).
    destruct (IH (S attempt) w2 (λ k, e (S k))) as (w' & Hrun & Hl & Hsl).
    { intros k Hk. rewrite Hr2, Hr.
      replace (S (length (requests w)) + k)%nat
        with (length (requests w) + S k)%nat by lia.
      apply He. lia. }
    { intros k Hk. apply Hre. lia. }
    exists w'. split; [exact Hrun|]. split; [rewrite Hl, Hr2, Hr; lia|].
    rewrite Hsl, Hs2, Hs. simpl. rewrite <- app_assoc. reflexivity.
Qed.

(** The operation sends the request [req] and does not wait. *)
Definition sends (req : Request) : Prop :=
  ∀ w, events (operation w).2 = events w ++ [Sent req].

(** The hook neither sends nor waits. *)
Definition silent_hook : Prop :=
  ∀ f, onRetry o = Some f → ∀ e k w, events (f e k w).2 = events w.

Lemma hook_then_wait_events e attempt w :
  events
    ((match onRetry o with
      | Some f => f e (S attempt)
      | None => mret tt
      end ;; wait (retry_delay o attempt)) w).2
  = events
      (match onRetry o with
       | Some f => f e (S attempt)
       | None => mret tt
       end w).2
    ++ match (match onRetry o with
              | Some f => f e (S attempt)
              | None => mret tt
              end w).1 with
       | Resolved _ => [Waited (retry_delay o attempt)]
       | Rejected _ => []
       end.
Proof.
  unfold wait, setTimeout, timer_went_off. unfold_promise.
  destruct (match onRetry o with
            | Some f => f e (S attempt)
            | None => λ w0, (Resolved tt, w0)
            end w) as [[[]|e'] w0]; simpl.
  - reflexivity.
  - rewrite app_nil_r. reflexivity.
Qed.

(** Every attempt fails with a retryable error: each wait lies between
    the attempt that failed and the next one. *)
Lemma withRetry_from_trace (out : nat → Outcome T) req left :
  driven_by out → quiet_hook → sends req → silent_hook →
  ∀ attempt w (e : nat → JsError),
    (∀ k, (k ≤ left)%nat →
       out (length (requests w) + k)%nat = Rejected (e k)) →
    (∀ k, (k < left)%nat →
       error_isRetryable (as_BmltQueryError (e k)) = true) →
    events (withRetry_from operation o attempt left w).2
    = events w
      ++ attempts_and_waits req (map (retry_delay o) (seq attempt left)).
Proof.
  intros Hd Hq Hsend Hsil.
  induction left as [|left IH]; intros attempt w e He Hre;
    destruct (Hd w) as (Ho & Hr & _);
    pose proof (Hsend w) as Hev;
    destruct (operation w) as [r w1] eqn:Hop; simpl in Ho, Hr, Hev;
    pose proof (He 0%nat ltac:(lia)) as H0;
    rewrite Nat.add_0_r in H0; rewrite H0 in Ho; subst r;
    rewrite (withRetry_from_failed _ _ _ _ _ Hop).
  - simpl. exact Hev.
  - rewrite (Hre 0%nat ltac:(lia)). simpl negb. cbv iota.
    pose proof (hook_then_wait_events (as_BmltQueryError (e 0%nat)) attempt
                  w1) as Hwe.
    destruct (hook_then_wait (as_BmltQueryError (e 0%nat)) attempt w1 Hq)
      as (w2 & Hw & Hr2 & _).
    assert (He2 : events w2
                  = events w ++ [Sent req; Waited (retry_delay o attempt)]).
    { rewrite Hw in Hwe. simpl in Hwe. rewrite Hwe. clear Hwe Hw.
      destruct (onRetry o) as [f|] eqn:Hf.
      - destruct (Hq f Hf (as_BmltQueryError (e 0%nat)) (S attempt) w1)
          as (H1 & _).
        rewrite H1, (Hsil f Hf), Hev, <- app_assoc. reflexivity.
      - simpl. rewrite Hev, <- app_assoc. reflexivity. }
    rewrite (then_resolved _ _ _ _ _ Hw).
    rewrite (IH (S attempt) w2 (λ k, e (S k))).
    + rewrite He2, <- app_assoc. reflexivity.
    + intros k Hk. rewrite Hr2, Hr.
      replace (S (length (requests w)) + k)%nat
        with (length (requests w) + S k)%nat by lia.
      apply He. lia.
    + intros k Hk. apply Hre. lia.
Qed.

(** X6: when every attempt fails with a retryable error, [withRetry] runs
    the operation [maxRetries + 1] times, waits
    [min(baseDelay * factor^k, maxDelay)] after failure number [k + 1] and
    before the next attempt, and rejects with the last error.  The last
    part gives the order: the requests and the waits alternate, starting
    and ending with a request. *)
Theorem withRetry_exhausts (out : nat → Outcome T) req w
    (e : nat → JsError) :
  let delay (k : nat) :=
    Z.min (baseDelay o * rh_factor o ^ Z.of_nat k) (maxDelay o) in
  driven_by out → quiet_hook → sends req → silent_hook →
  (∀ k, (k ≤ maxRetries o)%nat →
     out (length (requests w) + k)%nat = Rejected (e k)) →
  (∀ k, (k < maxRetries o)%nat →
     error_isRetryable (as_BmltQueryError (e k)) = true) →
  ∃ w', withRetry operation o w
        = (Rejected (as_BmltQueryError (e (maxRetries o))), w')
    ∧ length (requests w')
      = (length (requests w) + (maxRetries o + 1))%nat
    ∧ slept w' = slept w ++ map delay (seq 0 (maxRetries o))
    ∧ events w'
      = events w
        ++ attempts_and_waits req (map delay (seq 0 (maxRetries o))).
Proof.
  intros delay Hd Hq Hsend Hsil He Hre.
  destruct (withRetry_from_all_fail out (maxRetries o) Hd Hq 0%nat w e He Hre)
    as (w' & Hrun & Hl & Hs).
  pose proof (withRetry_from_trace out req (maxRetries o) Hd Hq Hsend Hsil
                0%nat w e He Hre) as Hev.
  fold (withRetry operation o) in Hev. unfold withRetry in Hrun, Hev.
  rewrite Hrun in Hev. simpl in Hev.
  exists w'. split; [exact Hrun|]. split; [lia|]. split; [exact Hs|].
  exact Hev.
Qed.
End WithRetry.

(** * The URL utilities of utils/url-builder.ts *)

(** [BmltDataFormat] and [BmltEndpoint] of types/base.ts, with their string
    values. *)
Inductive BmltDataFormat := JSON | JSONP | TSML | CSV.

Inductive BmltEndpoint :=
| GET_SEARCH_RESULTS | GET_FORMATS | GET_SERVICE_BODIES | GET_CHANGES
| GET_FIELD_KEYS | GET_FIELD_VALUES | GET_NAWS_DUMP | GET_SERVER_INFO
| GET_COVERAGE_AREA.

#[global] Instance BmltDataFormat_eq_dec : EqDecision BmltDataFormat.
Proof. solve_decision. Defined.

#[global] Instance BmltEndpoint_eq_dec : EqDecision BmltEndpoint.
Proof. solve_decision. Defined.

Definition BmltDataFormat_value (f : BmltDataFormat) : string :=
  match f with
  | JSON => "json" | JSONP => "jsonp" | TSML => "tsml" | CSV => "csv"
  end.

Definition BmltEndpoint_value (e : BmltEndpoint) : string :=
  match e with
  | GET_SEARCH_RESULTS => "GetSearchResults"
  | GET_FORMATS => "GetFormats"
  | GET_SERVICE_BODIES => "GetServiceBodies"
  | GET_CHANGES => "GetChanges"
  | GET_FIELD_KEYS => "GetFieldKeys"
  | GET_FIELD_VALUES => "GetFieldValues"
  | GET_NAWS_DUMP => "GetNAWSDump"
  | GET_SERVER_INFO => "GetServerInfo"
  | GET_COVERAGE_AREA => "GetCoverageArea"
  end.

(** The table [validCombinations]. *)
Definition validCombinations (endpoint : BmltEndpoint) : list BmltDataFormat :=
  match endpoint with
  | GET_SEARCH_RESULTS => [JSON; JSONP; TSML]
  | GET_NAWS_DUMP => [CSV]
  | _ => [JSON; JSONP]
  end.

(** [array.join(sep)] on strings. *)
Fixpoint join (sep : string) (l : list string) : string :=
  match l with
  | [] => EmptyString
  | [s] => s
  | s :: l' => s +:+ sep +:+ join sep l'
  end.

(** [validateEndpointFormat]: a function that returns nothing and may
    throw gives an [Outcome unit]. *)
Definition validateEndpointFormat (endpoint : BmltEndpoint)
    (format : BmltDataFormat) : Outcome unit :=
  let validFormats := validCombinations endpoint in
  if negb (bool_decide (format ∈ validFormats))
  then Rejected
         (newError ("Invalid format '" +:+ BmltDataFormat_value format
                    +:+ "' for endpoint '" +:+ BmltEndpoint_value endpoint
                    +:+ "'. Valid formats: "
                    +:+ join ", " (BmltDataFormat_value <$> validFormats)))
  else Resolved tt.

(** [validateCoordinates]; the arguments are numbers, so the [typeof]
    tests pass. *)
Definition validateCoordinates (latitude longitude : float) : Outcome unit :=
  if is_nan latitude
  then Rejected (newError "Latitude must be a valid number")
  else if is_nan longitude
  then Rejected (newError "Longitude must be a valid number")
  else if (latitude <? -90)%float || (90 <? latitude)%float
  then Rejected (newError "Latitude must be between -90 and 90 degrees")
  else if (longitude <? -180)%float || (180 <? longitude)%float
  then Rejected (newError "Longitude must be between -180 and 180 degrees")
  else Resolved tt.

(** [validateRadius]. *)
Definition validateRadius (radius : float) : Outcome unit :=
  if is_nan radius
  then Rejected (newError "Radius must be a valid number")
  else if (radius <=? 0)%float
  then Rejected (newError "Radius must be greater than 0")
  else Resolved tt.

Record TimeValue := mkTimeValue {
  tv_hours : option float;
  tv_minutes : option float
}.

(** [formatTimeValue]; an argument that is not a number is [undefined]. *)
Definition formatTimeValue (hours minutes : option float)
  : Outcome TimeValue :=
  match hours with
  | Some h =>
      if (h <? 0)%float || (23 <? h)%float
      then Rejected (newError "Hours must be between 0 and 23")
      else
        match minutes with
        | Some m =>
            if (m <? 0)%float || (59 <? m)%float
            then Rejected (newError "Minutes must be between 0 and 59")
            else Resolved (mkTimeValue (Some h) (Some m))
        | None => Resolved (mkTimeValue (Some h) None)
        end
  | None =>
      match minutes with
      | Some m =>
          if (m <? 0)%float || (59 <? m)%float
          then Rejected (newError "Minutes must be between 0 and 59")
          else Resolved (mkTimeValue None (Some m))
      | None => Resolved (mkTimeValue None None)
      end
  end.

(** [s.endsWith('/')]. *)
Fixpoint ends_with_slash (s : string) : bool :=
  match s with
  | EmptyString => false
  | String c EmptyString => bool_decide (c = "/"%char)
  | String _ s' => ends_with_slash s'
  end.

(** [s.replace(/\/$/, '')]: a slash at the very end is removed. *)
Fixpoint drop_final_slash (s : string) : string :=
  match s with
  | EmptyString => EmptyString
  | String c EmptyString => if bool_decide (c = "/"%char) then EmptyString else s
  | String c s' => String c (drop_final_slash s')
  end.

Section RootServerURL.
(** The built-in [new URL(url)]: the protocol and the href of the parsed
    URL, or the error that the constructor throws. *)
Variable new_URL : string → Outcome (string * string).

(** [validateRootServerURL]. *)
Definition validateRootServerURL (url : string) : Outcome string :=
  let attempt : Outcome string :=
    match new_URL url with
    | Rejected e => Rejected e
    | Resolved (protocol, href) =>
        if negb (bool_decide (protocol ∈ ["http:"; "https:"]))
        then Rejected
               (newError "Root server URL must use http or https protocol")
        else Resolved (drop_final_slash href)
    end in
  match attempt with
  | Resolved s => Resolved s
  | Rejected _ => Rejected (newError ("Invalid root server URL: " +:+ url))
  end.
End RootServerURL.

(** ** Comparisons of binary64 numbers, continued *)

Lemma SFcompare_refl (x : spec_float) :
  x ≠ S754_nan → SFcompare x x = Some Eq.
Proof.
  destruct x as [s|s| |s m e]; simpl; try destruct s; try reflexivity;
    try congruence; intros _; rewrite Z.compare_refl;
    replace (PosDef.Pos.compare_cont Eq m m) with Eq
      by (symmetry; apply Pos.compare_cont_refl); reflexivity.
Qed.

Lemma is_nan_true (x : float) : is_nan x = true → Prim2SF x = S754_nan.
Proof.
  unfold is_nan. rewrite FloatAxioms.eqb_spec. unfold SFeqb. intros H.
  destruct (Prim2SF x) as [s|s| |s m e] eqn:E; try reflexivity;
    rewrite SFcompare_refl in H by discriminate; discriminate.
Qed.

(** No comparison with NaN holds. *)
Lemma nan_compares_false (x y : float) :
  is_nan x = true →
  (x <? y)%float = false ∧ (y <? x)%float = false
  ∧ (x <=? y)%float = false ∧ (y <=? x)%float = false.
Proof.
  intros H. apply is_nan_true in H.
  rewrite !FloatAxioms.ltb_spec, !FloatAxioms.leb_spec.
  unfold SFltb, SFleb. rewrite H.
  destruct (Prim2SF y); repeat split; reflexivity.
Qed.

(** [y <= x] excludes [x < y]. *)
Lemma leb_not_ltb (x y : float) :
  (y <=? x)%float = true → (x <? y)%float = false.
Proof.
  rewrite FloatAxioms.ltb_spec, FloatAxioms.leb_spec. unfold SFltb, SFleb.
  rewrite (SFcompare_antisym (Prim2SF x) (Prim2SF y)).
  destruct (SFcompare (Prim2SF x) (Prim2SF y)) as [[]|]; simpl;
    intros; congruence.
Qed.

(** [0 < x] says that [x] is a number and not [x <= 0]. *)
Lemma ltb_iff_not_leb (x y : float) :
  (y <? x)%float = true ↔ is_nan x = false ∧ is_nan y = false
                          ∧ (x <=? y)%float = false.
Proof.
  split.
  - intros H.
    assert (Hx : is_nan x = false).
    { destruct (is_nan x) eqn:E; [|reflexivity].
      destruct (nan_compares_false x y E) as (_ & H' & _). congruence. }
    assert (Hy : is_nan y = false).
    { destruct (is_nan y) eqn:E; [|reflexivity].
      destruct (nan_compares_false y x E) as (H' & _). congruence. }
    split; [exact Hx|]. split; [exact Hy|].
    revert H. rewrite FloatAxioms.ltb_spec, FloatAxioms.leb_spec.
    unfold SFltb, SFleb.
    rewrite (SFcompare_antisym (Prim2SF y) (Prim2SF x)).
    destruct (SFcompare (Prim2SF y) (Prim2SF x)) as [[]|]; simpl;
      intros; congruence.
  - intros (Hx & Hy & H).
    destruct (y <? x)%float eqn:E; [reflexivity|].
    rewrite (not_ltb_leb y x Hy Hx E) in H. discriminate.
Qed.

(** ** The validators *)

Lemma validateCoordinates_of_valid (c : Coordinates) :
  valid_coordinates c →
  validateCoordinates (latitude c) (longitude c) = Resolved tt.
Proof.
  intros (H1 & H2 & H3 & H4 & H5 & H6). unfold validateCoordinates.
  rewrite H1, H2.
  rewrite (leb_not_ltb _ _ H3), (leb_not_ltb _ _ H4),
    (leb_not_ltb _ _ H5), (leb_not_ltb _ _ H6). reflexivity.
Qed.

(** X7: [validateCoordinates] accepts exactly the coordinates that are numbers
    with a latitude in [-90, 90] and a longitude in [-180, 180]; it reports a
    latitude that is not a number before anything else. *)
Theorem validateCoordinates_accepts_iff (lat lon : float) :
  (validateCoordinates lat lon = Resolved tt
   ↔ valid_coordinates (mkCoordinates lat lon))
  ∧ (is_nan lat = true →
     validateCoordinates lat lon
     = Rejected (newError "Latitude must be a valid number")).
Proof.
  split; [split|].
  - unfold validateCoordinates, valid_coordinates. simpl.
    destruct (is_nan lat) eqn:N1; [discriminate|].
    destruct (is_nan lon) eqn:N2; [discriminate|].
    destruct (lat <? -90)%float eqn:H1; [discriminate|].
    destruct (90 <? lat)%float eqn:H2; [discriminate|].
    destruct (lon <? -180)%float eqn:H3; [discriminate|].
    destruct (180 <? lon)%float eqn:H4; [discriminate|].
    intros _. repeat split; try reflexivity; apply not_ltb_leb; auto.
  - apply (validateCoordinates_of_valid (mkCoordinates lat lon)).
  - intros H. unfold validateCoordinates. rewrite H. reflexivity.
Qed.

(** X8: [validateRadius] accepts exactly the radii above 0, infinity among
    them, and no NaN. *)
Theorem validateRadius_accepts_iff (radius : float) :
  validateRadius radius = Resolved tt ↔ (0 <? radius)%float = true.
Proof.
  rewrite ltb_iff_not_leb. unfold validateRadius.
  destruct (is_nan radius) eqn:N.
  - split; [discriminate|]. intros (H & _). discriminate.
  - destruct (radius <=? 0)%float eqn:L.
    + split; [discriminate|]. intros (_ & _ & H). discriminate.
    + split; [|reflexivity]. intros _. repeat split; reflexivity.
Qed.

Definition within (lo hi : float) (x : option float) : Prop :=
  match x with
  | Some v => (v <? lo)%float = false ∧ (hi <? v)%float = false
  | None => True
  end.

(** X9: [formatTimeValue] returns its arguments unchanged when neither is
    below 0 or above its bound, and throws otherwise; since no comparison with
    NaN holds, NaN passes as hours and as minutes. *)
Theorem formatTimeValue_accepts_iff (hours minutes : option float)
    (tv : TimeValue) :
  (formatTimeValue hours minutes = Resolved tv
   ↔ tv = mkTimeValue hours minutes
     ∧ within 0 23 hours ∧ within 0 59 minutes)
  ∧ (∀ h m, is_nan h = true → is_nan m = true →
       formatTimeValue (Some h) (Some m)
       = Resolved (mkTimeValue (Some h) (Some m))).
Proof.
  split.
  - unfold formatTimeValue, within.
    destruct hours as [h|], minutes as [m|];
      repeat match goal with
        | |- context [(?a <? ?b)%float] => destruct (a <? b)%float eqn:?
        end; simpl;
      (split; [intros [= <-]; auto | intros (-> & A & B)]);
      try reflexivity; try discriminate;
      try (destruct A; discriminate); try (destruct B; discriminate).
  - intros h m Hh Hm. unfold formatTimeValue.
    destruct (nan_compares_false h 0%float Hh) as (A1 & _).
    destruct (nan_compares_false h 23%float Hh) as (_ & A2 & _).
    destruct (nan_compares_false m 0%float Hm) as (B1 & _).
    destruct (nan_compares_false m 59%float Hm) as (_ & B2 & _).
    rewrite A1, A2, B1, B2. reflexivity.
Qed.

(** X10: [validateEndpointFormat] accepts CSV for the NAWS dump only, TSML for
    search results only, and JSON and JSONP for every endpoint but the NAWS
    dump. *)
Theorem validateEndpointFormat_accepts_iff (endpoint : BmltEndpoint)
    (format : BmltDataFormat) :
  validateEndpointFormat endpoint format = Resolved tt
  ↔ match format with
    | CSV => endpoint = GET_NAWS_DUMP
    | TSML => endpoint = GET_SEARCH_RESULTS
    | JSON | JSONP => endpoint ≠ GET_NAWS_DUMP
    end.
Proof.
  destruct endpoint, format; vm_compute; split; intros H;
    try reflexivity; try discriminate; try congruence.
Qed.

Lemma drop_final_slash_spec (s : string) :
  if ends_with_slash s then s = drop_final_slash s +:+ "/"
  else drop_final_slash s = s.
Proof.
  induction s as [|c s IH]; [reflexivity|].
  destruct s as [|c' s'].
  - simpl. case_bool_decide as Hc; [subst c|]; reflexivity.
  - change (ends_with_slash (String c (String c' s')))
      with (ends_with_slash (String c' s')).
    change (drop_final_slash (String c (String c' s')))
      with (String c (drop_final_slash (String c' s'))).
    destruct (ends_with_slash (String c' s')).
    + simpl. rewrite IH at 1. reflexivity.
    + rewrite IH. reflexivity.
Qed.

(** X11: every failure of [validateRootServerURL] carries the same message,
    the one about the protocol never comes out; on success the protocol is
    http or https and the result is the href without its final slash. *)
Theorem validateRootServerURL_outcomes
    (new_URL : string → Outcome (string * string)) (url : string) :
  (∀ e, validateRootServerURL new_URL url = Rejected e →
        e = newError ("Invalid root server URL: " +:+ url))
  ∧ (∀ s, validateRootServerURL new_URL url = Resolved s ↔
       ∃ protocol href,
         new_URL url = Resolved (protocol, href)
         ∧ (protocol = "http:" ∨ protocol = "https:")
         ∧ s = drop_final_slash href
         ∧ (href = s ∨ href = s +:+ "/")).
Proof.
  unfold validateRootServerURL. split.
  - intros e. destruct (new_URL url) as [[protocol href]|e0];
      [destruct (negb _)|]; intros [= <-]; reflexivity.
  - intros s. destruct (new_URL url) as [[protocol href]|e0].
    + case_bool_decide as Hp; simpl.
      * split.
        -- intros [= <-]. exists protocol, href.
           split; [reflexivity|]. split.
           { rewrite !elem_of_cons, elem_of_nil in Hp. tauto. }
           split; [reflexivity|].
           pose proof (drop_final_slash_spec href) as Hs.
           destruct (ends_with_slash href); auto.
        -- intros (p & h & [= <- <-] & _ & -> & _). reflexivity.
      * split; [discriminate|].
        intros (p & h & [= <- <-] & Hp' & _). exfalso. apply Hp.
        rewrite !elem_of_cons. tauto.
    + split; [discriminate|]. intros (p & h & Hn & _). discriminate.
Qed.

(** ** Parameters and [buildBmltURL] *)

(** The values that the parameter interfaces of types/requests.ts allow,
    with [undefined] and [null]: scalars, and arrays of scalars. *)
Inductive Scalar :=
| SUndefined | SNull
| SBool (b : bool) | SNumber (x : float) | SString (s : string).

Inductive Value :=
| VScalar (v : Scalar)
| VArray (items : list Scalar).

(** A parameter object: its entries in the order of [Object.entries], with
    distinct keys. *)
Definition Parameters : Type := list (string * Value).

(** [URLSearchParams.append]. *)
Definition usp_append (key value : string) (q : list (string * string))
  : list (string * string) :=
  q ++ [(key, value)].

(** [URLSearchParams.set]: the first entry of that name gets the value and
    the others of that name go; without one, the entry is appended. *)
Fixpoint usp_replace (key value : string) (q : list (string * string))
  : list (string * string) :=
  match q with
  | [] => []
  | (k, v) :: q' =>
      if bool_decide (k = key)
      then (key, value) :: filter (λ entry, entry.1 ≠ key) q'
      else (k, v) :: usp_replace key value q'
  end.

Definition usp_set (key value : string) (q : list (string * string))
  : list (string * string) :=
  if bool_decide (key ∈ q.*1) then usp_replace key value q
  else usp_append key value q.

Section URLBuilder.
Variable numberToString : float → string.

(** What the loop of [buildBmltURL] does with one entry. *)
Definition add_parameter (queryParams : list (string * string))
    (entry : string * Value) : list (string * string) :=
  let '(key, value) := entry in
  match value with
  | VScalar SUndefined | VScalar SNull => queryParams
  | VArray items =>
      fold_left
        (λ q item,
           match item with
           | SNumber x => usp_append (key +:+ "[]") (numberToString x) q
           | SString s => usp_append (key +:+ "[]") s q
           | _ => q
           end)
        items queryParams
  | VScalar (SBool b) => usp_set key (if b then "1" else "0") queryParams
  | VScalar (SNumber x) => usp_set key (numberToString x) queryParams
  | VScalar (SString s) => usp_set key s queryParams
  end.

(** [buildBmltURL]; the URL is kept as its part before the question mark
    and the list of its query parameters. *)
Definition buildBmltURL (rootServerURL : string) (format : BmltDataFormat)
    (endpoint : BmltEndpoint) (parameters : Parameters) : URL :=
  let baseURL :=
    if ends_with_slash rootServerURL then rootServerURL
    else rootServerURL +:+ "/" in
  let endpointURL :=
    baseURL +:+ "client_interface/" +:+ BmltDataFormat_value format +:+ "/" in
  let queryParams :=
    fold_left add_parameter parameters
      (usp_set "switcher" (BmltEndpoint_value endpoint) []) in
  mkURL endpointURL queryParams.
End URLBuilder.

Section Normalize.
Variable parseFloat : string → float.

Definition normalize_item (item : Scalar) : Scalar :=
  match item with
  | SString s =>
      let num := parseFloat s in
      if is_nan num then item else SNumber num
  | _ => item
  end.

(** What [normalizeParameters] stores for one value; nothing for
    [undefined] and [null]. *)
Definition normalize_value (value : Value) : option Value :=
  match value with
  | VScalar SUndefined | VScalar SNull => None
  | VArray items => Some (VArray (map normalize_item items))
  | VScalar (SString s) =>
      let num := parseFloat s in
      if negb (is_nan num) && is_finite num
      then Some (VScalar (SNumber num))
      else Some value
  | _ => Some value
  end.

(** [normalizeParameters]. *)
Definition normalizeParameters (params : Parameters) : Parameters :=
  omap (λ entry : string * Value,
          match normalize_value entry.2 with
          | Some v => Some (entry.1, v)
          | None => None
          end)
    params.

Lemma omap_cons_eq {A B} (f : A → option B) (x : A) (l : list A) :
  omap f (x :: l)
  = match f x with Some y => y :: omap f l | None => omap f l end.
Proof. reflexivity. Qed.

Lemma normalize_item_idem item :
  normalize_item (normalize_item item) = normalize_item item.
Proof.
  destruct item as [| |b|x|s]; simpl; try reflexivity.
  destruct (is_nan (parseFloat s)) eqn:E; simpl; [rewrite E|]; reflexivity.
Qed.

Lemma normalize_value_idem value v :
  normalize_value value = Some v → normalize_value v = Some v.
Proof.
  destruct value as [[| |b|x|s]|items]; simpl; try discriminate;
    try (intros [= <-]; reflexivity).
  - destruct (andb (negb (is_nan (parseFloat s))) (is_finite (parseFloat s)))
      eqn:E;
      intros [= <-]; simpl; [reflexivity|]. rewrite E. reflexivity.
  - intros [= <-]. simpl. f_equal. f_equal.
    rewrite map_map. apply map_ext. intros. apply normalize_item_idem.
Qed.

(** X12: [normalizeParameters] is idempotent, whatever [parseFloat] does, and
    it never keeps an [undefined] or a [null]. *)
Theorem normalizeParameters_idempotent (params : Parameters) :
  normalizeParameters (normalizeParameters params) = normalizeParameters params
  ∧ ∀ key : string,
      ¬ ((key, VScalar SUndefined) ∈ normalizeParameters params)
      ∧ ¬ ((key, VScalar SNull) ∈ normalizeParameters params).
Proof.
  split.
  - induction params as [|[k v] params IH]; [reflexivity|].
    unfold normalizeParameters in *. rewrite omap_cons_eq. simpl.
    destruct (normalize_value v) as [v'|] eqn:E; [|exact IH].
    rewrite omap_cons_eq. simpl.
    rewrite (normalize_value_idem _ _ E), IH. reflexivity.
  - intros key. unfold normalizeParameters.
    split; intros H; apply list_elem_of_omap in H;
      destruct H as ([k v] & _ & H); simpl in H;
      destruct (normalize_value v) as [v'|] eqn:E; try discriminate;
      injection H as Hk Hv; subst v';
      apply normalize_value_idem in E; discriminate.
Qed.
End Normalize.

Lemma ends_with_slash_app (s : string) : ends_with_slash (s +:+ "/") = true.
Proof.
  induction s as [|c s IH]; [reflexivity|].
  destruct s as [|c' s']; [reflexivity|]. exact IH.
Qed.

Lemma brackets_not_switcher (k : string) : k +:+ "[]" ≠ "switcher".
Proof.
  intros H.
  do 8 (destruct k as [|? k]; simpl in H; [discriminate|];
        injection H as _ H).
  destruct k; discriminate.
Qed.

(** A query that starts with its only [switcher] entry. *)
Definition switcher_first (v : string) (q : list (string * string)) : Prop :=
  ∃ rest, q = ("switcher", v) :: rest ∧ ¬ ("switcher" ∈ rest.*1).

Lemma usp_replace_keys key value q k :
  k ∈ (usp_replace key value q).*1 → k ∈ q.*1.
Proof.
  induction q as [|[k0 v0] q IH]; simpl; [auto|].
  case_bool_decide as Hk; simpl.
  - subst k0. rewrite !elem_of_cons. intros [->|H]; [auto|]. right.
    apply list_elem_of_fmap in H. destruct H as ([k1 v1] & -> & H).
    apply list_elem_of_filter in H. destruct H as [_ H].
    apply list_elem_of_fmap. exists (k1, v1). auto.
  - rewrite !elem_of_cons. intros [->|H]; auto.
Qed.

Lemma switcher_first_append v q key value :
  key ≠ "switcher" → switcher_first v q →
  switcher_first v (usp_append key value q).
Proof.
  intros Hk (rest & -> & Hr). exists (rest ++ [(key, value)]).
  split; [reflexivity|]. rewrite fmap_app, elem_of_app. simpl.
  rewrite list_elem_of_singleton. intros [H|H]; [auto | congruence].
Qed.

Lemma switcher_first_set v q key value :
  switcher_first v q →
  switcher_first (if bool_decide (key = "switcher") then value else v)
    (usp_set key value q).
Proof.
  intros (rest & -> & Hr). unfold usp_set.
  destruct (decide (key = "switcher")) as [->|Hk].
  - rewrite (bool_decide_eq_true_2 ("switcher" = "switcher")) by reflexivity.
    rewrite bool_decide_eq_true_2 by (simpl; apply list_elem_of_here).
    simpl. eexists. split; [reflexivity|]. intros H.
    apply list_elem_of_fmap in H. destruct H as ([k1 v1] & -> & H).
    apply list_elem_of_filter in H. destruct H as [H _]. apply H. reflexivity.
  - rewrite (bool_decide_eq_false_2 (key = "switcher")) by exact Hk.
    destruct (decide (key ∈ (("switcher", v) :: rest).*1)) as [Hin|Hin].
    + rewrite bool_decide_eq_true_2 by exact Hin.
      simpl. rewrite bool_decide_eq_false_2 by congruence.
      eexists. split; [reflexivity|]. intros H.
      apply usp_replace_keys in H. contradiction.
    + rewrite bool_decide_eq_false_2 by exact Hin.
      apply switcher_first_append; [exact Hk|].
      exists rest. auto.
Qed.

(** The value of [switcher] after the loop of [buildBmltURL] has seen one
    more entry: a [switcher] entry that is a boolean, a number or a string
    replaces it, every other entry leaves it. *)
Definition switcher_after (numberToString : float → string) (v : string)
    (entry : string * Value) : string :=
  if bool_decide (entry.1 = "switcher")
  then match entry.2 with
       | VScalar (SBool b) => if b then "1" else "0"
       | VScalar (SNumber x) => numberToString x
       | VScalar (SString s) => s
       | VScalar SUndefined | VScalar SNull | VArray _ => v
       end
  else v.

Lemma switcher_first_add numberToString v q entry :
  switcher_first v q →
  switcher_first (switcher_after numberToString v entry)
    (add_parameter numberToString q entry).
Proof.
  destruct entry as [key value]. unfold switcher_after. simpl. intros Hq.
  destruct value as [[| |b|x|s]|items]; simpl.
  - destruct (bool_decide (key = "switcher")); exact Hq.
  - destruct (bool_decide (key = "switcher")); exact Hq.
  - apply switcher_first_set. exact Hq.
  - apply switcher_first_set. exact Hq.
  - apply switcher_first_set. exact Hq.
  - assert (H : switcher_first v
                  (fold_left
                     (λ q item,
                        match item with
                        | SNumber x =>
                            usp_append (key +:+ "[]") (numberToString x) q
                        | SString s => usp_append (key +:+ "[]") s q
                        | _ => q
                        end)
                     items q)).
    { revert q Hq.
      induction items as [|item items IH]; intros q Hq; simpl; [exact Hq|].
      apply IH. destruct item; try exact Hq;
        apply switcher_first_append; auto using brackets_not_switcher. }
    destruct (bool_decide (key = "switcher")); exact H.
Qed.

Lemma switcher_first_fold numberToString (parameters : Parameters) : ∀ v q,
  switcher_first v q →
  switcher_first (fold_left (switcher_after numberToString) parameters v)
    (fold_left (add_parameter numberToString) parameters q).
Proof.
  induction parameters as [|entry parameters IH]; intros v q Hq; simpl;
    [exact Hq|].
  apply IH. apply switcher_first_add. exact Hq.
Qed.

Lemma switcher_after_others numberToString (parameters : Parameters) : ∀ v,
  ¬ ("switcher" ∈ parameters.*1) →
  fold_left (switcher_after numberToString) parameters v = v.
Proof.
  induction parameters as [|[key value] parameters IH]; intros v Hn; simpl;
    [reflexivity|].
  simpl in Hn. rewrite elem_of_cons in Hn.
  unfold switcher_after at 2. simpl.
  rewrite bool_decide_eq_false_2 by (intros E; apply Hn; left; congruence).
  apply IH. intros H. apply Hn. right. exact H.
Qed.

Lemma switcher_after_own numberToString (parameters : Parameters) value :
  ∀ v,
    NoDup parameters.*1 → ("switcher", value) ∈ parameters →
    fold_left (switcher_after numberToString) parameters v
    = switcher_after numberToString v ("switcher", value).
Proof.
  induction parameters as [|[key value0] parameters IH]; intros v Hnd Hin.
  - apply elem_of_nil in Hin. contradiction.
  - simpl in Hnd. apply NoDup_cons in Hnd. destruct Hnd as [Hkey Hnd].
    apply elem_of_cons in Hin. simpl. destruct Hin as [Hhere|Hlater].
    + injection Hhere as <- <-.
      apply switcher_after_others. exact Hkey.
    + assert (Hne : key ≠ "switcher").
      { intros ->. apply Hkey. apply list_elem_of_fmap.
        exists ("switcher", value). auto. }
      unfold switcher_after at 2. simpl.
      rewrite bool_decide_eq_false_2 by exact Hne.
      apply IH; assumption.
Qed.

(** X13: the URL is the same whether or not the root server URL ends with a
    slash. *)
Theorem buildBmltURL_final_slash numberToString rootServerURL format endpoint
    parameters :
  ends_with_slash rootServerURL = false →
  buildBmltURL numberToString (rootServerURL +:+ "/") format endpoint parameters
  = buildBmltURL numberToString rootServerURL format endpoint parameters.
Proof.
  intros H. unfold buildBmltURL. rewrite ends_with_slash_app, H. reflexivity.
Qed.

(** X14: the query starts with [switcher], which occurs once.  Its value
    is the endpoint when the parameters have no [switcher] of their own;
    when they have one (the keys of an object are distinct), a boolean, a
    number or a string replaces the endpoint by its text, while
    [undefined], [null] and an array leave the endpoint there. *)
Theorem buildBmltURL_switcher_first numberToString rootServerURL format
    endpoint (parameters : Parameters) :
  ∃ v rest,
    url_searchParams
      (buildBmltURL numberToString rootServerURL format endpoint parameters)
    = ("switcher", v) :: rest
    ∧ ¬ ("switcher" ∈ rest.*1)
    ∧ (¬ ("switcher" ∈ parameters.*1) → v = BmltEndpoint_value endpoint)
    ∧ (NoDup parameters.*1 →
       ∀ value, ("switcher", value) ∈ parameters →
         v = match value with
             | VScalar (SBool b) => if b then "1" else "0"
             | VScalar (SNumber x) => numberToString x
             | VScalar (SString s) => s
             | VScalar SUndefined | VScalar SNull | VArray _ =>
                 BmltEndpoint_value endpoint
             end).
Proof.
  unfold buildBmltURL. simpl.
  assert (H0 : switcher_first (BmltEndpoint_value endpoint)
                 (usp_set "switcher" (BmltEndpoint_value endpoint) [])).
  { exists []. split; [reflexivity|]. simpl. apply not_elem_of_nil. }
  destruct (switcher_first_fold numberToString parameters _ _ H0)
    as (rest & Heq & Hrest).
  eexists _, rest. split; [exact Heq|]. split; [exact Hrest|]. split.
  - apply switcher_after_others.
  - intros Hnd value Hin.
    rewrite (switcher_after_own numberToString parameters value _ Hnd Hin).
    unfold switcher_after. simpl. reflexivity.
Qed.

(** * The client of client/bmlt-client.ts *)

(** A synchronous result, as the promise that an [async] function makes of
    it. *)
Definition lift {A} (o : Outcome A) : Promise A := λ w, (o, w).

(** [object[key]] on a parameter object. *)
Fixpoint obj_get (key : string) (o : Parameters) : option Value :=
  match o with
  | [] => None
  | (k, v) :: o' => if bool_decide (k = key) then Some v else obj_get key o'
  end.

(** [{ ...object, key: value }] and [object.key = value]: an entry of that
    name gets the value where it stands, a new entry goes to the end. *)
Fixpoint obj_set (key : string) (value : Value) (o : Parameters) : Parameters :=
  match o with
  | [] => [(key, value)]
  | (k, v) :: o' =>
      if bool_decide (k = key) then (key, value) :: o'
      else (k, v) :: obj_set key value o'
  end.

(** [SearchResultsParams]: the [format] property, which [searchMeetings]
    takes out, and the other properties. *)
Record SearchResultsParams := mkSearchResultsParams {
  sp_format : option BmltDataFormat;
  sp_fields : Parameters
}.

(** [GeographicSearchParams]. *)
Record GeographicSearchParams := mkGeographicSearchParams {
  gs_address : string;
  gs_radiusMiles : option float;
  gs_radiusKm : option float;
  gs_sortByDistance : option bool;
  gs_searchParams : option SearchResultsParams
}.

(** The fields of a [BmltClient]. *)
Record BmltClient := mkBmltClient {
  client_timeout : Z;
  client_userAgent : string;
  geocodingService : option GeocodingService;
  rootServerURL : string;
  defaultFormat : BmltDataFormat
}.

(** [BmltClientOptions]; the geocoding options are those of the
    [GeocodingService] constructor. *)
Record BmltClientOptions := mkBmltClientOptions {
  co_rootServerURL : string;
  co_defaultFormat : option BmltDataFormat;
  co_timeout : option Z;
  co_userAgent : option string;
  co_geocodingOptions : option PartialGeocodeOptions;
  co_intervalCap : option Z;
  co_interval : option Z;
  co_concurrency : option Z;
  co_carryoverConcurrencyCount : option bool;
  co_enableGeocoding : option bool
}.

(** The constructor of [BmltClient]. *)
Definition new_BmltClient (new_URL : string → Outcome (string * string))
    (options : BmltClientOptions) : Outcome BmltClient :=
  match validateRootServerURL new_URL (co_rootServerURL options) with
  | Rejected e => Rejected e
  | Resolved root =>
      Resolved
        {| rootServerURL := root;
           defaultFormat := default JSON (co_defaultFormat options);
           client_timeout := default 30000 (co_timeout options);
           client_userAgent :=
             default "bmlt-query-client/1.0.0" (co_userAgent options);
           geocodingService :=
             if default true (co_enableGeocoding options)
             then Some (new_GeocodingService
                          (default no_options (co_geocodingOptions options))
                          (co_intervalCap options) (co_interval options)
                          (co_concurrency options)
                          (co_carryoverConcurrencyCount options))
             else None |}
  end.

Definition geocodingDisabledError : JsError :=
  newError
    "Geocoding is not enabled. Initialize client with enableGeocoding: true".

Section Client.
Context {T : Type}.
(** The built-ins: [parseFloat], [String(number)], [JSON.parse], the cast
    [responseText as T], and [text.match(new RegExp(source))] giving its
    first group. *)
Variable parseFloat : string → float.
Variable numberToString : float → string.
Variable JSON_parse : string → Outcome T.
Variable as_T : string → T.
Variable RegExp_match : string → string → option string.

(** The two servers: the fate of the [n]-th request when it goes to the
    geocoding provider, and when it goes to the BMLT server. *)
Variable search_net : nat → NetReply (option (list NominatimResponse)).
Variable reverse_net : nat → NetReply (option NominatimResponse).
Variable bmlt_net : nat → NetReply string.

Variable this : BmltClient.

(** [response.text()]. *)
Definition text (response : Response string) (signal : nat) : Promise string :=
  json response signal.

(** [(parameters.callback as string) || 'callback']; the parameter types
    make [callback] a string, and anything else counts as absent. *)
Definition callbackName (parameters : Parameters) : string :=
  match obj_get "callback" parameters with
  | Some (VScalar (SString s)) =>
      if bool_decide (s = EmptyString) then "callback" else s
  | _ => "callback"
  end.

(** The end of [makeRequest]: from the text of the response to the
    result. *)
Definition parse_response (format : BmltDataFormat) (parameters : Parameters)
    (responseText : string) : Outcome T :=
  match format with
  | CSV => Resolved (as_T responseText)
  | JSONP =>
      match RegExp_match (callbackName parameters +:+ "\((.+)\);?$")
              responseText with
      | None => Rejected (newError "Invalid JSONP response format")
      | Some group => JSON_parse group
      end
  | JSON | TSML => JSON_parse responseText
  end.

(** [BmltClient.makeRequest].  The [try] block is split where [response]
    is assigned, so that each half has the [catch] with the [response] it
    sees. *)
Definition makeRequest (endpoint : BmltEndpoint) (parameters : Parameters)
    (format : BmltDataFormat) : Promise T :=
  response ←
    try_catch
      (lift (validateEndpointFormat endpoint format) ;;
       let url :=
         buildBmltURL numberToString (rootServerURL this) format endpoint
           parameters in
       timeoutId ← setTimeout (client_timeout this);
       try_finally (fetch bmlt_net url (client_userAgent this) timeoutId)
         (clearTimeout timeoutId) ≫= λ response, mret (response, timeoutId))
      (λ error, throw (handleFetchError (T := string) error None));
  try_catch
    ((if negb (ok response.1)
      then throw (handleFetchError
                    (newError ("HTTP " +:+ pretty (status response.1) +:+ ": "
                               +:+ statusText response.1))
                    (Some response.1))
      else mret tt) ;;
     responseText ← text response.1 response.2;
     lift (parse_response format parameters responseText))
    (λ error, throw (handleFetchError error (Some response.1))).

(** [BmltClient.searchMeetings]. *)
Definition searchMeetings (params : SearchResultsParams) : Promise T :=
  makeRequest GET_SEARCH_RESULTS (sp_fields params)
    (default (defaultFormat this) (sp_format params)).

Definition no_params : SearchResultsParams := mkSearchResultsParams None [].

(** The radius part of the two geographic searches. *)
Definition with_radius (radiusMiles radiusKm : option float)
    (geoSearchParams : SearchResultsParams) : Outcome SearchResultsParams :=
  match radiusMiles with
  | Some miles =>
      match validateRadius miles with
      | Rejected e => Rejected e
      | Resolved _ =>
          Resolved
            (mkSearchResultsParams (sp_format geoSearchParams)
               (obj_set "geo_width" (VScalar (SNumber miles))
                  (sp_fields geoSearchParams)))
      end
  | None =>
      match radiusKm with
      | Some km =>
          match validateRadius km with
          | Rejected e => Rejected e
          | Resolved _ =>
              Resolved
                (mkSearchResultsParams (sp_format geoSearchParams)
                   (obj_set "geo_width_km" (VScalar (SNumber km))
                      (sp_fields geoSearchParams)))
          end
      | None => Resolved geoSearchParams
      end
  end.

(** [{ ...searchParams, lat_val, long_val, sort_results_by_distance }]. *)
Definition geo_params (searchParams : SearchResultsParams) (c : Coordinates)
    (sortByDistance : bool) : SearchResultsParams :=
  mkSearchResultsParams (sp_format searchParams)
    (obj_set "sort_results_by_distance" (VScalar (SBool sortByDistance))
       (obj_set "long_val" (VScalar (SNumber (longitude c)))
          (obj_set "lat_val" (VScalar (SNumber (latitude c)))
             (sp_fields searchParams)))).

(** [BmltClient.searchMeetingsByAddress]. *)
Definition searchMeetingsByAddress (params : GeographicSearchParams)
  : Promise T :=
  match geocodingService this with
  | None => throw geocodingDisabledError
  | Some service =>
      geocodeResult ←
        geocode parseFloat numberToString search_net service
          (gs_address params) no_options;
      geoSearchParams ←
        lift (with_radius (gs_radiusMiles params) (gs_radiusKm params)
                (geo_params (default no_params (gs_searchParams params))
                   (coordinates geocodeResult)
                   (default true (gs_sortByDistance params))));
      searchMeetings geoSearchParams
  end.

(** [BmltClient.searchMeetingsByCoordinates]. *)
Definition searchMeetingsByCoordinates (c : Coordinates)
    (radiusMiles radiusKm : option float) (searchParams : SearchResultsParams)
  : Promise T :=
  lift (validateCoordinates (latitude c) (longitude c)) ;;
  geoSearchParams ←
    lift (with_radius radiusMiles radiusKm (geo_params searchParams c true));
  searchMeetings geoSearchParams.

(** [BmltClient.geocodeAddress]. *)
Definition geocodeAddress (address : string) (options : PartialGeocodeOptions)
  : Promise GeocodeResult :=
  match geocodingService this with
  | None => throw geocodingDisabledError
  | Some service =>
      geocode parseFloat numberToString search_net service address options
  end.

(** [BmltClient.reverseGeocode]. *)
Definition client_reverseGeocode (c : Coordinates)
    (options : PartialGeocodeOptions) : Promise GeocodeResult :=
  match geocodingService this with
  | None => throw geocodingDisabledError
  | Some service =>
      reverseGeocode parseFloat numberToString reverse_net service c options
  end.
End Client.

(** ** One request to the BMLT server *)

Section ClientProperties.
Context {T : Type}.
Variable parseFloat : string → float.
Variable numberToString : float → string.
Variable JSON_parse : string → Outcome T.
Variable as_T : string → T.
Variable RegExp_match : string → string → option string.
Variable search_net : nat → NetReply (option (list NominatimResponse)).
Variable bmlt_net : nat → NetReply string.
Variable this : BmltClient.

Definition httpStatusError (st : Z) (txt : string) : JsError :=
  createApiError ("HTTP " +:+ pretty st +:+ ": " +:+ txt) (Some st).

(** The outcome of [makeRequest], once the format is accepted, on a given
    reply of the server. *)
Definition request_outcome (format : BmltDataFormat) (parameters : Parameters)
    (reply : NetReply string) : Outcome T :=
  match reply with
  | Responds latency st txt b =>
      if client_timeout this <? latency
      then Rejected (createTimeoutError "Request timeout")
      else
        let response := mkResponse st txt latency b in
        if negb (ok response) then Rejected (httpStatusError st txt)
        else
          match b with
          | BodyJson _ responseText =>
              match parse_response JSON_parse as_T RegExp_match format
                      parameters responseText with
              | Resolved result => Resolved result
              | Rejected e => Rejected (handleFetchError e (Some response))
              end
          | BodyFailure _ err => Rejected (handleFetchError err (Some response))
          end
  | Fails latency err =>
      if client_timeout this <? latency
      then Rejected (createTimeoutError "Request timeout")
      else Rejected (handleFetchError (T := string) err None)
  end.

Definition bmlt_request (endpoint : BmltEndpoint) (parameters : Parameters)
    (format : BmltDataFormat) : Request :=
  mkRequest
    (buildBmltURL numberToString (rootServerURL this) format endpoint parameters)
    "GET" (client_userAgent this).

Lemma makeRequest_run endpoint parameters format w :
  makeRequest numberToString JSON_parse as_T RegExp_match bmlt_net this
    endpoint parameters format w
  = match validateEndpointFormat endpoint format with
    | Rejected e => (Rejected (handleFetchError (T := string) e None), w)
    | Resolved _ =>
        (request_outcome format parameters (bmlt_net (length (requests w))),
         after_request (bmlt_request endpoint parameters format) w)
    end.
Proof.
  unfold makeRequest, lift. unfold_promise.
  destruct (validateEndpointFormat endpoint format) as [[]|e0];
    [|reflexivity].
  unfold request_outcome, bmlt_request, text, fetch, json, setTimeout,
    fires_before, fire, clearTimeout, record_request, after_request, lift,
    httpStatusError.
  simpl.
  destruct (delete_fresh_timer (timers w) (nextTimerId w) (client_timeout this))
    as [D1 D2].
  rewrite lookup_insert_eq.
  destruct (bmlt_net (length (requests w))) as [latency st txt b|latency err];
    simpl.
  - destruct (client_timeout this <? latency) eqn:Hl; simpl.
    + rewrite D2. reflexivity.
    + rewrite D1.
      destruct (negb (ok (mkResponse st txt latency b))) eqn:Hok; simpl.
      * unfold handleFetchError at 1. simpl.
        rewrite Hok. unfold handleFetchError. simpl. rewrite Hok.
        reflexivity.
      * rewrite lookup_delete_eq.
        destruct b as [l responseText|l err]; simpl; [|reflexivity].
        destruct (parse_response _ _ _ _ _ _); reflexivity.
  - destruct (client_timeout this <? latency) eqn:Hl; simpl.
    + rewrite D2. reflexivity.
    + rewrite D1. reflexivity.
Qed.

Lemma handleFetchError_class {U} (e : JsError) (r : option (Response U)) :
  error_class (handleFetchError e r) = BmltQueryErrorCls.
Proof.
  unfold handleFetchError.
  repeat match goal with
    | |- context [if ?c then _ else _] => destruct c
    | |- context [match ?x with Some _ => _ | None => _ end] => destruct x
    end; reflexivity.
Qed.

(** X16: a format that the endpoint does not have is refused before anything
    is sent: the world is unchanged, and the error is an [API_ERROR], which is
    not retryable, with the message of the check. *)
Theorem makeRequest_refuses_format endpoint parameters format w e0 :
  validateEndpointFormat endpoint format = Rejected e0 →
  ∃ e,
    makeRequest numberToString JSON_parse as_T RegExp_match bmlt_net this
      endpoint parameters format w
    = (Rejected e, w)
    ∧ error_type e = Some API_ERROR
    ∧ error_message e = error_message e0
    ∧ error_isRetryable e = false.
Proof.
  intros H. rewrite makeRequest_run, H. eexists. split; [reflexivity|].
  revert H. unfold validateEndpointFormat.
  destruct (negb _); [|discriminate]. intros [= <-]. repeat split.
Qed.

Lemma request_outcome_class format parameters reply e :
  request_outcome format parameters reply = Rejected e →
  error_class e = BmltQueryErrorCls.
Proof.
  unfold request_outcome, httpStatusError.
  destruct reply as [latency st txt b|latency err].
  - destruct (client_timeout this <? latency); [intros [= <-]; reflexivity|].
    destruct (negb _); [intros [= <-]; reflexivity|].
    destruct b as [l responseText|l err].
    + destruct (parse_response _ _ _ _ _ _); [discriminate|].
      intros [= <-]. apply handleFetchError_class.
    + intros [= <-]. apply handleFetchError_class.
  - destruct (client_timeout this <? latency); intros [= <-];
      [reflexivity | apply handleFetchError_class].
Qed.

(** X17: [makeRequest] rejects only with a [BmltQueryError]. Either it sends
    nothing and leaves the world as it is, or it sends one request, and then
    the timer it set is no longer pending and no other timer is touched. *)
Theorem makeRequest_rejections endpoint parameters format w :
  let run :=
    makeRequest numberToString JSON_parse as_T RegExp_match bmlt_net this
      endpoint parameters format w in
  (∀ e, run.1 = Rejected e → error_class e = BmltQueryErrorCls)
  ∧ (run.2 = w
     ∨ (requests run.2
        = requests w ++ [bmlt_request endpoint parameters format]
        ∧ timers run.2 !! nextTimerId w = None
        ∧ ∀ id, id ≠ nextTimerId w → timers run.2 !! id = timers w !! id)).
Proof.
  cbv zeta. rewrite makeRequest_run.
  destruct (validateEndpointFormat endpoint format) as [[]|e0]; simpl.
  - split; [apply request_outcome_class|]. right.
    split; [reflexivity|]. split; [apply lookup_delete_eq|].
    intros id Hid. apply lookup_delete_ne. congruence.
  - split; [|left; reflexivity].
    intros e [= <-]. apply handleFetchError_class.
Qed.

(** X18: a response whose status is not in 200-299 makes [makeRequest] reject
    with the API error of that status, message [HTTP status: text], without
    reading the body: a [SERVER_ERROR] from 500 on, a [RATE_LIMIT_ERROR] for
    429, and so on as [createApiError] has it. *)
Theorem makeRequest_http_error endpoint parameters format w latency st txt b :
  validateEndpointFormat endpoint format = Resolved tt →
  bmlt_net (length (requests w)) = Responds latency st txt b →
  latency ≤ client_timeout this →
  st < 200 ∨ 299 < st →
  (makeRequest numberToString JSON_parse as_T RegExp_match bmlt_net this
     endpoint parameters format w).1
  = Rejected (newBmltQueryError_with
                (if bool_decide (st = 0) then API_ERROR
                 else if 500 <=? st then SERVER_ERROR
                 else if bool_decide (st = 401) || bool_decide (st = 403)
                 then AUTHENTICATION_ERROR
                 else if bool_decide (st = 429) then RATE_LIMIT_ERROR
                 else if 400 <=? st then CLIENT_ERROR
                 else API_ERROR)
                ("HTTP " +:+ pretty st +:+ ": " +:+ txt) (Some st)).
Proof.
  intros Hf Hr Hl Hst. rewrite makeRequest_run, Hf, Hr. simpl.
  replace (client_timeout this <? latency) with false
    by (symmetry; apply Z.ltb_ge; lia).
  unfold ok. simpl.
  replace ((200 <=? st) && (st <=? 299)) with false.
  - reflexivity.
  - symmetry. apply andb_false_iff.
    destruct Hst; [left; apply Z.leb_gt | right; apply Z.leb_gt]; lia.
Qed.

(** X19: the timeout of [makeRequest] covers the wait for the response only:
    once the headers are there in time, the body is read however long it
    takes, where [fetchWithTimeout] gives up with a [TimeoutError]. *)
Theorem makeRequest_body_not_timed endpoint parameters w latency st txt l
    responseText result :
  validateEndpointFormat endpoint JSON = Resolved tt →
  bmlt_net (length (requests w))
  = Responds latency st txt (BodyJson l responseText) →
  200 ≤ st ≤ 299 →
  latency ≤ client_timeout this < latency + l →
  JSON_parse responseText = Resolved result →
  (makeRequest numberToString JSON_parse as_T RegExp_match bmlt_net this
     endpoint parameters JSON w).1
  = Resolved result
  ∧ (fetchWithTimeout bmlt_net
       (buildBmltURL numberToString (rootServerURL this) JSON endpoint
          parameters)
       (client_timeout this) (client_userAgent this) w).1
    = Rejected timeoutError.
Proof.
  intros Hf Hr Hst Hl Hp. split.
  - rewrite makeRequest_run, Hf, Hr. simpl.
    replace (client_timeout this <? latency) with false
      by (symmetry; apply Z.ltb_ge; lia).
    unfold ok. simpl.
    replace (200 <=? st) with true by (symmetry; apply Z.leb_le; lia).
    replace (st <=? 299) with true by (symmetry; apply Z.leb_le; lia).
    simpl. rewrite Hp. reflexivity.
  - rewrite fetchWithTimeout_run, Hr. simpl. rewrite transport_unfold.
    replace (client_timeout this <? latency) with false
      by (symmetry; apply Z.ltb_ge; lia).
    replace (200 <=? st) with true by (symmetry; apply Z.leb_le; lia).
    replace (st <=? 299) with true by (symmetry; apply Z.leb_le; lia).
    simpl.
    replace (client_timeout this <? latency + l) with true
      by (symmetry; apply Z.ltb_lt; lia).
    reflexivity.
Qed.
End ClientProperties.

(** ** Where a parameter ends up in the query *)

(** The entries of a query under one name, in order. *)
Fixpoint entries_named (key : string) (q : list (string * string))
  : list (string * string) :=
  match q with
  | [] => []
  | (k, v) :: q' =>
      if bool_decide (k = key) then (k, v) :: entries_named key q'
      else entries_named key q'
  end.

(** The text that [buildBmltURL] sends for a scalar that is not
    [undefined] or [null]. *)
Definition scalar_text (numberToString : float → string) (v : Scalar)
  : option string :=
  match v with
  | SBool b => Some (if b then "1" else "0")
  | SNumber x => Some (numberToString x)
  | SString s => Some s
  | SUndefined | SNull => None
  end.

Lemma entries_named_app key q1 q2 :
  entries_named key (q1 ++ q2) = entries_named key q1 ++ entries_named key q2.
Proof.
  induction q1 as [|[k v] q1 IH]; simpl; [reflexivity|].
  destruct (bool_decide (k = key)); simpl; rewrite IH; reflexivity.
Qed.

Lemma entries_named_filter key key' q :
  key ≠ key' →
  entries_named key (filter (λ entry : string * string, entry.1 ≠ key') q)
  = entries_named key q.
Proof.
  intros Hne. induction q as [|[k v] q IH]; [reflexivity|].
  rewrite filter_cons. simpl. destruct (decide (k ≠ key')) as [Hk|Hk]; simpl.
  - rewrite IH. reflexivity.
  - rewrite IH. rewrite bool_decide_eq_false_2; [reflexivity|].
    intros ->. apply Hk. exact Hne.
Qed.

Lemma entries_named_replace key key' value q :
  key ≠ key' →
  entries_named key (usp_replace key' value q) = entries_named key q.
Proof.
  intros Hne. induction q as [|[k v] q IH]; [reflexivity|]. simpl.
  case_bool_decide as Hk; simpl.
  - subst k. rewrite !bool_decide_eq_false_2 by congruence.
    apply entries_named_filter. exact Hne.
  - rewrite IH. reflexivity.
Qed.

Lemma entries_named_append_other key key' value q :
  key ≠ key' →
  entries_named key (usp_append key' value q) = entries_named key q.
Proof.
  intros Hne. unfold usp_append. rewrite entries_named_app. simpl.
  rewrite bool_decide_eq_false_2 by congruence. apply app_nil_r.
Qed.

Lemma entries_named_set_other key key' value q :
  key ≠ key' →
  entries_named key (usp_set key' value q) = entries_named key q.
Proof.
  intros Hne. unfold usp_set. destruct (bool_decide _).
  - apply entries_named_replace. exact Hne.
  - apply entries_named_append_other. exact Hne.
Qed.

Lemma entries_named_none key q :
  entries_named key q = [] → ¬ (key ∈ q.*1).
Proof.
  induction q as [|[k v] q IH]; simpl; [intros _; apply not_elem_of_nil|].
  case_bool_decide as Hk; [discriminate|].
  intros H. rewrite elem_of_cons. intros [->|Hin]; [congruence|].
  exact (IH H Hin).
Qed.

Lemma entries_named_set_new key value q :
  entries_named key q = [] →
  entries_named key (usp_set key value q) = [(key, value)].
Proof.
  intros H. unfold usp_set.
  rewrite bool_decide_eq_false_2 by (apply entries_named_none; exact H).
  unfold usp_append. rewrite entries_named_app, H. simpl.
  rewrite bool_decide_eq_true_2 by reflexivity. reflexivity.
Qed.

Section Query.
Variable numberToString : float → string.

Lemma add_parameter_other key q entry :
  entry.1 ≠ key → entry.1 +:+ "[]" ≠ key →
  entries_named key (add_parameter numberToString q entry)
  = entries_named key q.
Proof.
  destruct entry as [k value]. simpl. intros Hk Hb.
  destruct value as [[| |b|x|s]|items]; simpl; try reflexivity;
    try (apply entries_named_set_other; congruence).
  revert q. induction items as [|item items IH]; intros q; simpl;
    [reflexivity|].
  rewrite IH. destruct item; try reflexivity;
    apply entries_named_append_other; congruence.
Qed.

Lemma fold_add_parameter_other key (l : Parameters) : ∀ q,
  ¬ (key ∈ l.*1) → (∀ k, k +:+ "[]" ≠ key) →
  entries_named key (fold_left (add_parameter numberToString) l q)
  = entries_named key q.
Proof.
  induction l as [|entry l IH]; intros q Hk Hb; simpl; [reflexivity|].
  simpl in Hk. rewrite elem_of_cons in Hk.
  rewrite IH by tauto.
  apply add_parameter_other; [|apply Hb].
  intros E. apply Hk. left. symmetry. exact E.
Qed.

Lemma obj_get_split key (o : Parameters) v :
  obj_get key o = Some v →
  ∃ pre post, o = pre ++ (key, v) :: post ∧ ¬ (key ∈ pre.*1).
Proof.
  induction o as [|[k v0] o IH]; simpl; [discriminate|].
  case_bool_decide as Hk.
  - intros [= <-]. subst k. exists [], o. split; [reflexivity|].
    apply not_elem_of_nil.
  - intros H. destruct (IH H) as (pre & post & -> & Hpre).
    exists ((k, v0) :: pre), post. split; [reflexivity|].
    simpl. rewrite elem_of_cons. intros [E|E]; [congruence | auto].
Qed.

(** A scalar parameter shows once in the query, with its text. *)
Lemma query_of_scalar rootServerURL format endpoint (parameters : Parameters)
    key v text :
  NoDup parameters.*1 →
  obj_get key parameters = Some (VScalar v) →
  scalar_text numberToString v = Some text →
  key ≠ "switcher" → (∀ k, k +:+ "[]" ≠ key) →
  entries_named key
    (url_searchParams
       (buildBmltURL numberToString rootServerURL format endpoint parameters))
  = [(key, text)].
Proof.
  intros Hnd Hget Htext Hsw Hb. unfold buildBmltURL. simpl.
  destruct (obj_get_split _ _ _ Hget) as (pre & post & -> & Hpre).
  rewrite fmap_app, fmap_cons in Hnd. simpl in Hnd.
  apply NoDup_app in Hnd. destruct Hnd as (_ & _ & Hnd).
  apply NoDup_cons in Hnd. destruct Hnd as [Hpost _].
  rewrite fold_left_app. simpl.
  rewrite fold_add_parameter_other by assumption.
  assert (H1 : entries_named key
                 (fold_left (add_parameter numberToString) pre
                    (usp_set "switcher" (BmltEndpoint_value endpoint) []))
               = []).
  { rewrite fold_add_parameter_other by assumption.
    unfold usp_set, usp_append. simpl.
    rewrite bool_decide_eq_false_2 by congruence. reflexivity. }
  destruct v as [| |b|x|s]; simpl in Htext; try discriminate;
    injection Htext as <-; apply entries_named_set_new; exact H1.
Qed.

(** X15: with distinct parameter names, a scalar parameter that is not
    [undefined] or [null] is in the query exactly once, with the text of its
    value: 1 or 0 for a boolean. *)
Theorem buildBmltURL_scalar_once rootServerURL format endpoint
    (parameters : Parameters) key v text :
  NoDup parameters.*1 →
  obj_get key parameters = Some (VScalar v) →
  scalar_text numberToString v = Some text →
  key ≠ "switcher" → (∀ k, k +:+ "[]" ≠ key) →
  entries_named key
    (url_searchParams
       (buildBmltURL numberToString rootServerURL format endpoint parameters))
  = [(key, text)].
Proof. apply query_of_scalar. Qed.
End Query.

(** ** Parameter objects *)

Lemma obj_get_set_eq key value (o : Parameters) :
  obj_get key (obj_set key value o) = Some value.
Proof.
  induction o as [|[k v] o IH]; simpl.
  - rewrite bool_decide_eq_true_2 by reflexivity. reflexivity.
  - case_bool_decide as Hk; simpl.
    + rewrite bool_decide_eq_true_2 by reflexivity. reflexivity.
    + rewrite bool_decide_eq_false_2 by exact Hk. exact IH.
Qed.

Lemma obj_get_set_ne key key' value (o : Parameters) :
  key ≠ key' → obj_get key (obj_set key' value o) = obj_get key o.
Proof.
  intros Hne. induction o as [|[k v] o IH]; simpl.
  - rewrite bool_decide_eq_false_2 by congruence. reflexivity.
  - case_bool_decide as Hk; simpl.
    + subst k. rewrite !bool_decide_eq_false_2 by congruence. reflexivity.
    + destruct (bool_decide (k = key)); [reflexivity | exact IH].
Qed.

Lemma obj_set_keys key value (o : Parameters) k :
  k ∈ (obj_set key value o).*1 ↔ k = key ∨ k ∈ o.*1.
Proof.
  induction o as [|[k0 v0] o IH]; simpl.
  - rewrite list_elem_of_singleton, elem_of_nil. tauto.
  - case_bool_decide as Hk; simpl; rewrite !elem_of_cons.
    + subst k0. tauto.
    + rewrite IH. tauto.
Qed.

Lemma obj_set_NoDup key value (o : Parameters) :
  NoDup o.*1 → NoDup (obj_set key value o).*1.
Proof.
  induction o as [|[k v] o IH]; simpl; intros Hnd.
  - apply NoDup_singleton.
  - apply NoDup_cons in Hnd. destruct Hnd as [Hk Hnd].
    case_bool_decide as Hkey; simpl; apply NoDup_cons.
    + subst k. auto.
    + split; [|auto]. rewrite obj_set_keys. intros [E|E]; [congruence|auto].
Qed.

(** ** The geographic searches *)

Lemma validateRadius_cases (radius : float) :
  ((0 <? radius)%float = true ∧ validateRadius radius = Resolved tt)
  ∨ ((0 <? radius)%float = false
     ∧ ∃ e, validateRadius radius = Rejected e ∧ error_class e = ErrorCls).
Proof.
  unfold validateRadius.
  destruct (0 <? radius)%float eqn:H.
  - left. split; [reflexivity|].
    apply ltb_iff_not_leb in H. destruct H as (-> & _ & ->). reflexivity.
  - right. split; [reflexivity|].
    destruct (is_nan radius) eqn:N; [eexists; split; reflexivity|].
    destruct (radius <=? 0)%float eqn:L; [eexists; split; reflexivity|].
    exfalso.
    assert (H' : (0 <? radius)%float = true)
      by (apply ltb_iff_not_leb; repeat split; assumption).
    congruence.
Qed.

Lemma validateCoordinates_cases (c : Coordinates) :
  (valid_coordinates c
   ∧ validateCoordinates (latitude c) (longitude c) = Resolved tt)
  ∨ (¬ valid_coordinates c
     ∧ ∃ e, validateCoordinates (latitude c) (longitude c) = Rejected e
          ∧ error_class e = ErrorCls).
Proof.
  destruct (validateCoordinates (latitude c) (longitude c)) as [[]|e] eqn:E.
  - left. split; [|reflexivity]. revert E.
    unfold validateCoordinates, valid_coordinates.
    destruct (is_nan (latitude c)) eqn:N1; [discriminate|].
    destruct (is_nan (longitude c)) eqn:N2; [discriminate|].
    destruct (latitude c <? -90)%float eqn:H1; [discriminate|].
    destruct (90 <? latitude c)%float eqn:H2; [discriminate|].
    destruct (longitude c <? -180)%float eqn:H3; [discriminate|].
    destruct (180 <? longitude c)%float eqn:H4; [discriminate|].
    intros _. repeat split; try reflexivity; apply not_ltb_leb; auto.
  - right. split.
    + intros Hv. rewrite (validateCoordinates_of_valid c Hv) in E.
      discriminate.
    + exists e. split; [reflexivity|]. revert E. unfold validateCoordinates.
      repeat match goal with
        | |- context [if ?b then _ else _] => destruct b
        end; intros [= <-]; reflexivity.
Qed.

Lemma brackets_not_lat_val (k : string) : k +:+ "[]" ≠ "lat_val".
Proof.
  intros H.
  do 7 (destruct k as [|? k]; simpl in H; [discriminate|];
        injection H as _ H).
  destruct k; discriminate.
Qed.

Lemma brackets_not_long_val (k : string) : k +:+ "[]" ≠ "long_val".
Proof.
  intros H.
  do 8 (destruct k as [|? k]; simpl in H; [discriminate|];
        injection H as _ H).
  destruct k; discriminate.
Qed.

(** A radius that the search accepts: the one in miles when there is one,
    else the one in kilometres when there is one. *)
Definition radius_accepted (radiusMiles radiusKm : option float) : Prop :=
  match radiusMiles, radiusKm with
  | Some miles, _ => (0 <? miles)%float = true
  | None, Some km => (0 <? km)%float = true
  | None, None => True
  end.

Lemma with_radius_accepted radiusMiles radiusKm (p : SearchResultsParams) :
  radius_accepted radiusMiles radiusKm →
  ∃ p', with_radius radiusMiles radiusKm p = Resolved p'
    ∧ sp_format p' = sp_format p
    ∧ (NoDup (sp_fields p).*1 → NoDup (sp_fields p').*1)
    ∧ ∀ key, key ≠ "geo_width" → key ≠ "geo_width_km" →
        obj_get key (sp_fields p') = obj_get key (sp_fields p).
Proof.
  unfold radius_accepted, with_radius.
  destruct radiusMiles as [miles|]; [|destruct radiusKm as [km|]]; intros H.
  - destruct (validateRadius_cases miles) as [[_ ->]|[H' _]]; [|congruence].
    eexists. split; [reflexivity|]. simpl. split; [reflexivity|].
    split; [apply obj_set_NoDup|].
    intros key H1 H2. apply obj_get_set_ne. exact H1.
  - destruct (validateRadius_cases km) as [[_ ->]|[H' _]]; [|congruence].
    eexists. split; [reflexivity|]. simpl. split; [reflexivity|].
    split; [apply obj_set_NoDup|].
    intros key H1 H2. apply obj_get_set_ne. exact H2.
  - exists p. auto.
Qed.

Section ClientMethods.
Context {T : Type}.
Variable parseFloat : string → float.
Variable numberToString : float → string.
Variable JSON_parse : string → Outcome T.
Variable as_T : string → T.
Variable RegExp_match : string → string → option string.
Variable search_net : nat → NetReply (option (list NominatimResponse)).
Variable bmlt_net : nat → NetReply string.
Variable this : BmltClient.

(** X20: [searchMeetingsByCoordinates] checks its arguments before it sends
    anything: coordinates that are not valid, and a radius in miles that is
    not above 0, are refused with a plain [Error] and the world unchanged.
    With a radius in miles the one in kilometres is not even looked at. *)
Theorem searchMeetingsByCoordinates_checks_first c radiusMiles radiusKm
    searchParams w :
  let search miles km :=
    searchMeetingsByCoordinates numberToString JSON_parse as_T RegExp_match
      bmlt_net this c miles km searchParams w in
  (¬ valid_coordinates c →
   ∃ e, search radiusMiles radiusKm = (Rejected e, w)
      ∧ error_class e = ErrorCls)
  ∧ (∀ miles, radiusMiles = Some miles → (0 <? miles)%float = false →
     ∃ e, search radiusMiles radiusKm = (Rejected e, w)
        ∧ error_class e = ErrorCls)
  ∧ (∀ miles km, search (Some miles) km = search (Some miles) None).
Proof.
  cbv zeta. unfold searchMeetingsByCoordinates, lift. unfold_promise.
  split; [|split].
  - intros Hc.
    destruct (validateCoordinates_cases c) as [[Hv _]|[_ (e & -> & He)]];
      [contradiction|].
    exists e. auto.
  - intros miles -> Hm.
    destruct (validateCoordinates_cases c) as [[_ ->]|[_ (e & -> & He)]];
      [|exists e; auto].
    unfold with_radius.
    destruct (validateRadius_cases miles) as [[H' _]|[_ (e & -> & He)]];
      [congruence|].
    exists e. auto.
  - intros miles km. reflexivity.
Qed.

(** X21: the failures of [searchMeetingsByAddress] before the search: without
    a geocoding service it rejects at once with a plain [Error]; when
    [geocode] rejects, its error comes out as it is and nothing is sent to the
    BMLT server; a radius that is not above 0 is found only after the address
    was geocoded. *)
Theorem searchMeetingsByAddress_failures (params : GeographicSearchParams) w :
  let search :=
    searchMeetingsByAddress parseFloat numberToString JSON_parse as_T
      RegExp_match search_net bmlt_net this params w in
  (geocodingService this = None →
   search = (Rejected geocodingDisabledError, w))
  ∧ (∀ service e w1,
       geocodingService this = Some service →
       geocode parseFloat numberToString search_net service
         (gs_address params) no_options w = (Rejected e, w1) →
       search = (Rejected e, w1))
  ∧ (∀ service r w1 miles,
       geocodingService this = Some service →
       geocode parseFloat numberToString search_net service
         (gs_address params) no_options w = (Resolved r, w1) →
       gs_radiusMiles params = Some miles → (0 <? miles)%float = false →
       ∃ e, search = (Rejected e, w1) ∧ error_class e = ErrorCls).
Proof.
  cbv zeta. unfold searchMeetingsByAddress, lift. unfold_promise.
  split; [|split].
  - intros ->. reflexivity.
  - intros service e w1 -> ->. reflexivity.
  - intros service r w1 miles -> -> -> Hm. unfold with_radius.
    destruct (validateRadius_cases miles) as [[H' _]|[_ (e & -> & He)]];
      [congruence|].
    exists e. auto.
Qed.

Lemma searchMeetingsByAddress_sends (params : GeographicSearchParams)
    service r w w1 :
  let searchParams := default no_params (gs_searchParams params) in
  geocodingService this = Some service →
  geocode parseFloat numberToString search_net service
    (gs_address params) no_options w = (Resolved r, w1) →
  radius_accepted (gs_radiusMiles params) (gs_radiusKm params) →
  NoDup (sp_fields searchParams).*1 →
  validateEndpointFormat GET_SEARCH_RESULTS
    (default (defaultFormat this) (sp_format searchParams)) = Resolved tt →
  ∃ request,
    requests
      (searchMeetingsByAddress parseFloat numberToString JSON_parse as_T
         RegExp_match search_net bmlt_net this params w).2
    = requests w1 ++ [request]
    ∧ entries_named "lat_val" (url_searchParams (req_url request))
      = [("lat_val", numberToString (latitude (coordinates r)))]
    ∧ entries_named "long_val" (url_searchParams (req_url request))
      = [("long_val", numberToString (longitude (coordinates r)))].
Proof.
  cbv zeta. intros Hs Hg Hrad Hnd Hfmt.
  set (sp := default no_params (gs_searchParams params)) in *.
  set (gp := geo_params sp (coordinates r)
               (default true (gs_sortByDistance params))).
  destruct (with_radius_accepted _ _ gp Hrad) as (gp' & Hw & Hf & Hnd' & Hget).
  unfold searchMeetingsByAddress, lift. unfold_promise.
  rewrite Hs, Hg. fold sp. fold gp. rewrite Hw.
  unfold searchMeetings. rewrite makeRequest_run, Hf. simpl sp_format.
  rewrite Hfmt. simpl.
  eexists. split; [reflexivity|]. simpl.
  assert (Hnd2 : NoDup (sp_fields gp').*1).
  { apply Hnd'. simpl. repeat apply obj_set_NoDup. exact Hnd. }
  split.
  - apply (query_of_scalar numberToString (rootServerURL this)
             (default (defaultFormat this) (sp_format gp))
             GET_SEARCH_RESULTS (sp_fields gp') "lat_val"
             (SNumber (latitude (coordinates r))));
      [exact Hnd2 | | reflexivity | discriminate | apply brackets_not_lat_val].
    rewrite Hget by discriminate. simpl.
    rewrite !obj_get_set_ne by discriminate. apply obj_get_set_eq.
  - apply (query_of_scalar numberToString (rootServerURL this)
             (default (defaultFormat this) (sp_format gp))
             GET_SEARCH_RESULTS (sp_fields gp') "long_val"
             (SNumber (longitude (coordinates r))));
      [exact Hnd2 | | reflexivity | discriminate | apply brackets_not_long_val].
    rewrite Hget by discriminate. simpl.
    rewrite obj_get_set_ne by discriminate. apply obj_get_set_eq.
Qed.

(** X22: when the address is geocoded, the search that goes out is centred on
    the coordinates found: the query has exactly one [lat_val] and one
    [long_val], those of the result, whatever the search parameters held. *)
Theorem searchMeetingsByAddress_centre (params : GeographicSearchParams)
    service r w w1 :
  let searchParams := default no_params (gs_searchParams params) in
  geocodingService this = Some service →
  geocode parseFloat numberToString search_net service
    (gs_address params) no_options w = (Resolved r, w1) →
  radius_accepted (gs_radiusMiles params) (gs_radiusKm params) →
  NoDup (sp_fields searchParams).*1 →
  validateEndpointFormat GET_SEARCH_RESULTS
    (default (defaultFormat this) (sp_format searchParams)) = Resolved tt →
  ∃ request,
    requests
      (searchMeetingsByAddress parseFloat numberToString JSON_parse as_T
         RegExp_match search_net bmlt_net this params w).2
    = requests w1 ++ [request]
    ∧ entries_named "lat_val" (url_searchParams (req_url request))
      = [("lat_val", numberToString (latitude (coordinates r)))]
    ∧ entries_named "long_val" (url_searchParams (req_url request))
      = [("long_val", numberToString (longitude (coordinates r)))].
Proof. apply searchMeetingsByAddress_sends. Qed.
End ClientMethods.

(** * The query builder of client/query-builder.ts *)

(** [Weekday], [VenueType], [SortKey] and [Language] of types/base.ts with
    their values. *)
Inductive Weekday :=
| SUNDAY | MONDAY | TUESDAY | WEDNESDAY | THURSDAY | FRIDAY | SATURDAY.

Definition Weekday_value (d : Weekday) : float :=
  match d with
  | SUNDAY => 1 | MONDAY => 2 | TUESDAY => 3 | WEDNESDAY => 4
  | THURSDAY => 5 | FRIDAY => 6 | SATURDAY => 7
  end%float.

Inductive VenueType := IN_PERSON | VIRTUAL | HYBRID.

Definition VenueType_value (t : VenueType) : float :=
  match t with IN_PERSON => 1 | VIRTUAL => 2 | HYBRID => 3 end%float.

Inductive SortKey :=
| SORT_WEEKDAY | SORT_TIME | SORT_TOWN | SORT_STATE | SORT_WEEKDAY_STATE.

Definition SortKey_value (k : SortKey) : string :=
  match k with
  | SORT_WEEKDAY => "weekday" | SORT_TIME => "time" | SORT_TOWN => "town"
  | SORT_STATE => "state" | SORT_WEEKDAY_STATE => "weekday_state"
  end.

Inductive Language :=
| ENGLISH | GERMAN | DANISH | SPANISH | PERSIAN | FRENCH | ITALIAN | POLISH
| PORTUGUESE | SWEDISH.

Definition Language_value (l : Language) : string :=
  match l with
  | ENGLISH => "en" | GERMAN => "de" | DANISH => "dk" | SPANISH => "es"
  | PERSIAN => "fa" | FRENCH => "fr" | ITALIAN => "it" | POLISH => "pl"
  | PORTUGUESE => "pt" | SWEDISH => "sv"
  end.

(** An argument of type [number | number[]]. *)
Inductive Ids :=
| OneId (id : float)
| ManyIds (ids : list float).

(** [exclude ? ids.map(id => -id) : ids], and the same for one id. *)
Definition signed_ids (ids : Ids) (exclude : bool) : Value :=
  match ids with
  | OneId id => VScalar (SNumber (if exclude then (- id)%float else id))
  | ManyIds l =>
      VArray (SNumber <$> (if exclude then map PrimFloat.opp l else l))
  end.

(** [values.length === 1 ? values[0] : values]. *)
Definition one_or_all (values : list float) : Value :=
  match values with
  | [x] => VScalar (SNumber x)
  | _ => VArray (SNumber <$> values)
  end.

(** The state of a [MeetingQueryBuilder]: its [params]. *)
Definition set_param (key : string) (value : Value)
    (params : SearchResultsParams) : SearchResultsParams :=
  mkSearchResultsParams (sp_format params)
    (obj_set key value (sp_fields params)).

Definition number (x : float) : Value := VScalar (SNumber x).
Definition boolean (b : bool) : Value := VScalar (SBool b).
Definition str (s : string) : Value := VScalar (SString s).

(** The methods that set parameters; an argument with a default is given
    by the caller. *)
Definition meetingIds (ids : Ids) (exclude : bool) :=
  set_param "meeting_ids" (signed_ids ids exclude).

Definition onWeekdays (days : list Weekday) :=
  set_param "weekdays" (one_or_all (Weekday_value <$> days)).

Definition notOnWeekdays (days : list Weekday) :=
  set_param "weekdays"
    (one_or_all ((λ day, (- Weekday_value day)%float) <$> days)).

Definition venueTypes (types : list VenueType) :=
  set_param "venue_types" (one_or_all (VenueType_value <$> types)).

Definition inPersonOnly := venueTypes [IN_PERSON].
Definition virtualOnly := venueTypes [VIRTUAL].
Definition hybridOnly := venueTypes [HYBRID].
Definition virtualOrHybrid := venueTypes [VIRTUAL; HYBRID].

Definition formats (formatIds : Ids) (exclude : bool) :=
  set_param "formats" (signed_ids formatIds exclude).

Definition anyFormat := set_param "formats_comparison_operator" (str "OR").

Definition serviceBodies (serviceBodyIds : Ids) (exclude : bool) :=
  set_param "services" (signed_ids serviceBodyIds exclude).

Definition includeChildServiceBodies := set_param "recursive" (boolean true).

Definition searchText (text : string) := set_param "SearchString" (str text).

Definition startingAfter (hours minutes : float) params :=
  set_param "StartsAfterM" (number minutes)
    (set_param "StartsAfterH" (number hours) params).

Definition startingBefore (hours minutes : float) params :=
  set_param "StartsBeforeM" (number minutes)
    (set_param "StartsBeforeH" (number hours) params).

Definition endingBefore (hours minutes : float) params :=
  set_param "EndsBeforeM" (number minutes)
    (set_param "EndsBeforeH" (number hours) params).

Definition minimumDuration (hours minutes : float) params :=
  let params1 :=
    if (0 <? hours)%float then set_param "MinDurationH" (number hours) params
    else params in
  if (0 <? minutes)%float
  then set_param "MinDurationM" (number minutes) params1
  else params1.

Definition maximumDuration (hours minutes : float) params :=
  let params1 :=
    if (0 <? hours)%float then set_param "MaxDurationH" (number hours) params
    else params in
  if (0 <? minutes)%float
  then set_param "MaxDurationM" (number minutes) params1
  else params1.

Definition nearCoordinates (c : Coordinates)
    (radiusMiles radiusKm : option float) params :=
  let params2 :=
    set_param "long_val" (number (longitude c))
      (set_param "lat_val" (number (latitude c)) params) in
  match radiusMiles, radiusKm with
  | Some miles, _ => set_param "geo_width" (number miles) params2
  | None, Some km => set_param "geo_width_km" (number km) params2
  | None, None => params2
  end.

Definition fieldValue (fieldKey value : string) params :=
  set_param "meeting_key_value" (str value)
    (set_param "meeting_key" (str fieldKey) params).

Definition selectFields (fields : list string) :=
  set_param "data_field_key" (str (join "," fields)).

Definition sortBy (fields : list string) :=
  set_param "sort_keys" (str (join "," fields)).

Definition sortByAlias (alias : SortKey) :=
  set_param "sort_key" (str (SortKey_value alias)).

Definition sortByDistance :=
  set_param "sort_results_by_distance" (boolean true).

Definition paginate (pageSize pageNumber : float) params :=
  set_param "page_num" (number pageNumber)
    (set_param "page_size" (number pageSize) params).

Definition includeUnpublished := set_param "advanced_published" (number 0).

Definition unpublishedOnly := set_param "advanced_published" (number (-1)).

Definition language (lang : Language) :=
  set_param "lang_enum" (str (Language_value lang)).

(** [format]: the property that [searchMeetings] takes out. *)
Definition format (f : BmltDataFormat) (params : SearchResultsParams) :=
  mkSearchResultsParams (Some f) (sp_fields params).

Definition includeFormats := set_param "get_used_formats" (boolean true).

Definition formatsOnly params :=
  set_param "get_formats_only" (boolean true)
    (set_param "get_used_formats" (boolean true) params).

Definition rootServerIds (serverIds : Ids) (exclude : bool) :=
  set_param "root_server_ids" (signed_ids serverIds exclude).

(** [reset]. *)
Definition reset (params : SearchResultsParams) : SearchResultsParams :=
  mkSearchResultsParams None [].

(** One call of a method that sets parameters, with its arguments. *)
Inductive Call :=
| call_meetingIds (ids : Ids) (exclude : bool)
| call_onWeekdays (days : list Weekday)
| call_notOnWeekdays (days : list Weekday)
| call_venueTypes (types : list VenueType)
| call_inPersonOnly | call_virtualOnly | call_hybridOnly
| call_virtualOrHybrid
| call_formats (ids : Ids) (exclude : bool)
| call_anyFormat
| call_serviceBodies (ids : Ids) (exclude : bool)
| call_includeChildServiceBodies
| call_searchText (text : string)
| call_startingAfter (hours minutes : float)
| call_startingBefore (hours minutes : float)
| call_endingBefore (hours minutes : float)
| call_minimumDuration (hours minutes : float)
| call_maximumDuration (hours minutes : float)
| call_nearCoordinates (c : Coordinates) (radiusMiles radiusKm : option float)
| call_fieldValue (fieldKey value : string)
| call_selectFields (fields : list string)
| call_sortBy (fields : list string)
| call_sortByAlias (alias : SortKey)
| call_sortByDistance
| call_paginate (pageSize pageNumber : float)
| call_includeUnpublished | call_unpublishedOnly
| call_language (lang : Language)
| call_format (f : BmltDataFormat)
| call_includeFormats | call_formatsOnly
| call_rootServerIds (ids : Ids) (exclude : bool)
| call_reset.

Definition run_call (c : Call) : SearchResultsParams → SearchResultsParams :=
  match c with
  | call_meetingIds ids exclude => meetingIds ids exclude
  | call_onWeekdays days => onWeekdays days
  | call_notOnWeekdays days => notOnWeekdays days
  | call_venueTypes types => venueTypes types
  | call_inPersonOnly => inPersonOnly
  | call_virtualOnly => virtualOnly
  | call_hybridOnly => hybridOnly
  | call_virtualOrHybrid => virtualOrHybrid
  | call_formats ids exclude => formats ids exclude
  | call_anyFormat => anyFormat
  | call_serviceBodies ids exclude => serviceBodies ids exclude
  | call_includeChildServiceBodies => includeChildServiceBodies
  | call_searchText text => searchText text
  | call_startingAfter h m => startingAfter h m
  | call_startingBefore h m => startingBefore h m
  | call_endingBefore h m => endingBefore h m
  | call_minimumDuration h m => minimumDuration h m
  | call_maximumDuration h m => maximumDuration h m
  | call_nearCoordinates c miles km => nearCoordinates c miles km
  | call_fieldValue k v => fieldValue k v
  | call_selectFields fields => selectFields fields
  | call_sortBy fields => sortBy fields
  | call_sortByAlias alias => sortByAlias alias
  | call_sortByDistance => sortByDistance
  | call_paginate size num => paginate size num
  | call_includeUnpublished => includeUnpublished
  | call_unpublishedOnly => unpublishedOnly
  | call_language lang => language lang
  | call_format f => format f
  | call_includeFormats => includeFormats
  | call_formatsOnly => formatsOnly
  | call_rootServerIds ids exclude => rootServerIds ids exclude
  | call_reset => reset
  end.

(** A chain of calls on a new builder, first call first. *)
Definition built (calls : list Call) : SearchResultsParams :=
  fold_left (λ params c, run_call c params) calls (mkSearchResultsParams None []).

(** ** Properties of the builder *)

Lemma set_param_NoDup key value params :
  NoDup (sp_fields params).*1 →
  NoDup (sp_fields (set_param key value params)).*1.
Proof. apply obj_set_NoDup. Qed.

Lemma run_call_NoDup (c : Call) params :
  NoDup (sp_fields params).*1 → NoDup (sp_fields (run_call c params)).*1.
Proof.
  intros H.
  destruct c; simpl;
    unfold meetingIds, onWeekdays, notOnWeekdays, venueTypes, inPersonOnly,
      virtualOnly, hybridOnly, virtualOrHybrid, venueTypes, formats,
      anyFormat, serviceBodies, includeChildServiceBodies, searchText,
      startingAfter, startingBefore, endingBefore, minimumDuration,
      maximumDuration, nearCoordinates, fieldValue, selectFields, sortBy,
      sortByAlias, sortByDistance, paginate, includeUnpublished,
      unpublishedOnly, language, format, includeFormats, formatsOnly,
      rootServerIds, reset;
    repeat match goal with
      | |- context [if ?b then _ else _] => destruct b
      | |- context [match ?x with Some _ => _ | None => _ end] => destruct x
      end;
    unfold set_param; simpl;
    repeat apply obj_set_NoDup; try exact H; apply NoDup_nil_2.
Qed.

(** The parameters that a chain of calls builds never have a name twice. *)
Lemma built_NoDup (calls : list Call) : NoDup (sp_fields (built calls)).*1.
Proof.
  unfold built.
  assert (H : NoDup (sp_fields (mkSearchResultsParams None [])).*1)
    by apply NoDup_nil_2.
  revert H. generalize (mkSearchResultsParams None []).
  induction calls as [|c calls IH]; intros params H; simpl; [exact H|].
  apply IH. apply run_call_NoDup. exact H.
Qed.

(** X23: [minimumDuration] sets only what is above 0: with nothing above 0 the
    builder is as before, so a minimum set earlier stays; hours that are not
    above 0 leave [MinDurationH] as it was. *)
Theorem minimumDuration_keeps_earlier (hours minutes : float) params :
  ((0 <? hours)%float = false → (0 <? minutes)%float = false →
   minimumDuration hours minutes params = params)
  ∧ ((0 <? hours)%float = false →
     obj_get "MinDurationH" (sp_fields (minimumDuration hours minutes params))
     = obj_get "MinDurationH" (sp_fields params))
  ∧ ((0 <? hours)%float = true →
     obj_get "MinDurationH" (sp_fields (minimumDuration hours minutes params))
     = Some (number hours)).
Proof.
  unfold minimumDuration, set_param. split; [|split].
  - intros -> ->. reflexivity.
  - intros ->. destruct (0 <? minutes)%float; simpl; [|reflexivity].
    apply obj_get_set_ne. discriminate.
  - intros ->. destruct (0 <? minutes)%float; simpl.
    + rewrite obj_get_set_ne by discriminate. apply obj_get_set_eq.
    + apply obj_get_set_eq.
Qed.

Section BuilderExecute.
Context {T : Type}.
Variable parseFloat : string → float.
Variable numberToString : float → string.
Variable JSON_parse : string → Outcome T.
Variable as_T : string → T.
Variable RegExp_match : string → string → option string.
Variable search_net : nat → NetReply (option (list NominatimResponse)).
Variable bmlt_net : nat → NetReply string.
Variable client : BmltClient.

(** [MeetingQueryBuilder.execute]. *)
Definition execute (params : SearchResultsParams) : Promise T :=
  searchMeetings numberToString JSON_parse as_T RegExp_match bmlt_net client
    params.

(** [MeetingQueryBuilder.executeNearAddress]. *)
Definition executeNearAddress (params : SearchResultsParams) (address : string)
    (radiusMiles radiusKm : option float) (sortByDistance : bool)
  : Promise T :=
  searchMeetingsByAddress parseFloat numberToString JSON_parse as_T
    RegExp_match search_net bmlt_net client
    {| gs_address := address; gs_radiusMiles := radiusMiles;
       gs_radiusKm := radiusKm; gs_sortByDistance := Some sortByDistance;
       gs_searchParams := Some params |}.

(** X24: whatever calls built the query, [nearCoordinates] among them,
    [executeNearAddress] searches around the geocoded address: the query sent
    has one [lat_val] and one [long_val], those of the result of [geocode]. *)
Theorem executeNearAddress_centre (calls : list Call) address radiusMiles
    radiusKm sortByDistance service r w w1 :
  geocodingService client = Some service →
  geocode parseFloat numberToString search_net service address no_options w
  = (Resolved r, w1) →
  radius_accepted radiusMiles radiusKm →
  validateEndpointFormat GET_SEARCH_RESULTS
    (default (defaultFormat client) (sp_format (built calls))) = Resolved tt →
  ∃ request,
    requests
      (executeNearAddress (built calls) address radiusMiles radiusKm
         sortByDistance w).2
    = requests w1 ++ [request]
    ∧ entries_named "lat_val" (url_searchParams (req_url request))
      = [("lat_val", numberToString (latitude (coordinates r)))]
    ∧ entries_named "long_val" (url_searchParams (req_url request))
      = [("long_val", numberToString (longitude (coordinates r)))].
Proof.
  intros Hs Hg Hrad Hfmt. unfold executeNearAddress.
  apply (searchMeetingsByAddress_sends parseFloat numberToString JSON_parse
           as_T RegExp_match search_net bmlt_net client
           {| gs_address := address; gs_radiusMiles := radiusMiles;
              gs_radiusKm := radiusKm;
              gs_sortByDistance := Some sortByDistance;
              gs_searchParams := Some (built calls) |} service r w w1);
    simpl; try assumption.
  apply built_NoDup.
Qed.
End BuilderExecute.

(** * More on one attempt of the geocoding service *)

(** X25: a status in 300-399 is no error for [fetchWithTimeout]: the
    response is not [ok], but only 429 and the statuses from 400 on are
    turned into errors, so the body is read as it is for a 200.  When the
    body parses in time the call resolves with it; when reading it fails
    in time, as for the empty body of a 304, the failure comes out
    classified like one of [fetch], a [SyntaxError] unchanged. *)
Theorem fetchWithTimeout_status_3xx_reads_body {T} (net : nat → NetReply T)
    url timeout ua w latency st txt (b : Body T) :
  net (length (requests w)) = Responds latency st txt b →
  latency ≤ timeout → 299 < st < 400 →
  (fetchWithTimeout net url timeout ua w).1
  = (fetchWithTimeout (λ _, Responds latency 200 txt b) url timeout ua w).1
  ∧ (∀ l data, b = BodyJson l data → latency + l ≤ timeout →
       (fetchWithTimeout net url timeout ua w).1 = Resolved data)
  ∧ (∀ l err, b = BodyFailure l err → latency + l ≤ timeout →
       error_name err ≠ "AbortError" → error_class err ≠ TypeErrorCls →
       (fetchWithTimeout net url timeout ua w).1 = Rejected err).
Proof.
  intros Hr Hl Hst. rewrite !fetchWithTimeout_run, Hr. simpl.
  rewrite !transport_reads_body by lia.
  split; [reflexivity|]. split.
  - intros l data -> Hb. simpl.
    replace (timeout <? latency + l) with false
      by (symmetry; apply Z.ltb_ge; lia).
    reflexivity.
  - intros l err -> Hb Hn Hc. simpl.
    replace (timeout <? latency + l) with false
      by (symmetry; apply Z.ltb_ge; lia).
    unfold instanceofTypeError.
    rewrite bool_decide_eq_false_2 by exact Hn.
    rewrite bool_decide_eq_false_2 by exact Hc. reflexivity.
Qed.

(** X26: when reading the body of a good response fails in time, the failure
    is classified like one of [fetch]: an [AbortError] gives [TimeoutError], a
    [TypeError] gives [NetworkError], and anything else, such as the
    [SyntaxError] of a body that is not JSON, comes out unchanged. *)
Theorem fetchWithTimeout_body_failure {T} (net : nat → NetReply T)
    url timeout ua w latency st txt l err :
  net (length (requests w)) = Responds latency st txt (BodyFailure l err) →
  0 ≤ l → latency + l ≤ timeout → 200 ≤ st ≤ 299 →
  (fetchWithTimeout net url timeout ua w).1
  = Rejected (if bool_decide (error_name err = "AbortError") then timeoutError
              else if bool_decide (error_class err = TypeErrorCls)
              then networkError
              else err).
Proof.
  intros Hr Hl Ht Hst. rewrite fetchWithTimeout_run, Hr. simpl.
  rewrite transport_unfold.
  replace (timeout <? latency) with false by (symmetry; apply Z.ltb_ge; lia).
  replace (200 <=? st) with true by (symmetry; apply Z.leb_le; lia).
  replace (st <=? 299) with true by (symmetry; apply Z.leb_le; lia).
  simpl.
  replace (timeout <? latency + l) with false
    by (symmetry; apply Z.ltb_ge; lia).
  unfold instanceofTypeError.
  destruct (bool_decide (error_name err = "AbortError")); [reflexivity|].
  destruct (bool_decide (error_class err = TypeErrorCls)); reflexivity.
Qed.

(** X27: the request of one attempt of [geocode]: a GET of [/search] with the
    user agent of the options; the query starts with the address and the fixed
    parameters, has [countrycodes] exactly when the country code is not empty,
    and [bounded] exactly when there is a viewbox and the option is set. *)
Theorem geocode_attempt_request parseFloat numberToString search_net this
    address (o : GeocodeOptions) w :
  ∃ request,
    requests
      (geocode_attempt parseFloat numberToString search_net this address o w).2
    = requests w ++ [request]
    ∧ req_method request = "GET"
    ∧ req_userAgent request = userAgent o
    ∧ url_href (req_url request) = baseURL this +:+ "/search"
    ∧ take 5 (url_searchParams (req_url request))
      = [("q", address); ("format", "json"); ("addressdetails", "1");
         ("limit", "1"); ("dedupe", "1")]
    ∧ ("countrycodes" ∈ (url_searchParams (req_url request)).*1
       ↔ countryCode o ≠ EmptyString)
    ∧ (("bounded", "1") ∈ url_searchParams (req_url request)
       ↔ (∃ v, viewbox o = Some v) ∧ bounded o = true).
Proof.
  rewrite geocode_attempt_run. simpl. eexists. split; [reflexivity|].
  simpl. repeat (split; [reflexivity|]).
  unfold searchParams. simpl.
  destruct (bool_decide (countryCode o = EmptyString)) eqn:Hc;
    [apply bool_decide_eq_true_1 in Hc | apply bool_decide_eq_false_1 in Hc];
    destruct (viewbox o) as [[[[a b] c] d]|];
    destruct (bounded o); simpl;
    (split; split; intros H);
    repeat match goal with
      | H : _ ∈ _ :: _ |- _ => apply elem_of_cons in H; destruct H as [H|H]
      | H : _ ∈ [] |- _ => apply elem_of_nil in H; contradiction
      | H : (_, _) = (_, _) |- _ => discriminate H
      | H : @eq string _ _ |- _ => discriminate H
      | H : _ ∧ _ |- _ => destruct H
      | H : ∃ _, _ |- _ => destruct H
      end;
    try congruence; try discriminate;
    try (split; [eauto | reflexivity]);
    try (rewrite !elem_of_cons; tauto).
Qed.

(** X28: the result of an attempt of [geocode] that resolves passes
    [validateCoordinates]: what the geocoding service hands out,
    [searchMeetingsByCoordinates] accepts as coordinates. *)
Theorem geocode_attempt_passes_validateCoordinates parseFloat numberToString
    search_net this address (o : GeocodeOptions) w r w' :
  geocode_attempt parseFloat numberToString search_net this address o w
  = (Resolved r, w') →
  validateCoordinates (latitude (coordinates r)) (longitude (coordinates r))
  = Resolved tt.
Proof.
  rewrite geocode_attempt_run. intros [= H _].
  apply (search_outcome_resolved parseFloat numberToString) in H.
  destruct H as (result & rest & _ & _ & Hv).
  destruct (coordinates r) as [lat lon].
  apply (validateCoordinates_of_valid (mkCoordinates lat lon)). exact Hv.
Qed.

(** * Concrete runs of the client and of the utilities *)

Local Open Scope float_scope.

Definition example_client : BmltClient :=
  {| client_timeout := 30000;
     client_userAgent := "bmlt-query-client/1.0.0";
     geocodingService := Some default_service;
     rootServerURL := "https://latest.aws.bmlt.app/main_server";
     defaultFormat := JSON |}.

Definition client_without_geocoding : BmltClient :=
  {| client_timeout := 30000;
     client_userAgent := "bmlt-query-client/1.0.0";
     geocodingService := None;
     rootServerURL := "https://latest.aws.bmlt.app/main_server";
     defaultFormat := JSON |}.

(** Stand-ins for [JSON.parse], the cast and the regular expression in the
    runs below, where the result type is the text itself. *)
Definition keep_text (s : string) : Outcome string := Resolved s.
Definition no_match (source text : string) : option string := None.

Definition three_retries : RetryHandlerOptions :=
  {| maxRetries := 3; baseDelay := 1000; maxDelay := 5000; rh_factor := 2;
     onRetry := None |}.

Definition example_request : Request :=
  mkRequest (mkURL "https://example.org" []) "GET" "test-agent".

(** An operation that sends a request and fails with a network error. *)
Definition always_unreachable : Promise nat :=
  λ w, (Rejected (createNetworkError "Network connection failed"),
        record_request example_request w).

(** An operation that gets a 503 through [fetchWithTimeout]. *)
Definition unavailable : Promise (option nat) :=
  fetchWithTimeout
    (λ _, Responds 80 503 "Service Unavailable" (BodyJson 5 None))
    (mkURL "https://example.org" []) 10000 "test-agent".

Definition parse_example (url : string) : Outcome (string * string) :=
  if bool_decide (url = "https://latest.aws.bmlt.app/main_server/")
  then Resolved ("https:", "https://latest.aws.bmlt.app/main_server/")
  else if bool_decide (url = "ftp://example.org")
  then Resolved ("ftp:", "ftp://example.org/")
  else Rejected (mkJsError TypeErrorCls "TypeError" "Invalid URL" None None).

Definition meetings_json : string := "[]".

Definition bmlt_found (n : nat) : NetReply string :=
  Responds 150 200 "OK" (BodyJson 60000 meetings_json).

Definition bmlt_down (n : nat) : NetReply string :=
  Responds 150 503 "Service Unavailable" (BodyJson 5 "down").

Lemma withRetry_stops_when_not_retryable_witness :
  withRetry unavailable three_retries empty_world
  = (Rejected
       (newBmltQueryError_with API_ERROR
          "Operation failed: Geocoding service error: 503 Service Unavailable"
          None),
     after_request example_request empty_world).
Proof.
  apply (withRetry_stops_when_not_retryable unavailable three_retries
           empty_world (httpError 503 "Service Unavailable")
           (after_request example_request empty_world)).
  - vm_compute. reflexivity.
  - left. reflexivity.
Defined.

Lemma always_unreachable_driven :
  driven_by always_unreachable
    (λ _, Rejected (createNetworkError "Network connection failed")).
Proof.
  intros w. unfold always_unreachable, record_request. simpl.
  rewrite length_app. simpl. repeat split. lia.
Qed.

Lemma three_retries_quiet : quiet_hook three_retries.
Proof. intros f H. discriminate. Qed.

Lemma withRetry_rejects_with_BmltQueryError_witness :
  ∃ e w', withRetry always_unreachable three_retries empty_world
          = (Rejected e, w')
    ∧ error_class e = BmltQueryErrorCls.
Proof.
  eexists _, _. split; [vm_compute; reflexivity|].
  eapply (withRetry_rejects_with_BmltQueryError always_unreachable
            three_retries empty_world).
  - exact three_retries_quiet.
  - vm_compute. reflexivity.
Defined.

Lemma always_unreachable_sends : sends always_unreachable example_request.
Proof. intros w. reflexivity. Qed.

Lemma three_retries_silent : silent_hook three_retries.
Proof. intros f H. discriminate. Qed.

Lemma withRetry_exhausts_witness :
  ∃ w', withRetry always_unreachable three_retries empty_world
        = (Rejected (createNetworkError "Network connection failed"), w')
    ∧ length (requests w') = 4%nat
    ∧ slept w' = [1000; 2000; 4000]%Z
    ∧ events w'
      = [Sent example_request; Waited 1000; Sent example_request;
         Waited 2000; Sent example_request; Waited 4000;
         Sent example_request]%Z.
Proof.
  apply (withRetry_exhausts always_unreachable three_retries
           (λ _, Rejected (createNetworkError "Network connection failed"))
           example_request empty_world
           (λ _, createNetworkError "Network connection failed")
           always_unreachable_driven three_retries_quiet
           always_unreachable_sends three_retries_silent).
  - intros k Hk. reflexivity.
  - intros k Hk. reflexivity.
Defined.

Lemma validateCoordinates_accepts_iff_witness :
  validateCoordinates nan 0
  = Rejected (newError "Latitude must be a valid number")
  ∧ validateCoordinates 40.5 (-73.75) = Resolved tt.
Proof.
  split.
  - apply (proj2 (validateCoordinates_accepts_iff nan 0)). reflexivity.
  - apply (proj1 (validateCoordinates_accepts_iff 40.5 (-73.75))).
    vm_compute. repeat split.
Defined.

Lemma geocode_attempt_passes_validateCoordinates_witness :
  validateCoordinates (latitude (coordinates times_square_result))
    (longitude (coordinates times_square_result))
  = Resolved tt.
Proof.
  eapply (geocode_attempt_passes_validateCoordinates parseDecimal showInteger
            (λ _, found [times_square]) default_service
            "Times Square, New York, NY" (defaultOptions default_service)
            empty_world times_square_result).
  vm_compute. reflexivity.
Defined.

Lemma formatTimeValue_accepts_iff_witness :
  formatTimeValue (Some nan) (Some nan)
  = Resolved (mkTimeValue (Some nan) (Some nan))
  ∧ formatTimeValue (Some 17) None = Resolved (mkTimeValue (Some 17) None).
Proof.
  split.
  - apply (proj2 (formatTimeValue_accepts_iff None None
                    (mkTimeValue None None)) nan nan); reflexivity.
  - apply (proj1 (formatTimeValue_accepts_iff (Some 17) None
                    (mkTimeValue (Some 17) None))).
    vm_compute. repeat split.
Defined.

Lemma validateRootServerURL_outcomes_witness :
  validateRootServerURL parse_example "ftp://example.org"
  = Rejected (newError "Invalid root server URL: ftp://example.org")
  ∧ validateRootServerURL parse_example
      "https://latest.aws.bmlt.app/main_server/"
    = Resolved "https://latest.aws.bmlt.app/main_server".
Proof.
  split.
  - destruct (validateRootServerURL parse_example "ftp://example.org")
      as [s|e] eqn:E; [vm_compute in E; discriminate|].
    f_equal.
    apply (proj1 (validateRootServerURL_outcomes parse_example
                    "ftp://example.org") e E).
  - apply (proj2 (validateRootServerURL_outcomes parse_example
                    "https://latest.aws.bmlt.app/main_server/")).
    exists "https:", "https://latest.aws.bmlt.app/main_server/".
    vm_compute. repeat split; auto.
Defined.

Lemma buildBmltURL_final_slash_witness :
  buildBmltURL showInteger "https://latest.aws.bmlt.app/main_server/" JSON
    GET_SERVER_INFO []
  = buildBmltURL showInteger "https://latest.aws.bmlt.app/main_server" JSON
      GET_SERVER_INFO [].
Proof.
  apply (buildBmltURL_final_slash showInteger
           "https://latest.aws.bmlt.app/main_server" JSON GET_SERVER_INFO []).
  reflexivity.
Defined.

Definition monday_evening : Parameters :=
  [("weekdays", VScalar (SNumber 2)); ("StartsAfterH", VScalar (SNumber 17));
   ("recursive", VScalar (SBool true));
   ("services", VArray [SNumber 5; SNumber 7])].

(** Parameters with a [switcher] of their own. *)
Definition own_switcher : Parameters :=
  [("weekdays", VScalar (SNumber 2));
   ("switcher", VScalar (SString "GetFormats"))].

Definition null_switcher : Parameters :=
  [("switcher", VScalar SNull); ("weekdays", VScalar (SNumber 2))].

Lemma buildBmltURL_switcher_first_witness :
  let query (parameters : Parameters) :=
    url_searchParams
      (buildBmltURL showInteger "https://latest.aws.bmlt.app/main_server"
         JSON GET_SEARCH_RESULTS parameters) in
  (∃ rest, query monday_evening = ("switcher", "GetSearchResults") :: rest
     ∧ ¬ ("switcher" ∈ rest.*1))
  ∧ (∃ rest, query own_switcher = ("switcher", "GetFormats") :: rest
       ∧ ¬ ("switcher" ∈ rest.*1))
  ∧ (∃ rest, query null_switcher = ("switcher", "GetSearchResults") :: rest
       ∧ ¬ ("switcher" ∈ rest.*1)).
Proof.
  intros query. unfold query. split; [|split].
  - destruct (buildBmltURL_switcher_first showInteger
                "https://latest.aws.bmlt.app/main_server" JSON
                GET_SEARCH_RESULTS monday_evening)
      as (v & rest & Heq & Hrest & Hv & _).
    exists rest. split; [|exact Hrest].
    rewrite Heq, Hv; [reflexivity|].
    unfold monday_evening. simpl. rewrite !elem_of_cons, elem_of_nil.
    intros [H|[H|[H|[H|[]]]]]; discriminate.
  - destruct (buildBmltURL_switcher_first showInteger
                "https://latest.aws.bmlt.app/main_server" JSON
                GET_SEARCH_RESULTS own_switcher)
      as (v & rest & Heq & Hrest & _ & Hv).
    exists rest. split; [|exact Hrest].
    rewrite Heq, (Hv ltac:(unfold own_switcher; simpl; repeat constructor;
                           rewrite ?elem_of_cons, ?elem_of_nil;
                           intuition discriminate)
                    (VScalar (SString "GetFormats"))); [reflexivity|].
    unfold own_switcher. rewrite !elem_of_cons. auto.
  - destruct (buildBmltURL_switcher_first showInteger
                "https://latest.aws.bmlt.app/main_server" JSON
                GET_SEARCH_RESULTS null_switcher)
      as (v & rest & Heq & Hrest & _ & Hv).
    exists rest. split; [|exact Hrest].
    rewrite Heq, (Hv ltac:(unfold null_switcher; simpl; repeat constructor;
                           rewrite ?elem_of_cons, ?elem_of_nil;
                           intuition discriminate)
                    (VScalar SNull)); [reflexivity|].
    unfold null_switcher. rewrite !elem_of_cons. auto.
Defined.

Lemma buildBmltURL_scalar_once_witness :
  entries_named "recursive"
    (url_searchParams
       (buildBmltURL showInteger "https://latest.aws.bmlt.app/main_server"
          JSON GET_SEARCH_RESULTS monday_evening))
  = [("recursive", "1")].
Proof.
  apply (buildBmltURL_scalar_once showInteger
           "https://latest.aws.bmlt.app/main_server" JSON GET_SEARCH_RESULTS
           monday_evening "recursive" (SBool true) "1").
  - unfold monday_evening. simpl. repeat constructor;
      rewrite ?elem_of_cons, ?elem_of_nil; intuition discriminate.
  - reflexivity.
  - reflexivity.
  - discriminate.
  - intros k H.
    do 9 (destruct k as [|? k]; simpl in H; [discriminate|];
          injection H as _ H).
    destruct k; discriminate.
Defined.

Definition near_times_square : GeographicSearchParams :=
  {| gs_address := "Times Square, New York, NY";
     gs_radiusMiles := Some 5;
     gs_radiusKm := None;
     gs_sortByDistance := None;
     gs_searchParams :=
       Some (mkSearchResultsParams None
               [("lat_val", VScalar (SNumber 0));
                ("weekdays", VScalar (SNumber 2))]) |}.

Definition no_radius : GeographicSearchParams :=
  {| gs_address := "Times Square, New York, NY";
     gs_radiusMiles := Some 0;
     gs_radiusKm := Some 10;
     gs_sortByDistance := None;
     gs_searchParams := None |}.

Definition times_square_net (n : nat)
  : NetReply (option (list NominatimResponse)) :=
  found [times_square].

Lemma makeRequest_refuses_format_witness :
  ∃ e,
    makeRequest showInteger keep_text id no_match bmlt_found example_client
      GET_FORMATS [] CSV empty_world
    = (Rejected e, empty_world)
    ∧ error_type e = Some API_ERROR
    ∧ error_message e
      = "Invalid format 'csv' for endpoint 'GetFormats'. Valid formats: json, jsonp"
    ∧ error_isRetryable e = false.
Proof.
  apply (makeRequest_refuses_format showInteger keep_text id no_match
           bmlt_found example_client GET_FORMATS [] CSV empty_world
           (newError
              "Invalid format 'csv' for endpoint 'GetFormats'. Valid formats: json, jsonp")).
  vm_compute. reflexivity.
Defined.

Lemma makeRequest_rejections_witness :
  error_class
    (newBmltQueryError_with SERVER_ERROR "HTTP 503: Service Unavailable"
       (Some 503%Z))
  = BmltQueryErrorCls.
Proof.
  apply (proj1 (makeRequest_rejections showInteger keep_text id no_match
                  bmlt_down example_client GET_FORMATS [] JSON empty_world)).
  vm_compute. reflexivity.
Defined.

Lemma makeRequest_http_error_witness :
  (makeRequest showInteger keep_text id no_match bmlt_down example_client
     GET_FORMATS [] JSON empty_world).1
  = Rejected (newBmltQueryError_with SERVER_ERROR
                "HTTP 503: Service Unavailable" (Some 503%Z)).
Proof.
  apply (makeRequest_http_error showInteger keep_text id no_match bmlt_down
           example_client GET_FORMATS [] JSON empty_world 150 503
           "Service Unavailable" (BodyJson 5 "down")).
  - reflexivity.
  - reflexivity.
  - vm_compute. discriminate.
  - right. reflexivity.
Defined.

Lemma makeRequest_body_not_timed_witness :
  (makeRequest showInteger keep_text id no_match bmlt_found example_client
     GET_FORMATS [] JSON empty_world).1
  = Resolved meetings_json
  ∧ (fetchWithTimeout bmlt_found
       (buildBmltURL showInteger (rootServerURL example_client) JSON
          GET_FORMATS [])
       (client_timeout example_client) (client_userAgent example_client)
       empty_world).1
    = Rejected timeoutError.
Proof.
  apply (makeRequest_body_not_timed showInteger keep_text id no_match
           bmlt_found example_client GET_FORMATS [] empty_world 150 200 "OK"
           60000 meetings_json meetings_json).
  - reflexivity.
  - reflexivity.
  - split; vm_compute; discriminate.
  - split; [vm_compute; discriminate | reflexivity].
  - reflexivity.
Defined.

Lemma searchMeetingsByCoordinates_checks_first_witness :
  ∃ e,
    searchMeetingsByCoordinates showInteger keep_text id no_match bmlt_found
      example_client (mkCoordinates 40.5 (-73.75)) (Some 0) (Some 10)
      no_params empty_world
    = (Rejected e, empty_world)
    ∧ error_class e = ErrorCls.
Proof.
  apply (proj1 (proj2 (searchMeetingsByCoordinates_checks_first showInteger
                         keep_text id no_match bmlt_found example_client
                         (mkCoordinates 40.5 (-73.75)) (Some 0) (Some 10)
                         no_params empty_world)) 0);
    reflexivity.
Defined.

Lemma searchMeetingsByAddress_failures_witness :
  searchMeetingsByAddress parseDecimal showInteger keep_text id no_match
    times_square_net bmlt_found client_without_geocoding near_times_square
    empty_world
  = (Rejected geocodingDisabledError, empty_world).
Proof.
  apply (proj1 (searchMeetingsByAddress_failures parseDecimal showInteger
                  keep_text id no_match times_square_net bmlt_found
                  client_without_geocoding near_times_square empty_world)).
  reflexivity.
Defined.

Lemma searchMeetingsByAddress_centre_witness :
  ∃ request,
    requests
      (searchMeetingsByAddress parseDecimal showInteger keep_text id no_match
         times_square_net bmlt_found example_client near_times_square
         empty_world).2
    = requests
        (geocode parseDecimal showInteger times_square_net default_service
           "Times Square, New York, NY" no_options empty_world).2
      ++ [request]
    ∧ entries_named "lat_val" (url_searchParams (req_url request))
      = [("lat_val",
          showInteger (latitude (coordinates times_square_result)))]
    ∧ entries_named "long_val" (url_searchParams (req_url request))
      = [("long_val",
          showInteger (longitude (coordinates times_square_result)))].
Proof.
  apply (searchMeetingsByAddress_centre parseDecimal showInteger keep_text id
           no_match times_square_net bmlt_found example_client
           near_times_square default_service times_square_result
           empty_world).
  - reflexivity.
  - vm_compute. reflexivity.
  - reflexivity.
  - simpl. repeat constructor;
      rewrite ?elem_of_cons, ?elem_of_nil; intuition discriminate.
  - reflexivity.
Defined.

Lemma minimumDuration_keeps_earlier_witness :
  minimumDuration 0 0 (minimumDuration 2 30 no_params)
  = minimumDuration 2 30 no_params.
Proof.
  apply (proj1 (minimumDuration_keeps_earlier 0 0
                  (minimumDuration 2 30 no_params)));
    reflexivity.
Defined.

Lemma executeNearAddress_centre_witness :
  ∃ request,
    requests
      (executeNearAddress parseDecimal showInteger keep_text id no_match
         times_square_net bmlt_found example_client
         (built [call_onWeekdays [MONDAY];
                 call_nearCoordinates (mkCoordinates 10 20) (Some 3) None])
         "Times Square, New York, NY" (Some 5) None true empty_world).2
    = requests
        (geocode parseDecimal showInteger times_square_net default_service
           "Times Square, New York, NY" no_options empty_world).2
      ++ [request]
    ∧ entries_named "lat_val" (url_searchParams (req_url request))
      = [("lat_val",
          showInteger (latitude (coordinates times_square_result)))]
    ∧ entries_named "long_val" (url_searchParams (req_url request))
      = [("long_val",
          showInteger (longitude (coordinates times_square_result)))].
Proof.
  apply (executeNearAddress_centre parseDecimal showInteger keep_text id
           no_match times_square_net bmlt_found example_client
           [call_onWeekdays [MONDAY];
            call_nearCoordinates (mkCoordinates 10 20) (Some 3) None]
           "Times Square, New York, NY" (Some 5) None true default_service
           times_square_result empty_world).
  - reflexivity.
  - vm_compute. reflexivity.
  - reflexivity.
  - reflexivity.
Defined.

(** A 300 with a list of choices as JSON, and a 304, which has no body:
    [response.json()] fails on it with a [SyntaxError]. *)
Definition multiple_choices (n : nat) : NetReply (option nat) :=
  Responds 80 300 "Multiple Choices" (BodyJson 5 (Some 2%nat)).

Definition not_modified (n : nat) : NetReply (option nat) :=
  Responds 80 304 "Not Modified"
    (BodyFailure 0
       (mkJsError SyntaxErrorCls "SyntaxError" "Unexpected end of JSON input"
          None None)).

Definition not_json (n : nat) : NetReply (option nat) :=
  Responds 80 200 "OK"
    (BodyFailure 5
       (mkJsError SyntaxErrorCls "SyntaxError" "Unexpected token <" None None)).

Lemma fetchWithTimeout_status_3xx_reads_body_witness :
  (fetchWithTimeout multiple_choices (mkURL "https://example.org" []) 10000
     "test-agent" empty_world).1
  = Resolved (Some 2%nat)
  ∧ (fetchWithTimeout not_modified (mkURL "https://example.org" []) 10000
       "test-agent" empty_world).1
    = Rejected
        (mkJsError SyntaxErrorCls "SyntaxError" "Unexpected end of JSON input"
           None None).
Proof.
  split.
  - destruct (fetchWithTimeout_status_3xx_reads_body multiple_choices
                (mkURL "https://example.org" []) 10000 "test-agent"
                empty_world 80 300 "Multiple Choices"
                (BodyJson 5 (Some 2%nat)))
      as (_ & Hjson & _).
    + reflexivity.
    + vm_compute. discriminate.
    + split; reflexivity.
    + apply (Hjson 5%Z (Some 2%nat)); [reflexivity|].
      vm_compute. discriminate.
  - destruct (fetchWithTimeout_status_3xx_reads_body not_modified
                (mkURL "https://example.org" []) 10000 "test-agent"
                empty_world 80 304 "Not Modified"
                (BodyFailure 0
                   (mkJsError SyntaxErrorCls "SyntaxError"
                      "Unexpected end of JSON input" None None)))
      as (_ & _ & Hfail).
    + reflexivity.
    + vm_compute. discriminate.
    + split; reflexivity.
    + apply (Hfail 0%Z _ eq_refl); [vm_compute|..]; discriminate.
Defined.

Lemma fetchWithTimeout_body_failure_witness :
  (fetchWithTimeout not_json (mkURL "https://example.org" []) 10000
     "test-agent" empty_world).1
  = Rejected
      (mkJsError SyntaxErrorCls "SyntaxError" "Unexpected token <" None None).
Proof.
  apply (fetchWithTimeout_body_failure not_json
           (mkURL "https://example.org" []) 10000 "test-agent" empty_world
           80 200 "OK" 5
           (mkJsError SyntaxErrorCls "SyntaxError" "Unexpected token <" None
              None)).
  - reflexivity.
  - vm_compute. discriminate.
  - vm_compute. discriminate.
  - split; vm_compute; discriminate.
Defined.
